(** * OPC-UA Endpoint Diagnostic: the probe worker (worker.js)

    A shallow embedding of the parts of [worker.js] that parse the
    socket table, diff two snapshots, normalise the endpoint, watch for
    incoming connections and drive the five-stage probe, followed by the
    properties established about them.

    Conventions of the embedding.
    - A JavaScript string is a [string]: a sequence of 8-bit code units.
      The socket table printed by [netstat] and the endpoint typed by
      the user are in that range.
    - "string or undefined/null" is [option string].
    - A function that can throw returns a [JsResult].
    - Integers are [Z]; the only non-integer arithmetic of the worker
      (the progress interpolation of the watcher) is exact arithmetic on
      [Q] composed with an abstract rounding-to-double function.  Where
      the embedding is exact only for the integers that a double holds
      (the number of polls of the watcher, the text of a port number),
      the definition says so and the properties carry the bound.
    - A write to the log file can throw: a run of the handler is made
      on a [Probe.Disk], which answers every [fs.appendFileSync].
    - A plain object used as a table is the list of its own
      properties; what it inherits from [Object.prototype] is part of
      the assignment [LogFormat.bump]. *)

From Stdlib Require Import ZArith QArith Qround String Ascii List Bool Lia.
From stdpp Require Import base list strings pretty sorting.
Import ListNotations.

Open Scope string_scope.
Open Scope list_scope.

(* ================================================================== *)
(** * Part I: definitions                                              *)
(* ================================================================== *)

(** ** Errors and results *)

(** An [Error] object: its [name] and its [message]. *)
Record JsError := mkError { err_name : string; err_message : string }.

(** [new Error(msg)] *)
Definition Error (msg : string) : JsError := mkError "Error" msg.

(** The [TypeError] raised when a method is called on [undefined]. *)
Definition TypeError (msg : string) : JsError := mkError "TypeError" msg.

(** [String(err)], that is [Error.prototype.toString]. *)
Definition String_of_error (e : JsError) : string :=
  if String.eqb (err_name e) "" then err_message e
  else if String.eqb (err_message e) "" then err_name e
  else err_name e +:+ ": " +:+ err_message e.

Inductive JsResult (A : Type) : Type :=
| Ok (a : A)
| Throw (e : JsError).
Arguments Ok {A} a.
Arguments Throw {A} e.

Definition bindR {A B} (r : JsResult A) (k : A -> JsResult B) : JsResult B :=
  match r with
  | Ok a => k a
  | Throw e => Throw e
  end.

Declare Scope jsres_scope.
Delimit Scope jsres_scope with jsres.
Notation "x <- r ;;; k" := (bindR r (fun x => k))
  (at level 100, r at next level, right associativity) : jsres_scope.

(** ** String primitives of the JavaScript runtime *)

Module JsString.

Local Open Scope nat_scope.

Definition code (c : ascii) : nat := nat_of_ascii c.

(** White space in the sense of [String.prototype.trim] and of the
    regular-expression class [\s], restricted to 8-bit code units:
    TAB, LF, VT, FF, CR, SPACE and NBSP. *)
Definition is_ws (c : ascii) : bool :=
  ((9 <=? code c) && (code c <=? 13)) || (code c =? 32) || (code c =? 160).

(** The line terminators that [.] does not match: LF and CR. *)
Definition is_line_terminator (c : ascii) : bool :=
  (code c =? 10) || (code c =? 13).

(** The class [\d]. *)
Definition is_digit (c : ascii) : bool :=
  (48 <=? code c) && (code c <=? 57).

Fixpoint all_chars (p : ascii -> bool) (s : string) : bool :=
  match s with
  | EmptyString => true
  | String c s' => p c && all_chars p s'
  end.

Fixpoint trimStart (s : string) : string :=
  match s with
  | EmptyString => EmptyString
  | String c s' => if is_ws c then trimStart s' else s
  end.

Fixpoint trimEnd (s : string) : string :=
  match s with
  | EmptyString => EmptyString
  | String c s' =>
      let t := trimEnd s' in
      if is_ws c && String.eqb t "" then EmptyString else String c t
  end.

(** [s.trim()] *)
Definition trim (s : string) : string := trimEnd (trimStart s).

(** Whether the first, respectively the last, code unit of a string is
    white space. *)
Definition headIsWs (s : string) : bool :=
  match s with
  | EmptyString => false
  | String c _ => is_ws c
  end.

Fixpoint lastIsWs (s : string) : bool :=
  match s with
  | EmptyString => false
  | String c s' => if String.eqb s' "" then is_ws c else lastIsWs s'
  end.

(** Lower-casing of one code unit: the ASCII capitals and the Latin-1
    capitals (0xC0..0xDE but the multiplication sign 0xD7). *)
Definition lower_char (c : ascii) : ascii :=
  let n := code c in
  if ((65 <=? n) && (n <=? 90))
     || ((192 <=? n) && (n <=? 222) && negb (n =? 215))
  then ascii_of_nat (n + 32) else c.

(** [s.toLowerCase()] *)
Fixpoint toLowerCase (s : string) : string :=
  match s with
  | EmptyString => EmptyString
  | String c s' => String (lower_char c) (toLowerCase s')
  end.

(** Canonicalisation of a code unit under the [i] flag of a regular
    expression without the [u] flag: a code unit is compared through
    its upper case, and a non-ASCII code unit never folds onto an
    ASCII one; for the ASCII patterns of the worker only the ASCII
    letters matter. *)
Definition canon_char (c : ascii) : ascii :=
  let n := code c in
  if (97 <=? n) && (n <=? 122) then ascii_of_nat (n - 32) else c.

Fixpoint canonicalize (s : string) : string :=
  match s with
  | EmptyString => EmptyString
  | String c s' => String (canon_char c) (canonicalize s')
  end.

(** [s.startsWith(p)] *)
Definition startsWith (p s : string) : bool := String.prefix p s.

(** [s.slice(n)] and [s.substring(n)] for [0 <= n]. *)
Fixpoint sliceFrom (n : nat) (s : string) : string :=
  match n, s with
  | O, _ => s
  | S n', String _ s' => sliceFrom n' s'
  | S _, EmptyString => EmptyString
  end.

(** [s.substring(0, n)] *)
Fixpoint substringTo (n : nat) (s : string) : string :=
  match n, s with
  | S n', String c s' => String c (substringTo n' s')
  | _, _ => EmptyString
  end.

(** [s.lastIndexOf(c)]; [None] stands for [-1]. *)
Fixpoint lastIndexOf (c : ascii) (s : string) : option nat :=
  match s with
  | EmptyString => None
  | String d s' =>
      match lastIndexOf c s' with
      | Some i => Some (S i)
      | None => if Ascii.eqb d c then Some O else None
      end
  end.

(** [hay.includes(needle)] *)
Fixpoint includes (hay needle : string) : bool :=
  startsWith needle hay ||
  match hay with
  | EmptyString => false
  | String _ hay' => includes hay' needle
  end.

(** Puts one more code unit in front of the first piece of a split. *)
Definition cons_head (c : ascii) (l : list string) : list string :=
  match l with
  | h :: t => String c h :: t
  | [] => [String c EmptyString]
  end.

(** [s.split(/\r?\n/)]: the separators are the LFs, each together with
    the CR that immediately precedes it, if any; a CR on its own stays
    in its line.  The empty string splits into one empty line. *)
Fixpoint splitLines (s : string) : list string :=
  match s with
  | EmptyString => [EmptyString]
  | String c s' =>
      if code c =? 10 then EmptyString :: splitLines s'
      else
        match s' with
        | String d s'' =>
            if (code c =? 13) && (code d =? 10)
            then EmptyString :: splitLines s''
            else cons_head c (splitLines s')
        | EmptyString => cons_head c (splitLines s')
        end
  end.

(** [s.split(/\s+/)]: the separators are the maximal runs of white
    space; [in_run] tells that the previous code unit was white space,
    so that the current separator is already open. *)
Fixpoint splitWsFrom (in_run : bool) (s : string) : list string :=
  match s with
  | EmptyString => [EmptyString]
  | String c s' =>
      if is_ws c
      then (if in_run then splitWsFrom true s'
            else EmptyString :: splitWsFrom true s')
      else cons_head c (splitWsFrom false s')
  end.

Definition splitWs (s : string) : list string := splitWsFrom false s.

(** Truthiness of a string-or-undefined value: [!v] is [false]
    exactly for a non-empty string. *)
Definition truthy (v : option string) : bool :=
  match v with
  | Some s => negb (String.eqb s "")
  | None => false
  end.

(** [v || ''] *)
Definition orEmpty (v : option string) : string :=
  match v with
  | Some s => s
  | None => EmptyString
  end.

End JsString.

(** ** The socket table: [getListeningPorts] and [parseAddressPort] *)

Module Netstat.
Import JsString.

(** What the callback of [exec('netstat -ano', ...)] receives. *)
Record ExecResult := mkExec { exec_err : option JsError; exec_stdout : string }.

(** One listening socket, as pushed on [listeners].  [proto] is
    [parts[0]] as it is; the other fields go through [|| ''] or
    through [parseAddressPort]. *)
Record SocketRecord := mkSocket {
  proto : option string;
  localAddress : string;
  localPort : string;
  pid : string
}.

(** The body of [parseAddressPort]: the split is at the last colon;
    without a colon the text is the address and the port is empty. *)
Definition splitAtLastColon (text : string) : string * string :=
  match lastIndexOf ":" text with
  | None => (text, EmptyString)
  | Some idx => (substringTo idx text, sliceFrom (S idx) text)
  end.

(** [parseAddressPort(text)].  Calling [lastIndexOf] on [undefined]
    raises a [TypeError]. *)
Definition parseAddressPort (text : option string) : JsResult (string * string) :=
  match text with
  | None => Throw (TypeError "Cannot read properties of undefined (reading 'lastIndexOf')")
  | Some t => Ok (splitAtLastColon t)
  end.

(** [stdout.split(/\r?\n/).slice(4).filter(l => l.trim())] *)
Definition dataLines (stdout : string) : list string :=
  List.filter (fun l => negb (String.eqb (trim l) ""))
              (skipn 4 (splitLines stdout)).

(** [line.trim().split(/\s+/)] *)
Definition columns (line : string) : list string := splitWs (trim line).

(** [/LISTENING/i.test(state) || state === 'LISTEN'] *)
Definition isListening (state : string) : bool :=
  includes (canonicalize state) "LISTENING" || String.eqb state "LISTEN".

(** The body of the [for (const line of lines)] loop of
    [getListeningPorts]; [listeners.push] appends. *)
Definition listenerOfLine (listeners : list SocketRecord) (line : string)
  : JsResult (list SocketRecord) :=
  let parts := columns line in
  if (5 <=? length parts)%nat then
    let proto : option string := parts !! 0%nat in
    let local := parts !! 1%nat in
    let state := orEmpty (parts !! 3%nat) in
    let pid := orEmpty (parts !! 4%nat) in
    if isListening state then
      (ap <- parseAddressPort local ;;;
       Ok (listeners ++ [mkSocket proto (fst ap) (snd ap) pid]))%jsres
    else Ok listeners
  else Ok listeners.

(** A [for ... of] loop over the lines, threading the array that the
    body pushes on; an exception of the body leaves the loop. *)
Fixpoint forEachLine {A} (body : A -> string -> JsResult A)
         (lines : list string) (acc : A) : JsResult A :=
  match lines with
  | [] => Ok acc
  | line :: rest => (acc' <- body acc line ;;; forEachLine body rest acc')%jsres
  end.

(** The callback of [getListeningPorts] once [err] is known to be null. *)
Definition parseListeners (stdout : string) : JsResult (list SocketRecord) :=
  forEachLine listenerOfLine (dataLines stdout) [].

(** [getListeningPorts()], awaited: a rejection is a [Throw]. *)
Definition getListeningPorts (r : ExecResult) : JsResult (list SocketRecord) :=
  match exec_err r with
  | Some err => Throw err
  | None => parseListeners (exec_stdout r)
  end.

(** *** Row-level reading of the loop, used to state its properties *)

(** The rows of the table: the columns of each data line. *)
Definition rows (stdout : string) : list (list string) :=
  map columns (dataLines stdout).

(** The two tests a row has to pass to be pushed. *)
Definition acceptedRow (parts : list string) : bool :=
  (5 <=? length parts)%nat && isListening (orEmpty (parts !! 3%nat)).

(** The record pushed for an accepted row. *)
Definition socketOfRow (parts : list string) : SocketRecord :=
  let ap := splitAtLastColon (orEmpty (parts !! 1%nat)) in
  mkSocket (parts !! 0%nat) (fst ap) (snd ap) (orEmpty (parts !! 4%nat)).

(** The listening markers as the specification words them: the
    abbreviated and the full spelling, each in any letter case. *)
Definition matchesListeningMarker (state : string) : bool :=
  String.eqb (canonicalize state) "LISTEN"
  || String.eqb (canonicalize state) "LISTENING".

(** A row passes the specification's test when it has its five
    columns and its state is one of those markers. *)
Definition claimedRow (parts : list string) : bool :=
  (5 <=? length parts)%nat && matchesListeningMarker (orEmpty (parts !! 3%nat)).

(** The four header lines of [netstat -ano], for examples. *)
Definition LF : string := String (ascii_of_nat 10) EmptyString.
Definition netstatHeader : string :=
  LF +:+ "Active Connections" +:+ LF +:+ LF +:+
  "  Proto  Local Address          Foreign Address        State           PID" +:+ LF.

(** A table whose only row is in state [listen], in lower case. *)
Definition lowercaseListenTable : string :=
  netstatHeader +:+ "  TCP    0.0.0.0:22    0.0.0.0:0    listen    812" +:+ LF.

(** A table that lists the same listening socket twice. *)
Definition repeatedRowTable : string :=
  netstatHeader
  +:+ "  TCP    0.0.0.0:135    0.0.0.0:0    LISTENING    4" +:+ LF
  +:+ "  TCP    0.0.0.0:135    0.0.0.0:0    LISTENING    4" +:+ LF.

End Netstat.

(** ** The comparison of the two snapshots (step 4 of the probe) *)

Module PortDiff.
Import Netstat.

(** [Set.prototype.add]: a [Set] iterates in insertion order and an
    element already present is not inserted again. *)
Definition Set_add (s : list string) (k : string) : list string :=
  if decide (k ∈ s) then s else s ++ [k].

(** [new Set(l)], listed in iteration order ([[...set]]). *)
Definition Set_of (l : list string) : list string := fold_left Set_add l [].

(** [`${l.localAddress}:${l.localPort}`] *)
Definition portKey (l : SocketRecord) : string :=
  localAddress l +:+ ":" +:+ localPort l.

Record Comparison := mkComparison {
  newPorts : list string;
  removedPorts : list string;
  netChange : Z
}.

(** [portSummary.comparison] *)
Definition comparison (beforeListeners afterListeners : list SocketRecord)
  : Comparison :=
  let portCount := Z.of_nat (length afterListeners) in
  let baselinePorts := Set_of (map portKey beforeListeners) in
  let afterPorts := Set_of (map portKey afterListeners) in
  let newPorts := filter (fun p => p ∉ baselinePorts) afterPorts in
  let removedPorts := filter (fun p => p ∉ afterPorts) baselinePorts in
  mkComparison newPorts removedPorts
               (portCount - Z.of_nat (length beforeListeners))%Z.

(** The count difference the specification relates [netChange] to. *)
Definition keyedChange (c : Comparison) : Z :=
  (Z.of_nat (length (newPorts c)) - Z.of_nat (length (removedPorts c)))%Z.

End PortDiff.

(** ** The endpoint: [normalizeEndpoint] and [extractHostFromEndpoint] *)

Module Endpoint.
Import JsString.

(** The [port] argument: absent, a number or a string. *)
Inductive JsPort :=
| PortUnset
| PortNumber (n : Z)
| PortString (s : string).

(** [!port] *)
Definition port_falsy (port : JsPort) : bool :=
  match port with
  | PortUnset => true
  | PortNumber n => (n =? 0)%Z
  | PortString s => String.eqb s ""
  end.

(** [`${port}`].  A number is printed by [pretty], which is its text
    for the integers up to 2^53 in absolute value: beyond, the text
    is the shortest decimal that reads back as the same double, and
    from 1e21 on it has an exponent.  The port numbers of the
    renderer are between 1 and 65535. *)
Definition port_text (port : JsPort) : string :=
  match port with
  | PortUnset => "undefined"
  | PortNumber n => pretty n
  | PortString s => s
  end.

Definition scheme : string := "opc.tcp://".

(** What is left of [/^(.+?):(\d+)$/] once group 1 is closed: a colon,
    then one digit or more up to the end of the input; the result is
    group 2. *)
Definition portSuffix (s : string) : option string :=
  match s with
  | String c digits =>
      if Ascii.eqb c ":" && negb (String.eqb digits "") && all_chars is_digit digits
      then Some digits else None
  | EmptyString => None
  end.

(** [s.match(/^(.+?):(\d+)$/)], groups 1 and 2.  Group 1 is lazy: it
    is first tried with one code unit and then extended by one code
    unit at a time; [.] matches no line terminator. *)
Fixpoint hostPortMatch (s : string) : option (string * string) :=
  match s with
  | EmptyString => None
  | String c s' =>
      if is_line_terminator c then None
      else
        match portSuffix s' with
        | Some digits => Some (String c EmptyString, digits)
        | None =>
            match hostPortMatch s' with
            | Some (host, digits) => Some (String c host, digits)
            | None => None
            end
        end
  end.

(** The server text after [trim] and after the removal of the scheme:
    [if (server.toLowerCase().startsWith('opc.tcp://')) server =
    server.slice('opc.tcp://'.length)]. *)
Definition stripScheme (server : string) : string :=
  if startsWith scheme (toLowerCase server)
  then sliceFrom (String.length scheme) server
  else server.

(** The host and the port in the hands of [normalizeEndpoint] after
    the [hostPortMatch] block. *)
Definition hostAndPort (server : string) (port : JsPort) : string * JsPort :=
  let server := stripScheme (trim server) in
  match hostPortMatch server with
  | Some (host, digits) =>
      (host, if port_falsy port then PortString digits else port)
  | None => (server, port)
  end.

(** [normalizeEndpoint(server, port)] *)
Definition normalizeEndpoint (server : option string) (port : JsPort)
  : JsResult string :=
  if negb (truthy server) then Throw (Error "server missing")
  else
    let hp := hostAndPort (orEmpty server) port in
    if port_falsy (snd hp) then Throw (Error "port missing")
    else Ok (scheme +:+ fst hp +:+ ":" +:+ port_text (snd hp)).

(** Endpoint normalisation as the specification words it: the same
    process, the failure being decided on the host and the port that
    the process leaves. *)
Definition normalizeAsSpecified (server : option string) (port : JsPort)
  : JsResult string :=
  let hp := hostAndPort (orEmpty server) port in
  if String.eqb (fst hp) "" || port_falsy (snd hp)
  then Throw (Error "configuration error")
  else Ok (scheme +:+ fst hp +:+ ":" +:+ port_text (snd hp)).

(** Group 1 of [/^opc\.tcp:\/\/([^\/:]+)(?::\d+)?/i]: the longest run
    of code units other than [/] and [:]. *)
Fixpoint hostRun (s : string) : string :=
  match s with
  | EmptyString => EmptyString
  | String c s' =>
      if Ascii.eqb c "/" || Ascii.eqb c ":" then EmptyString
      else String c (hostRun s')
  end.

(** [text.match(/^opc\.tcp:\/\/([^\/:]+)(?::\d+)?/i)], group 1.  The
    optional port group may match nothing and the pattern is not
    anchored at the end, so the match succeeds as soon as the run is
    not empty. *)
Definition opcHostMatch (text : string) : option string :=
  if startsWith "OPC.TCP://" (canonicalize text)
  then
    let host := hostRun (sliceFrom (String.length scheme) text) in
    if String.eqb host "" then None else Some host
  else None.

(** [extractHostFromEndpoint(endpoint)].  [URL_hostname] stands for
    the platform's [new URL(endpoint).hostname]: [None] when the
    constructor throws. *)
Definition extractHostFromEndpoint (URL_hostname : string -> option string)
           (endpoint : option string) : option string :=
  if negb (truthy endpoint) then None
  else
    match URL_hostname (orEmpty endpoint) with
    | Some hostname => Some hostname
    | None =>
        let text := trim (orEmpty endpoint) in
        match opcHostMatch text with
        | Some host => Some host
        | None =>
            match hostPortMatch text with
            | Some (host, _) => Some host
            | None => if String.eqb text "" then None else Some text
            end
        end
    end.

(** *** Reading of the pattern, used to state the properties *)

(** [s] reads [host:digits]: a non-empty host without line
    terminator, a colon, one digit or more. *)
Definition isHostDigits (s host digits : string) : Prop :=
  s = host +:+ ":" +:+ digits
  /\ host <> "" /\ all_chars (fun c => negb (is_line_terminator c)) host = true
  /\ digits <> "" /\ all_chars is_digit digits = true.

End Endpoint.

(** ** The messages of the worker to its parent: [send(type, payload)] *)

Module Ipc.
Import Netstat.

(** A number that is an integer or an infinity. *)
Inductive JsNumber :=
| NegInfinity
| Num (z : Z)
| PosInfinity.

(** [a <= b] on such numbers. *)
Definition num_le (a b : JsNumber) : Prop :=
  match a, b with
  | NegInfinity, _ => True
  | _, PosInfinity => True
  | Num x, Num y => (x <= y)%Z
  | _, _ => False
  end.

(** One observed connection, as pushed on [found]. *)
Record ConnectionAttempt := mkAttempt {
  timestamp : string;
  proto : option string;
  localAddress : string;
  localPort : string;
  remoteAddress : string;
  remotePort : string;
  state : string;
  pid : string
}.

(** One endpoint as [queryEndpoints] maps it. *)
Record EndpointDescription := mkEndpoint {
  endpointUrl : string;
  securityPolicyUri : string;
  securityMode : Z;
  userIdentityTokens : list Z
}.

(** [{ success: true, nodeMonitored }] or [{ success: false, error }] *)
Record SubscriptionResult := mkSubscription {
  success : bool;
  nodeMonitored : option string;
  error : option string
}.

Inductive Payload :=
| Endpoints (endpoints : list EndpointDescription)
| BeforeListeners (beforeListeners : list SocketRecord)
| Subscription (subscriptionResult : SubscriptionResult)
| AfterListeners (afterListeners : list SocketRecord)
| Connections (connections : list ConnectionAttempt).

(** [final] *)
Record Final := mkFinal {
  f_endpoints : list EndpointDescription;
  f_beforeListeners : list SocketRecord;
  f_subscriptionResult : SubscriptionResult;
  f_afterListeners : list SocketRecord;
  f_connections : list ConnectionAttempt
}.

(** The message types [progress], [result-partial], [result-final],
    [error] and [log]. *)
Inductive Message :=
| Progress (progress : JsNumber) (task : string)
| ResultPartial (payload : Payload)
| ResultFinal (payload : Final)
| ErrorEvent (error : string)
| Log (message : string).

End Ipc.

(** ** The connection watcher: [monitorConnectionAttempts] *)

Module Watcher.
Import JsString Netstat Ipc.

(** [remote.includes(serverIp)]; on [undefined] it raises. *)
Definition includesOf (remote : option string) (serverIp : string) : JsResult bool :=
  match remote with
  | None => Throw (TypeError "Cannot read properties of undefined (reading 'includes')")
  | Some r => Ok (includes r serverIp)
  end.

(** The body of the [for (const line of lines)] loop of the [exec]
    callback.  [now] is the clock read by [new Date().toISOString()]
    while the callback runs. *)
Definition attemptOfLine (serverIp : option string) (now : string)
           (found : list ConnectionAttempt) (line : string)
  : JsResult (list ConnectionAttempt) :=
  let parts := columns line in
  if (5 <=? length parts)%nat then
    let proto : option string := parts !! 0%nat in
    let local := parts !! 1%nat in
    let remote := parts !! 2%nat in
    let state := orEmpty (parts !! 3%nat) in
    let pid := orEmpty (parts !! 4%nat) in
    (matched <- (if truthy serverIp then includesOf remote (orEmpty serverIp)
                 else Ok false) ;;;
     if (matched : bool) then
       r <- parseAddressPort remote ;;;
       l <- parseAddressPort local ;;;
       Ok (found ++ [mkAttempt now proto (fst l) (snd l) (fst r) (snd r) state pid])
     else Ok found)%jsres
  else Ok found.

(** The callback of [exec('netstat -ano', ...)] in the watcher. *)
Definition onNetstat (serverIp : option string) (now : string) (r : ExecResult)
           (found : list ConnectionAttempt) : JsResult (list ConnectionAttempt) :=
  match exec_err r with
  | None =>
      if negb (String.eqb (exec_stdout r) "")
      then forEachLine (attemptOfLine serverIp now) (dataLines (exec_stdout r)) found
      else Ok found
  | Some _ => Ok found
  end.

(** *** Row-level reading of the callback, used to state its properties *)

(** The test a row has to pass to be pushed. *)
Definition matchedRow (serverIp : option string) (parts : list string) : bool :=
  (5 <=? length parts)%nat && truthy serverIp
  && includes (orEmpty (parts !! 2%nat)) (orEmpty serverIp).

(** The record pushed for a matched row. *)
Definition attemptOfRow (now : string) (parts : list string) : ConnectionAttempt :=
  let r := splitAtLastColon (orEmpty (parts !! 2%nat)) in
  let l := splitAtLastColon (orEmpty (parts !! 1%nat)) in
  mkAttempt now (parts !! 0%nat) (fst l) (snd l) (fst r) (snd r)
            (orEmpty (parts !! 3%nat)) (orEmpty (parts !! 4%nat)).

(** The records one callback pushes. *)
Definition attemptsOf (serverIp : option string) (now : string) (r : ExecResult)
  : list ConnectionAttempt :=
  match exec_err r with
  | None =>
      if negb (String.eqb (exec_stdout r) "")
      then map (attemptOfRow now)
               (List.filter (matchedRow serverIp) (rows (exec_stdout r)))
      else []
  | Some _ => []
  end.

(** The test of the specification: the remote address, that is the
    remote token up to its last colon, is the target. *)
Definition exactRow (serverIp : option string) (parts : list string) : bool :=
  (5 <=? length parts)%nat && truthy serverIp
  && String.eqb (fst (splitAtLastColon (orEmpty (parts !! 2%nat)))) (orEmpty serverIp).

(** [Math.ceil(durationMs / 2000)] on an integer number of
    milliseconds, for the durations up to 2^52 ms in absolute value.
    The quotient of an integer by 2000 is an integer or lies at least
    1/2000 away from one; in that range the doubles are at most 1/2048
    apart, so that the rounding of the division does not bridge the
    gap, and the ceiling is that of the exact quotient (lemma
    [pollsOf_is_the_rounded_ceiling]).  Beyond that range the
    quotient may be rounded to an integer and the ceiling may differ
    by one; the handler calls the watcher with 30000. *)
Definition pollsOf (durationMs : Z) : Z := (- ((- durationMs) / 2000))%Z.

(** [Math.round(x)]: the nearest integer, a tie going up. *)
Definition round (x : Q) : Z := Qfloor (x + (1 # 2)).

(** [`Monitoring incoming connections (${i}/${polls})`] *)
Definition taskOf (i polls : Z) : string :=
  "Monitoring incoming connections (" +:+ pretty i +:+ "/" +:+ pretty polls +:+ ")".

Section Rounding.

(** [fl x] is the double nearest to the real [x]: the quotient and
    the product below are each rounded once. *)
Variable fl : Q -> Q.

(** [75 + Math.round((i / polls) * 15)] for [1 <= i].  A division
    by zero gives an infinity, of the sign of the zero:
    [Math.ceil] returns [-0] for a duration in (-2000, 0). *)
Definition progressOf (durationMs i : Z) : JsNumber :=
  let polls := pollsOf durationMs in
  if (polls =? 0)%Z
  then (if (durationMs <? 0)%Z then NegInfinity else PosInfinity)
  else Num (75 + round (fl (fl (inject_Z i / inject_Z polls) * 15)))%Z.

(** The messages of the first [n] ticks. *)
Definition ticksSent (durationMs : Z) (n : nat) : list Message :=
  map (fun j => Progress (progressOf durationMs (Z.of_nat j))
                         (taskOf (Z.of_nat j) (pollsOf durationMs)))
      (seq 1 n).

(** The state of one call: the variables [i] and [found] of the
    closure, the interval [t], the [exec] calls issued and those
    whose callback has not run yet, the messages sent, and the
    promise.  The promise is fulfilled with the array [found]
    itself; the caller that awaits it resumes before any other
    callback runs, and [resolved] records what the array holds
    then, not what the caller reads in it later: that is [found].
    The counter [i] stays below 2^53 for the durations up to 2^52 ms,
    so that [i++] is exact. *)
Record State := mkState {
  i : Z;
  found : list ConnectionAttempt;
  timerActive : bool;
  execs : nat;
  pending : list nat;
  sent : list Message;
  resolved : option (list ConnectionAttempt)
}.

Definition initial : State := mkState 0 [] true 0 [] [] None.

(** What the event loop runs next: the interval callback, or the
    callback of the [k]-th [exec] with its outcome. *)
Inductive Event :=
| Tick
| ExecDone (k : nat) (now : string) (r : ExecResult).

(** The callback of [setInterval]. *)
Definition onTick (durationMs : Z) (st : State) : State :=
  let polls := pollsOf durationMs in
  let k := S (execs st) in
  let i' := (i st + 1)%Z in
  let msg := Progress (progressOf durationMs i') (taskOf i' polls) in
  if (i' >=? polls)%Z
  then mkState i' (found st) false k (pending st ++ [k])
               (sent st ++ [msg]) (Some (found st))
  else mkState i' (found st) (timerActive st) k (pending st ++ [k])
               (sent st ++ [msg]) (resolved st).

(** One turn of the event loop.  A cleared interval does not fire;
    a callback runs once, after its [exec] was issued.  An
    exception in a callback is uncaught. *)
Definition step (serverIp : option string) (durationMs : Z)
           (st : State) (e : Event) : JsResult State :=
  match e with
  | Tick => if timerActive st then Ok (onTick durationMs st) else Ok st
  | ExecDone k now r =>
      if decide (k ∈ pending st) then
        (found' <- onNetstat serverIp now r (found st) ;;;
         Ok (mkState (i st) found' (timerActive st) (execs st)
                     (List.filter (fun j => negb (j =? k)%nat) (pending st))
                     (sent st) (resolved st)))%jsres
      else Ok st
  end.

(** All the events of a schedule, in order. *)
Fixpoint runEvents (serverIp : option string) (durationMs : Z)
         (st : State) (sched : list Event) : JsResult State :=
  match sched with
  | [] => Ok st
  | e :: rest =>
      (st' <- step serverIp durationMs st e ;;;
       runEvents serverIp durationMs st' rest)%jsres
  end.

(** The events of a schedule up to the fulfilment of the promise. *)
Fixpoint drive (serverIp : option string) (durationMs : Z)
         (st : State) (sched : list Event) : JsResult State :=
  match sched with
  | [] => Ok st
  | e :: rest =>
      match resolved st with
      | Some _ => Ok st
      | None =>
          (st' <- step serverIp durationMs st e ;;;
           drive serverIp durationMs st' rest)%jsres
      end
  end.

(** [await monitorConnectionAttempts(serverIp, serverPort,
    durationMs)] under a schedule: the state in which the caller
    resumes.  The interval fires until it is cleared, so the ticks
    that the schedule lacks follow it. *)
Definition monitorConnectionAttempts (serverIp : option string)
           (serverPort : Endpoint.JsPort) (durationMs : Z)
           (sched : list Event) : JsResult State :=
  drive serverIp durationMs initial
        (sched ++ repeat Tick (Z.to_nat (Z.max 1 (pollsOf durationMs)))).

(** *** States of a call, used to state its properties *)

(** The number of ticks after which the promise is fulfilled. *)
Definition ticksNeeded (durationMs : Z) : Z := Z.max 1 (pollsOf durationMs).

(** A call whose promise is not fulfilled yet. *)
Definition Live (durationMs : Z) (st : State) : Prop :=
  resolved st = None /\ timerActive st = true
  /\ (0 <= i st < ticksNeeded durationMs)%Z
  /\ execs st = Z.to_nat (i st)
  /\ sent st = ticksSent durationMs (Z.to_nat (i st)).

(** A call whose promise has just been fulfilled, by the tick that
    issued the last [exec]. *)
Definition Settled (durationMs : Z) (st : State) : Prop :=
  resolved st = Some (found st) /\ timerActive st = false
  /\ i st = ticksNeeded durationMs
  /\ execs st = Z.to_nat (ticksNeeded durationMs)
  /\ execs st ∈ pending st
  /\ sent st = ticksSent durationMs (Z.to_nat (ticksNeeded durationMs)).

End Rounding.

(** *** Example inputs *)

(** A table with one connection from 10.0.0.5 and one from 10.0.0.50. *)
Definition twoRemotesTable : string :=
  netstatHeader
  +:+ "  TCP    192.168.1.20:50001    10.0.0.5:4840     ESTABLISHED    4242" +:+ LF
  +:+ "  TCP    192.168.1.20:50002    10.0.0.50:4840    ESTABLISHED    4242" +:+ LF.

(** A table with one connection from 10.0.0.5. *)
Definition oneRemoteTable : string :=
  netstatHeader
  +:+ "  TCP    192.168.1.20:50001    10.0.0.5:4840     ESTABLISHED    4242" +:+ LF.

(** Three polls, each answered before the next tick, the third one
    after the last tick. *)
Definition threePolls : list Event :=
  [Tick; ExecDone 1 "T1" (mkExec None oneRemoteTable);
   Tick; ExecDone 2 "T2" (mkExec None oneRemoteTable);
   Tick; ExecDone 3 "T3" (mkExec None oneRemoteTable)].

End Watcher.

(** ** The probe: the handler of the [start] message *)

Module Probe.
Import JsString Netstat Ipc Endpoint.

(** [msg.config] *)
Record Config := mkConfig {
  server : option string;
  port : JsPort;
  nodeId : option string;
  publishingInterval : Z
}.

(** The five collaborators the handler awaits, by stage. *)
Inductive Stage :=
| QueryEndpoints
| BaselineCapture
| Subscribe
| PostCapture
| Monitor.

(** What [logError] pushes on [errors] and [logWarning] on
    [warnings]; the time stamps are left out. *)
Record ErrorRecord := mkErrorRecord {
  e_context : string;
  e_message : string;
  e_name : string;
  e_fullError : string
}.

Record WarningRecord := mkWarning {
  w_context : string;
  w_message : string
}.

(** One step of the log file: a line, written by one call of
    [appendLog], or the lines of one formatted block, written by one
    call of a formatter.  The text of a block is not modelled here
    (its tables are those of [LogFormat]), nor are the time stamps
    that open every line. *)
Inductive LogStep :=
| Line (text : string)
| Block (title : string).

(** What a run has produced so far: the messages handed to [send],
    the arrays [errors] and [warnings], the collaborators invoked and
    the steps written to the log file. *)
Record Run := mkRun {
  messages : list Message;
  errors : list ErrorRecord;
  warnings : list WarningRecord;
  calls : list Stage;
  logFile : list LogStep
}.

(** What [fs.appendFileSync] answers, given what the file holds and
    what is to be written: [None] when the write succeeds, the
    exception otherwise.  A block fails as soon as one of its lines
    does. *)
Definition Disk : Type := list LogStep -> LogStep -> option JsError.

(** A log file that takes every write. *)
Definition reliable : Disk := fun _ _ => None.

(** How a piece of the handler ends: with a value, with an exception
    that a [catch] can take, with an exception thrown from a callback
    outside the handler (which ends the process), or never, waiting
    for a promise that does not settle. *)
Inductive Completion (A : Type) : Type :=
| Normal (a : A)
| Abrupt (e : JsError)
| Uncaught (e : JsError)
| Waiting.
Arguments Normal {A} a.
Arguments Abrupt {A} e.
Arguments Uncaught {A} e.
Arguments Waiting {A}.

Definition M (A : Type) : Type := Run -> Completion A * Run.

Definition ret {A} (a : A) : M A := fun r => (Normal a, r).

Definition bind {A B} (c : M A) (k : A -> M B) : M B :=
  fun r =>
    match c r with
    | (Normal a, r') => k a r'
    | (Abrupt e, r') => (Abrupt e, r')
    | (Uncaught e, r') => (Uncaught e, r')
    | (Waiting, r') => (Waiting, r')
    end.

Definition throw {A} (e : JsError) : M A := fun r => (Abrupt e, r).

(** [try { body } catch (err) { handler(err) }] *)
Definition tryCatch {A} (body : M A) (handler : JsError -> M A) : M A :=
  fun r =>
    match body r with
    | (Abrupt e, r') => handler e r'
    | other => other
    end.

(** The value or the exception of a call that has no other effect. *)
Definition lift {A} (x : JsResult A) : M A :=
  match x with
  | Ok a => ret a
  | Throw e => throw e
  end.

Declare Scope probe_scope.
Delimit Scope probe_scope with probe.
Notation "x <- c ;; k" := (bind c (fun x => k))
  (at level 100, c at next level, right associativity) : probe_scope.
Notation "c ;; k" := (bind c (fun _ => k))
  (at level 100, right associativity) : probe_scope.
Local Open Scope probe_scope.

(** [send(type, payload)]; an exception of [process.send] is
    swallowed. *)
Definition send (m : Message) : M unit :=
  fun r =>
    (Normal tt,
     mkRun (messages r ++ [m]) (errors r) (warnings r) (calls r) (logFile r)).

(** [errorObj] of [logError]: [message: error?.message ||
    String(error)], [name: error?.name || 'Error'], [fullError:
    String(error)]. *)
Definition errorObj (error : JsError) (context : string) : ErrorRecord :=
  let message :=
    if String.eqb (err_message error) "" then String_of_error error
    else err_message error in
  let name := if String.eqb (err_name error) "" then "Error" else err_name error in
  mkErrorRecord context message name (String_of_error error).

(** [errors.push(errorObj)] *)
Definition pushError (e : ErrorRecord) : M unit :=
  fun r =>
    (Normal tt,
     mkRun (messages r) (errors r ++ [e]) (warnings r) (calls r) (logFile r)).

(** [warnings.push(warningObj)] *)
Definition pushWarning (w : WarningRecord) : M unit :=
  fun r =>
    (Normal tt,
     mkRun (messages r) (errors r) (warnings r ++ [w]) (calls r) (logFile r)).

(** Entering a collaborator. *)
Definition invoke (stage : Stage) : M unit :=
  fun r =>
    (Normal tt,
     mkRun (messages r) (errors r) (warnings r) (calls r ++ [stage]) (logFile r)).

Fixpoint sendAll (ms : list Message) : M unit :=
  match ms with
  | [] => ret tt
  | m :: rest => send m ;; sendAll rest
  end.

(** What the world answers during one run: the outcome of the
    connection and of [getEndpoints], of the two [netstat] calls, of
    the subscription (the error of the first call that fails, if
    any), the [URL] parser of the platform, and the order in which
    the event loop runs the callbacks of the watcher. *)
Record World := mkWorld {
  discovery : JsResult (list EndpointDescription);
  netstatBefore : ExecResult;
  subscription : option JsError;
  netstatAfter : ExecResult;
  URL_hostname : string -> option string;
  schedule : list Watcher.Event
}.

Definition defaultNodeId : string := "ns=0;i=2258".

Section Handler.

Variable disk : Disk.
Variable fl : Q -> Q.
Variable config : Config.
Variable world : World.

(** [fs.appendFileSync(logfile, ...)], which nothing guards: its
    exception is that of the caller. *)
Definition write (step : LogStep) : M unit :=
  fun r =>
    match disk (logFile r) step with
    | Some e => (Abrupt e, r)
    | None =>
        (Normal tt,
         mkRun (messages r) (errors r) (warnings r) (calls r) (logFile r ++ [step]))
    end.

(** [appendLog(text)]: a headline goes to the parent as a [log]
    message, then to the file. *)
Definition appendLog (text : string) : M unit :=
  send (Log text) ;; write (Line text).

(** [appendLog(text, true)]: a detailed line goes to the file only. *)
Definition appendDetail (text : string) : M unit := write (Line text).

(** The calls of [appendLog(..., true)] of one formatter, or of one
    block of the handler. *)
Definition block (title : string) : M unit := write (Block title).

(** [logError(error, context)]: the record is pushed before the block
    is written. *)
Definition logError (error : JsError) (context : string) : M unit :=
  pushError (errorObj error context) ;;
  block "ERROR DETECTED".

(** [logWarning(warning, context)] *)
Definition logWarning (warning context : string) : M unit :=
  pushWarning (mkWarning context warning) ;;
  appendDetail ("[WARNING] " +:+ context +:+ ": " +:+ warning).

(** [writeErrorSummary()]: nothing is written when both arrays are
    empty. *)
Definition writeErrorSummary : M unit :=
  fun r =>
    match errors r, warnings r with
    | [], [] => (Normal tt, r)
    | _, _ => block "ERROR AND WARNING SUMMARY" r
    end.

(** [queryEndpoints(serverUrl, port)]; the [catch] of the function
    disconnects and throws again. *)
Definition queryEndpoints (serverUrl : option string) (port : JsPort)
  : M (list EndpointDescription) :=
  invoke QueryEndpoints ;;
  endpointUrl <- lift (normalizeEndpoint serverUrl port) ;;
  lift (discovery world).

(** [getListeningPorts()], at the stage that calls it. *)
Definition getListeningPortsAt (stage : Stage) (r : ExecResult)
  : M (list SocketRecord) :=
  invoke stage ;;
  lift (getListeningPorts r).

(** [createSubscriptionAndMonitor(cfg)]: [normalizeEndpoint] is
    outside the [try] of the function; every later failure becomes
    a result with [success: false]. *)
Definition createSubscriptionAndMonitor (cfg : Config) : M SubscriptionResult :=
  invoke Subscribe ;;
  endpointUrl <- lift (normalizeEndpoint (server cfg) (port cfg)) ;;
  match subscription world with
  | None =>
      let itemToMonitor :=
        if truthy (nodeId cfg) then orEmpty (nodeId cfg) else defaultNodeId in
      ret (mkSubscription true (Some itemToMonitor) None)
  | Some err => ret (mkSubscription false None (Some (String_of_error err)))
  end.

(** [await monitorConnectionAttempts(serverIp, serverPort,
    durationMs)]: the messages of the ticks are sent while the
    handler waits. *)
Definition awaitMonitor (serverIp : option string) (serverPort : JsPort)
           (durationMs : Z) : M (list ConnectionAttempt) :=
  invoke Monitor ;;
  match Watcher.monitorConnectionAttempts fl serverIp serverPort durationMs
                                          (schedule world) with
  | Throw e => fun r => (Uncaught e, r)
  | Ok st =>
      sendAll (Watcher.sent st) ;;
      match Watcher.resolved st with
      | Some connections => ret connections
      | None => fun r => (Waiting, r)
      end
  end.

Definition stepQueryEndpoints : M (list EndpointDescription) :=
  send (Progress (Num 10) "Querying endpoints") ;;
  appendLog "Querying endpoints" ;;
  endpointUrl <- lift (normalizeEndpoint (server config) (port config)) ;;
  appendLog ("Connecting to endpoint: " +:+ endpointUrl) ;;
  endpoints <-
    tryCatch
      (endpoints <- queryEndpoints (server config) (port config) ;;
       appendLog ("Successfully retrieved " +:+ pretty (length endpoints)
                  +:+ " endpoint(s)") ;;
       (if (0 <? length endpoints)%nat then ret tt
        else logWarning "No endpoints returned from server" "Endpoint Query") ;;
       (* [formatEndpointResults] *)
       block "Endpoint Query Results" ;;
       ret endpoints)
      (fun err => logError err "Endpoint Query" ;; throw err) ;;
  send (ResultPartial (Endpoints endpoints)) ;;
  ret endpoints.

Definition stepBaseline : M (list SocketRecord) :=
  send (Progress (Num 25) "Recording listening ports (before)") ;;
  appendLog "Capturing baseline listening ports" ;;
  beforeListeners <-
    tryCatch
      (beforeListeners <- getListeningPortsAt BaselineCapture (netstatBefore world) ;;
       appendLog ("Captured " +:+ pretty (length beforeListeners)
                  +:+ " listening socket(s) before subscription") ;;
       (* [formatListeningPorts] and [closeSection] *)
       block "Baseline Listening Ports" ;;
       block "End Baseline Listening Ports" ;;
       ret beforeListeners)
      (fun err =>
         logError err "Baseline Port Capture" ;;
         logWarning "Failed to capture baseline ports, continuing with empty array"
                    "Baseline Port Capture" ;;
         ret []) ;;
  send (ResultPartial (BeforeListeners beforeListeners)) ;;
  ret beforeListeners.

Definition stepSubscribe : M SubscriptionResult :=
  send (Progress (Num 45) "Creating subscription and monitored item") ;;
  appendLog "Creating subscription and monitored item" ;;
  appendLog ("Target node: " +:+
             (if truthy (nodeId config) then orEmpty (nodeId config)
              else defaultNodeId)) ;;
  appendLog ("Publishing interval: " +:+
             pretty (if (publishingInterval config =? 0)%Z then 250%Z
                     else publishingInterval config) +:+ "ms") ;;
  subscriptionResult <-
    tryCatch
      (subscriptionResult <- createSubscriptionAndMonitor config ;;
       (if success subscriptionResult
        then appendLog ("Subscription created successfully, monitored node: "
                        +:+ orEmpty (nodeMonitored subscriptionResult))
        else logError (Error (if truthy (error subscriptionResult)
                              then orEmpty (error subscriptionResult)
                              else "Subscription failed"))
                      "Subscription Creation") ;;
       (* [formatSubscriptionResult] *)
       block "Subscription Result" ;;
       ret subscriptionResult)
      (fun err =>
         logError err "Subscription Creation" ;;
         block "Subscription Result" ;;
         ret (mkSubscription false None (Some (String_of_error err)))) ;;
  send (ResultPartial (Subscription subscriptionResult)) ;;
  ret subscriptionResult.

Definition stepPostCapture (beforeListeners : list SocketRecord)
  : M (list SocketRecord) :=
  send (Progress (Num 65) "Recording listening ports (after)") ;;
  appendLog "Capturing listening ports after subscription" ;;
  afterListeners <-
    tryCatch
      (afterListeners <- getListeningPortsAt PostCapture (netstatAfter world) ;;
       appendLog ("Captured " +:+ pretty (length afterListeners)
                  +:+ " listening socket(s) after subscription") ;;
       (* [portSummary.comparison], for the log file *)
     let comparison := PortDiff.comparison beforeListeners afterListeners in
       (* [formatListeningPorts], [formatPortComparison] and
          [closeSection] *)
       block "Post-Subscription Listening Ports" ;;
       block "Port Comparison (Before vs After Subscription)" ;;
       block "End Post-Subscription Listening Ports" ;;
       ret afterListeners)
      (fun err =>
         logError err "Post-Subscription Port Capture" ;;
         logWarning
           "Failed to capture post-subscription ports, continuing with empty array"
           "Post-Subscription Port Capture" ;;
         ret []) ;;
  send (ResultPartial (AfterListeners afterListeners)) ;;
  ret afterListeners.

Definition stepMonitor : M (list ConnectionAttempt) :=
  send (Progress (Num 75) "Monitoring incoming connection attempts (30s)") ;;
  appendLog "Monitoring incoming connections from server" ;;
  let extracted := extractHostFromEndpoint (URL_hostname world) (server config) in
  let serverIp := if truthy extracted then extracted else None in
  let serverPort := port config in
  appendLog ("Monitoring for connections from server IP: " +:+
             (if truthy serverIp then orEmpty serverIp else "Unknown")
             +:+ " (port: " +:+ port_text serverPort +:+ ")") ;;
  appendLog "Monitoring duration: 30 seconds" ;;
  connections <-
    tryCatch
      (connections <- awaitMonitor serverIp serverPort (30 * 1000) ;;
       appendLog ("Monitoring complete: " +:+ pretty (length connections)
                  +:+ " connection attempt(s) detected") ;;
       (* [formatConnectionResults] *)
       block "Incoming Connection Monitoring Results" ;;
       ret connections)
      (fun err =>
         logError err "Connection Monitoring" ;;
         logWarning "Failed to monitor connections, continuing with empty array"
                    "Connection Monitoring" ;;
         ret []) ;;
  send (ResultPartial (Connections connections)) ;;
  ret connections.

(** The handler from [appendLog('Probe started')] on; its value is
    the argument of [process.exit].  The first two steps are outside
    the [try]: their exception, like one raised in the last [catch],
    leaves the handler without a call of [process.exit]. *)
Definition onStart : M Z :=
  appendLog "Probe started" ;;
  (* [formatProbeConfig] *)
  block "Probe Configuration" ;;
  tryCatch
    (endpoints <- stepQueryEndpoints ;;
     beforeListeners <- stepBaseline ;;
     subscriptionResult <- stepSubscribe ;;
     afterListeners <- stepPostCapture beforeListeners ;;
     connections <- stepMonitor ;;
     let final := mkFinal endpoints beforeListeners subscriptionResult
                          afterListeners connections in
     block "PROBE COMPLETION SUMMARY" ;;
     writeErrorSummary ;;
     send (ResultFinal final) ;;
     appendLog "Probe finished successfully" ;;
     ret 0%Z)
    (fun err =>
       logError err "Probe Execution" ;;
       block "PROBE FAILED" ;;
       writeErrorSummary ;;
       send (ErrorEvent (String_of_error err)) ;;
       ret 1%Z).

(** One run of the worker on a given log file. *)
Definition runProbeOn : Completion Z * Run := onStart (mkRun [] [] [] [] []).

End Handler.

(** One run of the worker on a log file that takes every write. *)
Definition runProbe (fl : Q -> Q) (config : Config) (world : World)
  : Completion Z * Run :=
  runProbeOn reliable fl config world.

(** *** Readings of a run, used to state the properties *)

(** [disk] takes every write. *)
Definition accepts (disk : Disk) : Prop := forall h s, disk h s = None.

(** [r'] is [r] after more messages, errors, warnings and calls. *)
Definition extends (r r' : Run) (ms : list Message) (es : list ErrorRecord)
           (ws : list WarningRecord) (cs : list Stage) : Prop :=
  messages r' = messages r ++ ms /\ errors r' = errors r ++ es
  /\ warnings r' = warnings r ++ ws /\ calls r' = calls r ++ cs.

Definition progressValues (ms : list Message) : list JsNumber :=
  omap (fun m => match m with Progress p _ => Some p | _ => None end) ms.

Definition finals (ms : list Message) : list Final :=
  omap (fun m => match m with ResultFinal f => Some f | _ => None end) ms.

Definition errorEvents (ms : list Message) : list string :=
  omap (fun m => match m with ErrorEvent e => Some e | _ => None end) ms.

Definition partials (ms : list Message) : list Payload :=
  omap (fun m => match m with ResultPartial p => Some p | _ => None end) ms.

(** *** Example inputs *)

Definition refused : JsError := Error "connect ECONNREFUSED 10.0.0.5:4840".

Definition plainConfig : Config :=
  mkConfig (Some "10.0.0.5") (PortNumber 4840) (Some "ns=0;i=2258") 250.

(** A world in which the server refuses the connection. *)
Definition unreachableWorld : World :=
  mkWorld (Throw refused) (mkExec None netstatHeader) None
          (mkExec None netstatHeader) (fun _ => None) [].

(** A world in which every collaborator succeeds and nothing calls
    back. *)
Definition quietWorld : World :=
  mkWorld (Ok [mkEndpoint "opc.tcp://10.0.0.5:4840"
                          "http://opcfoundation.org/UA/SecurityPolicy#None" 1 [0%Z]])
          (mkExec None netstatHeader) None
          (mkExec None netstatHeader) (fun _ => None) [].

(** The exception of [fs.appendFileSync] when the volume is full. *)
Definition noSpace : JsError := Error "ENOSPC: no space left on device, write".

(** A log file that takes every write but the last line of a
    successful run. *)
Definition fullAtLast : Disk :=
  fun _ step =>
    match step with
    | Line text =>
        if String.eqb text "Probe finished successfully" then Some noSpace else None
    | Block _ => None
    end.

(** A log file that does not take the first line. *)
Definition fullAtFirst : Disk :=
  fun _ step =>
    match step with
    | Line text => if String.eqb text "Probe started" then Some noSpace else None
    | Block _ => None
    end.

(** A log file that takes every write but the line that closes the
    monitoring stage of [plainConfig] in [quietWorld]. *)
Definition fullAfterMonitoring : Disk :=
  fun _ step =>
    match step with
    | Line text =>
        if String.eqb text "Monitoring complete: 0 connection attempt(s) detected"
        then Some noSpace else None
    | Block _ => None
    end.

End Probe.

(** ** Further readings of the watcher *)

Module WatcherReadings.
Import JsString Netstat Ipc Watcher.

(** An event that cannot add a record: a tick, or the callback of a
    poll that failed or printed nothing ([!err && stdout] is false). *)
Definition barren (e : Event) : bool :=
  match e with
  | Tick => true
  | ExecDone _ _ r =>
      match exec_err r with
      | Some _ => true
      | None => String.eqb (exec_stdout r) ""
      end
  end.

(** Two polls that fail, answered between the ticks. *)
Definition failingPolls : list Event :=
  [Tick; ExecDone 1 "T1" (mkExec (Some (Error "spawn netstat ENOENT")) "");
   Tick; ExecDone 2 "T2" (mkExec None "")].

End WatcherReadings.


(** ** Readings of a completed run *)

Module ProbeReadings.
Import JsString Netstat Ipc Endpoint Probe.

(** What a capture stage hands on: the parsed listeners, or the empty
    array of its [catch]. *)
Definition captured (r : ExecResult) : list SocketRecord :=
  match getListeningPorts r with
  | Ok listeners => listeners
  | Throw _ => []
  end.

(** What the [catch] of a capture stage records. *)
Definition captureErrors (context : string) (r : ExecResult) : list ErrorRecord :=
  match getListeningPorts r with
  | Ok _ => []
  | Throw e => [errorObj e context]
  end.

Definition captureWarnings (context text : string) (r : ExecResult)
  : list WarningRecord :=
  match getListeningPorts r with
  | Ok _ => []
  | Throw _ => [mkWarning context text]
  end.

(** The value of [createSubscriptionAndMonitor(config)] once the
    endpoint is normalised. *)
Definition subscriptionOutcome (config : Config) (world : World)
  : SubscriptionResult :=
  match subscription world with
  | None =>
      mkSubscription true
        (Some (if truthy (nodeId config) then orEmpty (nodeId config)
               else defaultNodeId))
        None
  | Some err => mkSubscription false None (Some (String_of_error err))
  end.

(** [new Error(subscriptionResult.error || 'Subscription failed')],
    recorded when the outcome has [success: false]. *)
Definition subscriptionErrors (world : World) : list ErrorRecord :=
  match subscription world with
  | None => []
  | Some err =>
      [errorObj (Error (if String.eqb (String_of_error err) ""
                        then "Subscription failed" else String_of_error err))
                "Subscription Creation"]
  end.

Definition endpointWarnings (endpoints : list EndpointDescription)
  : list WarningRecord :=
  if (0 <? length endpoints)%nat then []
  else [mkWarning "Endpoint Query" "No endpoints returned from server"].

(** [extractHostFromEndpoint(config.server) || null] *)
Definition targetOf (config : Config) (world : World) : option string :=
  let extracted := extractHostFromEndpoint (URL_hostname world) (server config) in
  if truthy extracted then extracted else None.

Definition timedOut : JsError := Error "spawn netstat ETIMEDOUT".

(** A world in which the server answers, both [netstat] calls fail
    and the subscription is refused. *)
Definition degradedWorld : World :=
  mkWorld (Ok []) (mkExec (Some timedOut) "") (Some refused)
          (mkExec (Some timedOut) "") (fun _ => None) [].

(** A configuration without a server. *)
Definition blankConfig : Config := mkConfig None (PortNumber 4840) None 0.

End ProbeReadings.

(** ** The calls on the OPC UA client: [queryEndpoints] and
    [createSubscriptionAndMonitor] in detail *)

Module OpcUa.
Import JsString Ipc Endpoint Probe.

(** The awaited calls on the client, its session and its
    subscription. *)
Inductive ClientCall :=
| Connect (endpointUrl : string)
| GetEndpoints
| CreateSession
| CreateSubscription2 (requestedPublishingInterval : Z)
| MonitorItem (nodeId : string) (samplingInterval : Z)
| Terminate
| CloseSession
| Disconnect.

(** An element of [userIdentityTokens] as the library delivers it. *)
Record UserTokenPolicy := mkTokenPolicy { policyId : string; tokenType : Z }.

(** An endpoint as [client.getEndpoints()] delivers it, with its
    array of token policies. *)
Record RawEndpoint := mkRaw {
  raw_endpointUrl : string;
  raw_securityPolicyUri : string;
  raw_securityMode : Z;
  raw_userIdentityTokens : list UserTokenPolicy
}.

(** What one client answers: [None] when a call succeeds, its error
    otherwise; [disconnect] is asked once per attempt. *)
Record Answers := mkAnswers {
  connect : option JsError;
  getEndpoints : JsResult (list RawEndpoint);
  createSession : option JsError;
  createSubscription2 : option JsError;
  monitor : option JsError;
  terminate : option JsError;
  close : option JsError;
  disconnect : nat -> option JsError
}.

(** The calls made so far and the variables [session] and
    [subscription] of [createSubscriptionAndMonitor]: [true] once
    assigned. *)
Record Vars := mkVars {
  trace : list ClientCall;
  session : bool;
  subscription : bool
}.

Definition start : Vars := mkVars [] false false.

Definition Async (A : Type) : Type := Vars -> JsResult A * Vars.

Definition done {A} (a : A) : Async A := fun v => (Ok a, v).

Definition fail {A} (e : JsError) : Async A := fun v => (Throw e, v).

Definition andThen {A B} (c : Async A) (k : A -> Async B) : Async B :=
  fun v =>
    match c v with
    | (Ok a, v') => k a v'
    | (Throw e, v') => (Throw e, v')
    end.

(** [try { body } catch (err) { handler(err) }] *)
Definition catching {A} (body : Async A) (handler : JsError -> Async A) : Async A :=
  fun v =>
    match body v with
    | (Throw e, v') => handler e v'
    | other => other
    end.

(** [try { body } catch (e) {}] *)
Definition quietly (body : Async unit) : Async unit :=
  catching body (fun _ => done tt).

Definition fromResult {A} (x : JsResult A) : Async A :=
  match x with
  | Ok a => done a
  | Throw e => fail e
  end.

Declare Scope client_scope.
Delimit Scope client_scope with client.
Notation "x <- c ;; k" := (andThen c (fun x => k))
  (at level 100, c at next level, right associativity) : client_scope.
Notation "c ;; k" := (andThen c (fun _ => k))
  (at level 100, right associativity) : client_scope.
Local Open Scope client_scope.

(** [await] of a call that delivers a value. *)
Definition awaitValue {A} (c : ClientCall) (answer : JsResult A) : Async A :=
  fun v => (answer, mkVars (trace v ++ [c]) (session v) (subscription v)).

(** [await] of a call that delivers nothing of use. *)
Definition await (c : ClientCall) (answer : option JsError) : Async unit :=
  awaitValue c (match answer with None => Ok tt | Some e => Throw e end).

Definition isDisconnect (c : ClientCall) : bool :=
  match c with
  | Disconnect => true
  | _ => false
  end.

(** [await client.disconnect()] *)
Definition disconnectClient (a : Answers) : Async unit :=
  fun v => await Disconnect (disconnect a (length (List.filter isDisconnect (trace v)))) v.

Definition assignSession : Async unit :=
  fun v => (Ok tt, mkVars (trace v) true (subscription v)).

Definition assignSubscription : Async unit :=
  fun v => (Ok tt, mkVars (trace v) (session v) true).

(** [if (x) await ...] *)
Definition whenAssigned (x : Vars -> bool) (c : Async unit) : Async unit :=
  fun v => if x v then c v else (Ok tt, v).

(** The mapping of [queryEndpoints] over the endpoints. *)
Definition mapEndpoint (e : RawEndpoint) : EndpointDescription :=
  mkEndpoint (raw_endpointUrl e) (raw_securityPolicyUri e) (raw_securityMode e)
             (map tokenType (raw_userIdentityTokens e)).

(** [queryEndpoints(serverUrl, port)] *)
Definition queryEndpoints (a : Answers) (serverUrl : option string) (port : JsPort)
  : Async (list EndpointDescription) :=
  endpointUrl <- fromResult (normalizeEndpoint serverUrl port) ;;
  catching
    (await (Connect endpointUrl) (connect a) ;;
     endpoints <- awaitValue GetEndpoints (getEndpoints a) ;;
     disconnectClient a ;;
     done (map mapEndpoint endpoints))
    (fun err =>
       quietly (disconnectClient a) ;;
       fail err).

(** [createSubscriptionAndMonitor(cfg)]; the wait of 1500 ms takes
    time only. *)
Definition createSubscriptionAndMonitor (a : Answers) (cfg : Config)
  : Async SubscriptionResult :=
  endpointUrl <- fromResult (normalizeEndpoint (server cfg) (Probe.port cfg)) ;;
  let interval :=
    if (publishingInterval cfg =? 0)%Z then 250%Z else publishingInterval cfg in
  catching
    (await (Connect endpointUrl) (connect a) ;;
     await CreateSession (createSession a) ;;
     assignSession ;;
     await (CreateSubscription2 interval) (createSubscription2 a) ;;
     assignSubscription ;;
     let itemToMonitor :=
       if truthy (Probe.nodeId cfg) then orEmpty (Probe.nodeId cfg)
       else defaultNodeId in
     await (MonitorItem itemToMonitor interval) (monitor a) ;;
     quietly (await Terminate (terminate a)) ;;
     quietly (await CloseSession (close a)) ;;
     quietly (disconnectClient a) ;;
     done (mkSubscription true (Some itemToMonitor) None))
    (fun err =>
       quietly (whenAssigned subscription (await Terminate (terminate a))) ;;
       quietly (whenAssigned session (await CloseSession (close a))) ;;
       quietly (disconnectClient a) ;;
       done (mkSubscription false None (Some (String_of_error err)))).

(** *** Readings, used to state the properties *)

(** The error of the first of [connect], [createSession],
    [createSubscription2] and [monitor] that fails. *)
Definition firstFailure (a : Answers) : option JsError :=
  match connect a with
  | Some e => Some e
  | None =>
      match createSession a with
      | Some e => Some e
      | None =>
          match createSubscription2 a with
          | Some e => Some e
          | None => monitor a
          end
      end
  end.


(** *** Example answers *)


(** The endpoints arrive, then [disconnect] fails each time. *)
Definition stuckSocket : Answers :=
  mkAnswers None
            (Ok [mkRaw "opc.tcp://plc:4840"
                       "http://opcfoundation.org/UA/SecurityPolicy#None" 1
                       [mkTokenPolicy "anonymous" 0]])
            None None None None None
            (fun _ => Some (Error "socket already closed")).

End OpcUa.

(** ** The formatted sections of the log file *)

Module LogFormat.
Import JsString Ipc.

(** [{ label, width }] *)
Record Header := mkHeader { label : string; width : nat }.

(** [c.repeat(n)] *)
Fixpoint repeatStr (c : string) (n : nat) : string :=
  match n with
  | O => EmptyString
  | S n' => c +:+ repeatStr c n'
  end.

(** [s.padEnd(n)]: spaces are added up to the length [n]; a longer
    string is left as it is. *)
Definition padEnd (n : nat) (s : string) : string :=
  s +:+ repeatStr " " (n - String.length s).

(** [s.slice(0, k)]: a negative [k] counts from the end. *)
Definition sliceTo (k : Z) (s : string) : string :=
  if (0 <=? k)%Z then substringTo (Z.to_nat k) s
  else substringTo (String.length s - Z.to_nat (- k)) s.

(** [parts.join(sep)] *)
Fixpoint join (sep : string) (parts : list string) : string :=
  match parts with
  | [] => EmptyString
  | [p] => p
  | p :: rest => p +:+ sep +:+ join sep rest
  end.

(** One cell of [formatTable]: [val.length > h.width ? val.slice(0,
    h.width - 2) + '..' : val.padEnd(h.width)]. *)
Definition cell (h : Header) (val : string) : string :=
  if (width h <? String.length val)%nat
  then sliceTo (Z.of_nat (width h) - 2) val +:+ ".."
  else padEnd (width h) val.

(** [formatTable(headers, rows, indent)]; [row[i] ?? ''] is the [i]-th
    cell of the row, or the empty string past its end. *)
Definition formatTable (headers : list Header) (rows : list (list string))
           (indent : string) : list string :=
  let headerLine := join "  " (map (fun h => padEnd (width h) (label h)) headers) in
  let separatorLine := join "  " (map (fun h => repeatStr "-" (width h)) headers) in
  [indent +:+ headerLine; indent +:+ separatorLine]
  ++ map (fun row =>
            indent +:+ join "  " (imap (fun i h => cell h (nth i row "")) headers))
         rows.

(** A value that is a string or a number, as [securityMode] and the
    token types may be. *)
Inductive Enum :=
| Text (s : string)
| Number (n : Z).

(** [securityModeToString(mode)] *)
Definition securityModeToString (mode : Enum) : string :=
  match mode with
  | Text s => s
  | Number 0 => "Invalid"
  | Number 1 => "None"
  | Number 2 => "Sign"
  | Number 3 => "SignAndEncrypt"
  | Number n => pretty n
  end.

(** [tokenTypeToString(type)] *)
Definition tokenTypeToString (type : Enum) : string :=
  match type with
  | Text s => s
  | Number 0 => "Anonymous"
  | Number 1 => "UserName"
  | Number 2 => "Certificate"
  | Number 3 => "IssuedToken"
  | Number n => pretty n
  end.

(** [shortenPolicyUri(uri)] *)
Definition shortenPolicyUri (uri : option string) : string :=
  if negb (truthy uri) then "Unknown"
  else
    match lastIndexOf "#" (orEmpty uri) with
    | Some idx => sliceFrom (idx + 1) (orEmpty uri)
    | None => orEmpty uri
    end.

(** The value of a property of an object used as a table of counts: a
    count, or the string that [o[k] = (o[k] || 0) + 1] leaves under a
    key that the object inherits as a method, which is the text of
    that function followed by one [1] for each time the key was
    counted.  The text is not modelled. *)
Inductive Cell :=
| Count (n : nat)
| Junk.

(** The methods that a plain object inherits from
    [Object.prototype]. *)
Definition inheritedMethods : list string :=
  ["constructor"; "__defineGetter__"; "__defineSetter__"; "hasOwnProperty";
   "__lookupGetter__"; "__lookupSetter__"; "isPrototypeOf";
   "propertyIsEnumerable"; "toString"; "valueOf"; "toLocaleString"].

Definition inherited (k : string) : bool :=
  existsb (String.eqb k) inheritedMethods.

(** [v + 1] for an own value [v]: a count is incremented, a string is
    extended and stays a string. *)
Definition increment (v : Cell) : Cell :=
  match v with
  | Count n => Count (S n)
  | Junk => Junk
  end.

(** [o[k] = (o[k] || 0) + 1] on a plain object [o], given by its own
    properties in the order of their creation.  An own value is
    incremented.  A key that is not an own one is created with the
    count 1, unless [o[k]] reads something from [Object.prototype]: an
    inherited method, whose sum with 1 is a string, or, under the key
    [__proto__], the prototype itself, and then the assignment goes
    to the setter of [__proto__], which ignores a value that is not
    an object, so that no property is created. *)
Fixpoint bump (o : list (string * Cell)) (k : string) : list (string * Cell) :=
  match o with
  | [] =>
      if String.eqb k "__proto__" then []
      else [(k, if inherited k then Junk else Count 1)]
  | (k', v) :: rest =>
      if String.eqb k' k then (k', increment v) :: rest else (k', v) :: bump rest k
  end.

(** The integer written by a run of decimal digits. *)
Fixpoint decimalValue (acc : N) (s : string) : N :=
  match s with
  | EmptyString => acc
  | String c s' => decimalValue (10 * acc + (N_of_ascii c - 48)) s'
  end.

(** [k] as an array index: the integer from 0 to 2^32 - 2 of which
    [k] is the decimal writing, without a sign and without a leading
    zero. *)
Definition arrayIndex (k : string) : option N :=
  match k with
  | EmptyString => None
  | String c rest =>
      if all_chars is_digit k && (negb (Ascii.eqb c "0") || String.eqb rest "")
         && (decimalValue 0 k <=? 4294967294)%N
      then Some (decimalValue 0 k) else None
  end.

(** The order of the keys that are array indices. *)
Definition indexLeb (a b : string * Cell) : bool :=
  match arrayIndex (fst a), arrayIndex (fst b) with
  | Some m, Some n => (m <=? n)%N
  | _, _ => true
  end.

(** [Object.entries(o)]: the properties whose key is an array index
    come first, in ascending order, then the others in the order of
    their creation. *)
Definition entriesOf (o : list (string * Cell)) : list (string * Cell) :=
  @merge_sort (string * Cell) (fun a b => indexLeb a b = true)
    (fun a b => bool_eq_dec (indexLeb a b) true)
    (List.filter (fun kv => bool_decide (is_Some (arrayIndex (fst kv)))) o)
  ++ List.filter (fun kv => negb (bool_decide (is_Some (arrayIndex (fst kv))))) o.

(** [ep.securityPolicyUri || 'Unknown'] *)
Definition policyKey (ep : EndpointDescription) : string :=
  if String.eqb (securityPolicyUri ep) "" then "Unknown" else securityPolicyUri ep.

(** [ep.securityMode || 'Unknown'], as a property key. *)
Definition modeKey (ep : EndpointDescription) : string :=
  if (securityMode ep =? 0)%Z then "Unknown" else pretty (securityMode ep).

(** [Set.prototype.add] on a set of token types. *)
Definition addToken (s : list Z) (t : Z) : list Z :=
  if decide (t ∈ s) then s else s ++ [t].

(** [endpointSummary] of the handler, built when the server returned
    one endpoint at least. *)
Record EndpointSummary := mkSummary {
  total : nat;
  securityPolicies : list (string * Cell);
  securityModes : list (string * Cell);
  userTokenTypes : list Z
}.

Definition endpointSummary (endpoints : list EndpointDescription) : EndpointSummary :=
  mkSummary (length endpoints)
            (fold_left (fun o ep => bump o (policyKey ep)) endpoints [])
            (fold_left (fun o ep => bump o (modeKey ep)) endpoints [])
            (fold_left (fun s ep => fold_left addToken (userIdentityTokens ep) s)
                       endpoints []).

(** *** Readings of a table of counts, used to state the properties *)

(** The keys that [Object.prototype] answers for. *)
Definition fromPrototype (k : string) : bool :=
  String.eqb k "__proto__" || inherited k.

(** The endpoints counted by a cell. *)
Definition countOf (v : Cell) : nat :=
  match v with
  | Count n => n
  | Junk => 0
  end.

(** The lines of one block of the security summary of
    [formatEndpointResults], for the entries of a table that hold
    counts: [name] is [shortenPolicyUri] for the policies and
    [securityModeToString] for the modes. *)
Definition summaryLines (name : string -> string) (entries : list (string * nat))
  : list string :=
  let maxLen := list_max (map (fun kv => String.length (name (fst kv))) entries) in
  map (fun kv =>
         let n := name (fst kv) in
         let dots :=
           repeatStr "." (Z.to_nat (Z.max 2 (Z.of_nat maxLen
                                            - Z.of_nat (String.length n) + 3))) in
         "      " +:+ n +:+ " " +:+ dots +:+ " " +:+ pretty (snd kv)
         +:+ " endpoint(s)")
      entries.

(** The tables of the three sections. *)
Definition endpointHeaders : list Header :=
  [mkHeader "#" 3; mkHeader "URL" 31; mkHeader "Security Policy" 22;
   mkHeader "Mode" 16; mkHeader "Tokens" 24].

Definition listenerHeaders : list Header :=
  [mkHeader "Proto" 5; mkHeader "Local Address" 21; mkHeader "Port" 6;
   mkHeader "PID" 6].

Definition connectionHeaders : list Header :=
  [mkHeader "#" 3; mkHeader "Time" 8; mkHeader "Proto" 5; mkHeader "Local" 21;
   mkHeader "Remote" 21; mkHeader "State" 13; mkHeader "PID" 6].

(** *** Readings, used to state the properties *)

(** The headers under which [formatTable] keeps its columns: the
    label fits and the cut leaves room for the two dots. *)
Definition fits (h : Header) : Prop :=
  (2 <= width h)%nat /\ (String.length (label h) <= width h)%nat.

Definition lineWidth (headers : list Header) : nat :=
  (list_sum (map width headers) + 2 * (length headers - 1))%nat.

End LogFormat.

(** ** The renderer: the configuration built by the Run button *)

Module Renderer.
Import JsString Ipc Endpoint Probe.

(** The longest prefix made of decimal digits. *)
Fixpoint leadingDigits (s : string) : string :=
  match s with
  | String c s' => if is_digit c then String c (leadingDigits s') else EmptyString
  | EmptyString => EmptyString
  end.

(** The integer written by a run of digits, after [acc]. *)
Fixpoint decimal (acc : Z) (digits : string) : Z :=
  match digits with
  | EmptyString => acc
  | String c s' => decimal (10 * acc + Z.of_nat (code c - 48)) s'
  end.

Definition negate (x : JsNumber) : JsNumber :=
  match x with
  | NegInfinity => PosInfinity
  | Num z => Num (- z)
  | PosInfinity => NegInfinity
  end.

Section Doubles.

(** The double nearest to an integer, an infinity when it is out of
    range. *)
Variable double : Z -> JsNumber.

(** [parseInt(text, 10)]: leading white space is skipped, one sign is
    read, then the longest run of digits; [None] stands for [NaN]. *)
Definition parseInt (text : string) : option JsNumber :=
  let s := trimStart text in
  let signed :=
    match s with
    | String c rest =>
        if Ascii.eqb c "-" then (true, rest)
        else if Ascii.eqb c "+" then (false, rest)
        else (false, s)
    | EmptyString => (false, s)
    end in
  let digits := leadingDigits (snd signed) in
  if String.eqb digits "" then None
  else
    let number := double (decimal 0 digits) in
    Some (if fst signed then negate number else number).

(** [cfg] of the click handler of the Run button, from the values of
    the four input fields. *)
Definition clickConfig (serverValue portValue nodeidValue publishingValue : string)
  : Config :=
  let port :=
    match parseInt portValue with
    | Some (Num p) => if (p <=? 0)%Z || (65535 <? p)%Z then 4840%Z else p
    | _ => 4840%Z
    end in
  let publishingInterval :=
    match parseInt publishingValue with
    | Some (Num p) => if (0 <? p)%Z then p else 250%Z
    | _ => 250%Z
    end in
  let server := stripScheme (trim serverValue) in
  mkConfig (Some server) (PortNumber port)
           (Some (if String.eqb nodeidValue "" then defaultNodeId else nodeidValue))
           publishingInterval.

End Doubles.

End Renderer.

(** ** The main process: the life of the worker ([main.js]) *)

Module Main.
Import Ipc Probe.

(** A forked worker, named by its rank among the forks. *)
Definition Pid := nat.

(** What the main process sends to the renderer on [probe-event]: a
    message of a worker, relayed, or the notice that a worker has
    exited. *)
Inductive ProbeEvent :=
| Relayed (w : Pid) (msg : Message)
| Finished (w : Pid) (code : option Z) (signal : option string).

(** The variable [worker], the workers forked so far, those that
    have not exited yet, those that were sent [kill()], the [start]
    messages sent and what the renderer was sent.  The window is
    taken to be open. *)
Record State := mkState {
  worker : option Pid;
  forked : nat;
  running : list Pid;
  killed : list Pid;
  started : list (Pid * Config);
  toRenderer : list ProbeEvent
}.

Definition initial : State := mkState None 0 [] [] [] [].

(** What the main process reacts to: the two requests of the
    renderer, a message of a worker and the exit of a worker. *)
Inductive Event :=
| RunProbe (probeConfig : Config)
| CancelProbe
| WorkerMessage (w : Pid) (msg : Message)
| WorkerExit (w : Pid) (code : option Z) (signal : option string).

(** [if (worker) { worker.kill(); worker = null; }] *)
Definition killWorker (s : State) : State :=
  match worker s with
  | Some w =>
      mkState None (forked s) (running s) (killed s ++ [w]) (started s)
              (toRenderer s)
  | None => s
  end.

(** The handler of [run-probe]. *)
Definition onRunProbe (probeConfig : Config) (s : State) : State :=
  let s := killWorker s in
  let w := forked s in
  mkState (Some w) (S (forked s)) (running s ++ [w]) (killed s)
          (started s ++ [(w, probeConfig)]) (toRenderer s).

(** The handler of [cancel-probe]. *)
Definition onCancelProbe (s : State) : State := killWorker s.

(** [worker.on('message', ...)], registered on the worker [w]. *)
Definition onWorkerMessage (w : Pid) (msg : Message) (s : State) : State :=
  mkState (worker s) (forked s) (running s) (killed s) (started s)
          (toRenderer s ++ [Relayed w msg]).

(** [worker.on('exit', ...)], registered on the worker [w]: the
    assignment is to the variable [worker], whichever worker it
    holds. *)
Definition onWorkerExit (w : Pid) (code : option Z) (signal : option string)
           (s : State) : State :=
  mkState None (forked s)
          (List.filter (fun x => negb (Nat.eqb x w)) (running s))
          (killed s) (started s)
          (toRenderer s ++ [Finished w code signal]).

(** One turn of the event loop; a worker that has exited sends
    nothing and does not exit again. *)
Definition step (s : State) (e : Event) : State :=
  match e with
  | RunProbe probeConfig => onRunProbe probeConfig s
  | CancelProbe => onCancelProbe s
  | WorkerMessage w msg =>
      if decide (w ∈ running s) then onWorkerMessage w msg s else s
  | WorkerExit w code signal =>
      if decide (w ∈ running s) then onWorkerExit w code signal s else s
  end.

Definition run (events : list Event) : State := fold_left step events initial.

(** *** Readings, used to state the properties *)

(** The workers that run and were never sent [kill()]. *)
Definition unchecked (s : State) : list Pid :=
  List.filter (fun w => negb (bool_decide (w ∈ killed s))) (running s).

(** The variable [worker], when set, holds the worker forked last,
    which runs and was not sent [kill()]; the workers are named
    apart. *)
Definition Tracked (s : State) : Prop :=
  (forall w, worker s = Some w ->
             S w = forked s /\ w ∈ running s /\ (w ∉ killed s))
  /\ (forall w, w ∈ running s -> (w < forked s)%nat)
  /\ (forall w, w ∈ killed s -> (w < forked s)%nat)
  /\ NoDup (running s)
  /\ NoDup (killed s).

End Main.

(** ** The renderer: what it shows of a probe *)

Module Display.
Import JsString Netstat PortDiff Ipc Main.

(** [getUniquePorts(listeners)] *)
Definition getUniquePorts (listeners : list SocketRecord) : list string :=
  fold_left (fun ports l =>
               if negb (String.eqb (Netstat.localPort l) "")
               then Set_add ports (Netstat.localPort l) else ports)
            listeners [].

(** [newPorts] of [summarizeAfterListeners], once the baseline is
    known. *)
Definition newPortsShown (baselineListeners afterListeners : list SocketRecord)
  : list string :=
  let portsAfter := getUniquePorts afterListeners in
  let portsBefore := Set_of (getUniquePorts baselineListeners) in
  filter (fun p => p ∉ portsBefore) portsAfter.

(** The states of the status chip: [idle], [running], [complete] and
    [error]. *)
Inductive Status :=
| Idle
| Running
| Complete
| Failed.

(** What the window shows of the progress of a probe: the value
    behind the percentage label, the status chip and whether the Run
    button is disabled.  The task line and the entries of the result
    panel are left out: nothing below reads them. *)
Record Ui := mkUi {
  percent : JsNumber;
  status : Status;
  runDisabled : bool
}.

(** [Math.max(0, Math.min(100, percent || 0))] *)
Definition clamped (percent : JsNumber) : JsNumber :=
  match percent with
  | NegInfinity => Num 0
  | Num z => Num (Z.max 0 (Z.min 100 z))
  | PosInfinity => Num 100
  end.

(** [setProgress(percent)] *)
Definition setProgress (percent : JsNumber) (u : Ui) : Ui :=
  mkUi (clamped percent) (status u) (runDisabled u).

Definition setStatus (state : Status) (u : Ui) : Ui :=
  mkUi (percent u) state (runDisabled u).

Definition setRunDisabled (b : bool) (u : Ui) : Ui :=
  mkUi (percent u) (status u) b.


(** The listener of [probe-event]. *)
Definition onProbeEvent (u : Ui) (msg : ProbeEvent) : Ui :=
  match msg with
  | Relayed _ (Progress progress _) => setProgress progress u
  | Relayed _ (ResultPartial _) => u
  | Relayed _ (ResultFinal _) =>
      setStatus Complete (setProgress (Num 100) (setRunDisabled false u))
  | Relayed _ (Log _) => u
  | Relayed _ (ErrorEvent _) => setStatus Failed (setRunDisabled false u)
  | Finished _ _ _ =>
      setRunDisabled false
        (match percent u with
         | Num 100 => u
         | _ => setStatus Idle u
         end)
  end.


Definition shown (u : Ui) (events : list ProbeEvent) : Ui :=
  fold_left onProbeEvent events u.

End Display.

(* ================================================================== *)
(** * Part II: properties                                              *)
(* ================================================================== *)

Import JsString Netstat PortDiff.

(** ** The primitives on concrete inputs *)

Example splitLines_mixed_ends :
  splitLines ("a" +:+ String (ascii_of_nat 13) LF +:+ "b" +:+ LF +:+ LF)
  = ["a"; "b"; ""; ""].
Proof. reflexivity. Qed.

Example splitWs_keeps_outer_empties : splitWs " a  b " = [""; "a"; "b"; ""].
Proof. reflexivity. Qed.

Example columns_of_a_row :
  columns "  TCP    0.0.0.0:135    0.0.0.0:0    LISTENING    1234"
  = ["TCP"; "0.0.0.0:135"; "0.0.0.0:0"; "LISTENING"; "1234"].
Proof. reflexivity. Qed.

Example parseAddressPort_last_colon :
  parseAddressPort (Some "[::1]:4840") = Ok ("[::1]", "4840").
Proof. reflexivity. Qed.

Example isListening_spellings :
  isListening "Listening" = true /\ isListening "LISTEN" = true
  /\ isListening "listen" = false /\ isListening "ESTABLISHED" = false.
Proof. repeat split. Qed.

Example hostPortMatch_is_lazy :
  Endpoint.hostPortMatch "host:1:22" = Some ("host:1", "22")
  /\ Endpoint.hostPortMatch ":22" = None
  /\ Endpoint.hostPortMatch "host:" = None.
Proof. repeat split. Qed.

Example extractHost_of_host_and_port :
  Endpoint.extractHostFromEndpoint (fun _ => None) (Some "10.0.0.5:4840")
  = Some "10.0.0.5".
Proof. reflexivity. Qed.

Example pollsOf_is_a_ceiling :
  Watcher.pollsOf 6000 = 3%Z /\ Watcher.pollsOf 6001 = 4%Z
  /\ Watcher.pollsOf 30000 = 15%Z /\ Watcher.pollsOf 0 = 0%Z.
Proof. repeat split. Qed.

(** ** Strings *)

Section StringFacts.

Lemma app_cons (c : ascii) (s t : string) :
  String c s +:+ t = String c (s +:+ t).
Proof. reflexivity. Qed.

Lemma app_nil_s (t : string) : "" +:+ t = t.
Proof. reflexivity. Qed.

Lemma app_empty_r (s : string) : s +:+ "" = s.
Proof.
  induction s as [|c s IH]; [reflexivity | now rewrite app_cons, IH].
Qed.

Lemma app_assoc_s (a b c : string) : (a +:+ b) +:+ c = a +:+ (b +:+ c).
Proof.
  induction a as [|x a IH]; [reflexivity | now rewrite !app_cons, IH].
Qed.

Lemma startsWith_spec (p s : string) :
  startsWith p s = true <-> exists post, s = p +:+ post.
Proof.
  unfold startsWith. revert s.
  induction p as [|c p IH]; intros s.
  - split; [intros _; now exists s | intros _; now destruct s].
  - destruct s as [|d s]; simpl.
    + split; [discriminate | intros [post H]; discriminate].
    + destruct (Ascii.ascii_dec c d) as [->|Hne].
      * rewrite IH. split; intros [post H]; exists post.
        -- now rewrite app_cons, H.
        -- rewrite app_cons in H. now injection H.
      * split; [discriminate |].
        intros [post H]. rewrite app_cons in H. injection H; congruence.
Qed.

Lemma includes_spec (hay needle : string) :
  includes hay needle = true <-> exists pre post, hay = pre +:+ needle +:+ post.
Proof.
  induction hay as [|c hay IH].
  - change (includes "" needle) with (startsWith needle "" || false).
    rewrite orb_false_r, startsWith_spec. split.
    + intros [post H]. now exists "", post.
    + intros [pre [post H]]. destruct pre; [now exists post | discriminate].
  - change (includes (String c hay) needle)
      with (startsWith needle (String c hay) || includes hay needle).
    rewrite orb_true_iff, startsWith_spec, IH. split.
    + intros [[post H] | [pre [post H]]].
      * now exists "", post.
      * exists (String c pre), post. now rewrite app_cons, H.
    + intros [pre [post H]]. destruct pre as [|d pre].
      * left. now exists post.
      * right. exists pre, post. rewrite app_cons in H. now injection H.
Qed.

Lemma eqb_true_iff (a b : string) : String.eqb a b = true <-> a = b.
Proof. apply String.eqb_eq. Qed.

End StringFacts.

(** ** The socket table *)

Section NetstatFacts.

Lemma columns_wide_lookup (parts : list string) (i : nat) :
  (5 <= length parts)%nat -> (i < 5)%nat -> exists t, parts !! i = Some t.
Proof.
  intros Hlen Hi. apply (lookup_lt_is_Some_2 parts i). lia.
Qed.

(** One turn of the loop never throws: it pushes the record of the
    row when the row is accepted and leaves the array alone otherwise. *)
Lemma listenerOfLine_row (listeners : list SocketRecord) (line : string) :
  listenerOfLine listeners line =
  Ok (listeners ++ (if acceptedRow (columns line)
                    then [socketOfRow (columns line)] else [])).
Proof.
  unfold listenerOfLine, acceptedRow, socketOfRow.
  destruct (5 <=? length (columns line))%nat eqn:Hlen; simpl.
  - apply Nat.leb_le in Hlen.
    destruct (columns_wide_lookup _ 1 Hlen ltac:(lia)) as [local Hlocal].
    rewrite Hlocal. simpl.
    destruct (isListening _); simpl.
    + reflexivity.
    + now rewrite app_nil_r.
  - now rewrite app_nil_r.
Qed.

Lemma forEachLine_rows (lines : list string) (acc : list SocketRecord) :
  forEachLine listenerOfLine lines acc =
  Ok (acc ++ map socketOfRow (List.filter acceptedRow (map columns lines))).
Proof.
  revert acc. induction lines as [|line rest IH]; intros acc; simpl.
  - now rewrite app_nil_r.
  - rewrite listenerOfLine_row. simpl. rewrite IH.
    destruct (acceptedRow (columns line)); simpl.
    + now rewrite <- app_assoc.
    + now rewrite app_nil_r.
Qed.

Lemma parseListeners_rows (stdout : string) :
  parseListeners stdout =
  Ok (map socketOfRow (List.filter acceptedRow (rows stdout))).
Proof. unfold parseListeners, rows. now rewrite forEachLine_rows. Qed.

Lemma isListening_spec (state : string) :
  isListening state = true <->
  (exists pre post, canonicalize state = pre +:+ "LISTENING" +:+ post)
  \/ state = "LISTEN".
Proof.
  unfold isListening. now rewrite orb_true_iff, includes_spec, eqb_true_iff.
Qed.

Lemma lastIndexOf_None (c : ascii) (s : string) :
  lastIndexOf c s = None <-> all_chars (fun d => negb (Ascii.eqb d c)) s = true.
Proof.
  induction s as [|d s IH]; simpl.
  - tauto.
  - destruct (lastIndexOf c s).
    + split; [discriminate |].
      rewrite andb_true_iff. intros [_ H]. apply IH in H. discriminate.
    + destruct (Ascii.eqb d c); simpl.
      * split; discriminate.
      * split; [intros _; now apply IH | reflexivity].
Qed.

Lemma acceptedRow_wide (parts : list string) :
  acceptedRow parts = true -> (5 <=? length parts)%nat = true.
Proof. unfold acceptedRow. now intros [H _]%andb_true_iff. Qed.

Lemma filter_accepted_wide (lines : list string) :
  List.filter acceptedRow
    (map columns (List.filter (fun l => (5 <=? length (columns l))%nat) lines))
  = List.filter acceptedRow (map columns lines).
Proof.
  induction lines as [|l lines IH]; [reflexivity|].
  cbn [List.filter map].
  destruct (5 <=? length (columns l))%nat eqn:Hw; cbn [List.filter map].
  - now rewrite IH.
  - destruct (acceptedRow (columns l)) eqn:Ha; [|exact IH].
    apply acceptedRow_wide in Ha. congruence.
Qed.

Lemma socketOfRow_proto (parts : list string) :
  proto (socketOfRow parts) = parts !! 0%nat.
Proof. reflexivity. Qed.

End NetstatFacts.

(** C7, as the code has it.  For every socket-table text,
    [getListeningPorts] resolves with the records of exactly the rows
    that have at least five columns and whose state token either
    contains LISTENING in any letter case or is exactly the upper-case
    word LISTEN, in the order of the table. *)
Theorem listeners_are_the_listening_rows (stdout : string) :
  parseListeners stdout
  = Ok (map socketOfRow (List.filter acceptedRow (rows stdout)))
  /\ forall parts : list string,
       acceptedRow parts = true <->
       (5 <= length parts)%nat /\
       exists state, parts !! 3%nat = Some state /\
         ((exists pre post, canonicalize state = pre +:+ "LISTENING" +:+ post)
          \/ state = "LISTEN").
Proof.
  split; [apply parseListeners_rows|].
  intros parts. unfold acceptedRow.
  rewrite andb_true_iff, Nat.leb_le, isListening_spec. split.
  - intros [Hlen Hst]. split; [exact Hlen|].
    destruct (columns_wide_lookup parts 3 Hlen ltac:(lia)) as [state Hstate].
    exists state. rewrite Hstate in Hst. now split.
  - intros [Hlen (state & Hstate & Hst)]. rewrite Hstate. now split.
Qed.

(** C7, as stated, fails: a row in state [listen] (the abbreviated
    marker in lower case) passes the specification's test and is not
    returned. *)
Lemma lowercase_listen_row_is_dropped :
  rows lowercaseListenTable = [["TCP"; "0.0.0.0:22"; "0.0.0.0:0"; "listen"; "812"]]
  /\ List.filter claimedRow (rows lowercaseListenTable) = rows lowercaseListenTable
  /\ parseListeners lowercaseListenTable = Ok [].
Proof. vm_compute. repeat split. Qed.

(** C8.  Parsing never throws: for every socket-table text the loop
    ends with an array; the lines with fewer than five columns
    contribute nothing (dropping them beforehand gives the same array);
    no record has an undefined protocol, the other fields being strings
    by construction; and an address token without a colon is returned
    whole with the empty string as its port. *)
Theorem parsing_is_total (stdout : string) :
  exists listeners : list SocketRecord,
    parseListeners stdout = Ok listeners
    /\ forEachLine listenerOfLine
         (List.filter (fun l => (5 <=? length (columns l))%nat) (dataLines stdout)) []
       = Ok listeners
    /\ Forall (fun r => exists p, proto r = Some p) listeners
    /\ (forall (acc : list SocketRecord) (line : string),
          (length (columns line) < 5)%nat -> listenerOfLine acc line = Ok acc)
    /\ (forall t : string,
          all_chars (fun d => negb (Ascii.eqb d ":")) t = true ->
          parseAddressPort (Some t) = Ok (t, "")).
Proof.
  exists (map socketOfRow (List.filter acceptedRow (rows stdout))).
  split; [apply parseListeners_rows|].
  split; [rewrite forEachLine_rows, filter_accepted_wide; reflexivity|].
  split.
  - apply Forall_forall. intros r Hr.
    apply list_elem_of_In, in_map_iff in Hr as (parts & <- & Hparts).
    apply filter_In in Hparts as [_ Hacc].
    apply acceptedRow_wide, Nat.leb_le in Hacc.
    rewrite socketOfRow_proto.
    apply (columns_wide_lookup parts 0 Hacc). lia.
  - split.
    + intros acc line Hshort. unfold listenerOfLine.
      apply Nat.leb_gt in Hshort. now rewrite Hshort.
    + intros t Ht. unfold parseAddressPort, splitAtLastColon.
      apply lastIndexOf_None in Ht. now rewrite Ht.
Qed.

Lemma parsing_is_total_witness :
  parseAddressPort (Some "localhost") = Ok ("localhost", "").
Proof.
  destruct (parsing_is_total lowercaseListenTable) as (ls & _ & _ & _ & _ & H).
  apply H. reflexivity.
Defined.

(** ** The comparison of the two snapshots *)

Section PortDiffFacts.

Lemma Set_fold_elem (l acc : list string) (k : string) :
  k ∈ fold_left Set_add l acc <-> k ∈ acc \/ k ∈ l.
Proof.
  revert acc. induction l as [|x l IH]; intros acc; simpl.
  - rewrite elem_of_nil. tauto.
  - rewrite IH, elem_of_cons. unfold Set_add.
    destruct (decide (x ∈ acc)) as [Hin|Hnin].
    + split; [tauto|]. intros [H|[->|H]]; tauto.
    + rewrite elem_of_app, list_elem_of_singleton. tauto.
Qed.

Lemma Set_fold_NoDup (l acc : list string) :
  NoDup acc -> NoDup (fold_left Set_add l acc).
Proof.
  revert acc. induction l as [|x l IH]; intros acc Hacc; simpl; [exact Hacc|].
  apply IH. unfold Set_add.
  destruct (decide (x ∈ acc)) as [Hin|Hnin]; [exact Hacc|].
  apply NoDup_app. split; [exact Hacc|]. split.
  - intros y Hy ->%list_elem_of_singleton. contradiction.
  - apply NoDup_singleton.
Qed.

Lemma Set_fold_distinct (l acc : list string) :
  NoDup (acc ++ l) -> fold_left Set_add l acc = acc ++ l.
Proof.
  revert acc. induction l as [|x l IH]; intros acc Hnd; simpl.
  - now rewrite app_nil_r.
  - unfold Set_add. destruct (decide (x ∈ acc)) as [Hin|Hnin].
    + apply NoDup_app in Hnd as (_ & Hdisj & _).
      exfalso. apply (Hdisj x Hin). apply elem_of_cons. now left.
    + rewrite IH; rewrite <- app_assoc; [reflexivity | exact Hnd].
Qed.

Lemma Set_of_elem (l : list string) (k : string) : k ∈ Set_of l <-> k ∈ l.
Proof. unfold Set_of. rewrite Set_fold_elem, elem_of_nil. tauto. Qed.

Lemma Set_of_NoDup (l : list string) : NoDup (Set_of l).
Proof. apply Set_fold_NoDup, NoDup_nil_2. Qed.

Lemma Set_of_distinct (l : list string) : NoDup l -> Set_of l = l.
Proof. intros H. unfold Set_of. now rewrite Set_fold_distinct. Qed.

(** Two duplicate-free lists lose as many elements as each other's
    complement leaves: the sizes of the two differences differ by the
    difference of the sizes. *)
Lemma difference_sizes (A B : list string) :
  NoDup A -> NoDup B ->
  (Z.of_nat (length (filter (fun p => p ∉ B) A))
   - Z.of_nat (length (filter (fun p => p ∉ A) B))
   = Z.of_nat (length A) - Z.of_nat (length B))%Z.
Proof.
  intros HA HB.
  pose proof (filter_app_complement (fun p => p ∉ B) A) as PA.
  pose proof (filter_app_complement (fun p => p ∉ A) B) as PB.
  apply Permutation_length in PA, PB. rewrite length_app in PA, PB.
  assert (PI : filter (fun p : string => ¬ (p ∉ B)) A
               ≡ₚ filter (fun p : string => ¬ (p ∉ A)) B).
  { apply NoDup_Permutation; [now apply NoDup_filter ..|].
    intros k. rewrite !list_elem_of_filter.
    destruct (decide (k ∈ A)), (decide (k ∈ B)); tauto. }
  apply Permutation_length in PI. lia.
Qed.

End PortDiffFacts.

(** C6.  For every pair of snapshots, [newPorts] holds exactly the
    [address:port] keys of the second snapshot that no record of the
    first one has, [removedPorts] exactly the keys of the first that no
    record of the second has, each key once; on the example of the
    specification the comparison is [["0.0.0.0:52000"]], [[]] and [1]. *)
Theorem diff_is_the_key_difference (beforeListeners afterListeners : list SocketRecord) :
  let c := comparison beforeListeners afterListeners in
  (forall k, k ∈ newPorts c <->
             k ∈ map portKey afterListeners /\ k ∉ map portKey beforeListeners)
  /\ (forall k, k ∈ removedPorts c <->
                k ∈ map portKey beforeListeners /\ k ∉ map portKey afterListeners)
  /\ NoDup (newPorts c) /\ NoDup (removedPorts c)
  /\ (forall (p1 p2 p3 : option string) (pid1 pid2 pid3 : string),
        comparison [mkSocket p1 "0.0.0.0" "135" pid1]
                   [mkSocket p2 "0.0.0.0" "135" pid2;
                    mkSocket p3 "0.0.0.0" "52000" pid3]
        = mkComparison ["0.0.0.0:52000"] [] 1).
Proof.
  cbn zeta. unfold comparison. cbn [newPorts removedPorts].
  split; [|split; [|split; [|split]]].
  - intros k. rewrite list_elem_of_filter, !Set_of_elem. tauto.
  - intros k. rewrite list_elem_of_filter, !Set_of_elem. tauto.
  - apply NoDup_filter, Set_of_NoDup.
  - apply NoDup_filter, Set_of_NoDup.
  - intros. vm_compute. reflexivity.
Qed.

(** C5, as the code has it.  [netChange] is the difference of the two
    record counts; the difference between the numbers of new and of
    removed keys is the difference of the numbers of distinct keys of
    the two snapshots; the two agree whenever no snapshot lists a key
    twice. *)
Theorem netChange_and_keyed_change (beforeListeners afterListeners : list SocketRecord) :
  let c := comparison beforeListeners afterListeners in
  (netChange c
   = Z.of_nat (length afterListeners) - Z.of_nat (length beforeListeners))%Z
  /\ (keyedChange c
      = Z.of_nat (length (Set_of (map portKey afterListeners)))
        - Z.of_nat (length (Set_of (map portKey beforeListeners))))%Z
  /\ (NoDup (map portKey beforeListeners) ->
      NoDup (map portKey afterListeners) ->
      netChange c = keyedChange c).
Proof.
  cbn zeta. unfold keyedChange, comparison. cbn [newPorts removedPorts netChange].
  split; [reflexivity|]. split.
  - apply difference_sizes; apply Set_of_NoDup.
  - intros Hb Ha. rewrite difference_sizes by apply Set_of_NoDup.
    rewrite !Set_of_distinct by assumption. now rewrite !length_map.
Qed.

Lemma netChange_and_keyed_change_witness :
  netChange (comparison [mkSocket (Some "TCP") "0.0.0.0" "135" "4"]
                        [mkSocket (Some "TCP") "0.0.0.0" "135" "4";
                         mkSocket (Some "TCP") "0.0.0.0" "52000" "4"])
  = keyedChange (comparison [mkSocket (Some "TCP") "0.0.0.0" "135" "4"]
                            [mkSocket (Some "TCP") "0.0.0.0" "135" "4";
                             mkSocket (Some "TCP") "0.0.0.0" "52000" "4"]).
Proof.
  apply (netChange_and_keyed_change
           [mkSocket (Some "TCP") "0.0.0.0" "135" "4"]
           [mkSocket (Some "TCP") "0.0.0.0" "135" "4";
            mkSocket (Some "TCP") "0.0.0.0" "52000" "4"]).
  - apply (bool_decide_unpack _). vm_compute. reflexivity.
  - apply (bool_decide_unpack _). vm_compute. reflexivity.
Defined.

(** C5, as stated, fails: a table that lists one listening socket twice
    parses into two records with the same key; against an empty
    baseline [netChange] is 2 while there is one new key and none
    removed. *)
Lemma repeated_row_breaks_consistency :
  parseListeners repeatedRowTable
  = Ok [mkSocket (Some "TCP") "0.0.0.0" "135" "4";
        mkSocket (Some "TCP") "0.0.0.0" "135" "4"]
  /\ netChange (comparison [] [mkSocket (Some "TCP") "0.0.0.0" "135" "4";
                              mkSocket (Some "TCP") "0.0.0.0" "135" "4"]) = 2%Z
  /\ keyedChange (comparison [] [mkSocket (Some "TCP") "0.0.0.0" "135" "4";
                                mkSocket (Some "TCP") "0.0.0.0" "135" "4"]) = 1%Z.
Proof. vm_compute. repeat split. Qed.

(** ** The endpoint *)

Import Endpoint.

Section EndpointFacts.

Lemma all_chars_app (p : ascii -> bool) (a b : string) :
  all_chars p (a +:+ b) = all_chars p a && all_chars p b.
Proof.
  induction a as [|c a IH]; [reflexivity|].
  rewrite app_cons. simpl. now rewrite IH, andb_assoc.
Qed.

Lemma eqb_empty (s : string) : String.eqb s "" = true <-> s = "".
Proof. apply String.eqb_eq. Qed.

Lemma eqb_nonempty (s : string) : String.eqb s "" = false <-> s <> "".
Proof. apply String.eqb_neq. Qed.

(** *** [trim] *)

Lemma trimStart_spec (s : string) :
  exists l, s = l +:+ trimStart s /\ all_chars is_ws l = true
            /\ headIsWs (trimStart s) = false.
Proof.
  induction s as [|c s (l & Hl & Hws & Hhd)].
  - now exists "".
  - simpl. destruct (is_ws c) eqn:Hc.
    + exists (String c l). rewrite app_cons, <- Hl. simpl. now rewrite Hc.
    + exists "". simpl. now rewrite Hc.
Qed.

Lemma trimEnd_spec (s : string) :
  exists r, s = trimEnd s +:+ r /\ all_chars is_ws r = true
            /\ lastIsWs (trimEnd s) = false
            /\ (headIsWs s = false -> headIsWs (trimEnd s) = false).
Proof.
  induction s as [|c s (r & Hr & Hws & Hlast & Hhd)].
  - now exists "".
  - simpl. destruct (is_ws c) eqn:Hc; simpl.
    + destruct (String.eqb (trimEnd s) "") eqn:He.
      * exists (String c s). apply eqb_empty in He. rewrite He in Hr.
        rewrite app_nil_s in Hr. subst r. simpl. now rewrite Hc, Hws.
      * exists r. rewrite app_cons, <- Hr. simpl. now rewrite He.
    + exists r. rewrite app_cons, <- Hr. simpl.
      destruct (String.eqb (trimEnd s) ""); now rewrite ?Hc.
Qed.

Lemma trim_spec (s : string) :
  exists l r, s = l +:+ trim s +:+ r
              /\ all_chars is_ws l = true /\ all_chars is_ws r = true
              /\ headIsWs (trim s) = false /\ lastIsWs (trim s) = false.
Proof.
  destruct (trimStart_spec s) as (l & Hl & Hlws & Hhd).
  destruct (trimEnd_spec (trimStart s)) as (r & Hr & Hrws & Hlast & Hkeep).
  exists l, r. unfold trim. repeat split.
  - now rewrite <- Hr.
  - exact Hlws.
  - exact Hrws.
  - exact (Hkeep Hhd).
  - exact Hlast.
Qed.

(** *** The scheme *)

Lemma toLowerCase_app (a b : string) :
  toLowerCase (a +:+ b) = toLowerCase a +:+ toLowerCase b.
Proof.
  induction a as [|c a IH]; [reflexivity|].
  rewrite app_cons. simpl. now rewrite IH.
Qed.

Lemma toLowerCase_length (a : string) :
  String.length (toLowerCase a) = String.length a.
Proof. induction a as [|c a IH]; simpl; congruence. Qed.

Lemma sliceFrom_app (a b : string) : sliceFrom (String.length a) (a +:+ b) = b.
Proof. induction a as [|c a IH]; [now destruct b | exact IH]. Qed.

Lemma split_at (n : nat) (s : string) : s = substringTo n s +:+ sliceFrom n s.
Proof.
  revert s. induction n as [|n IH]; intros [|c s]; try reflexivity.
  simpl. rewrite app_cons. now rewrite <- IH.
Qed.

Lemma toLowerCase_substringTo (n : nat) (s : string) :
  toLowerCase (substringTo n s) = substringTo n (toLowerCase s).
Proof.
  revert s. induction n as [|n IH]; intros [|c s]; try reflexivity.
  simpl. now rewrite IH.
Qed.

Lemma substringTo_app (a b : string) : substringTo (String.length a) (a +:+ b) = a.
Proof.
  induction a as [|c a IH]; [now destruct b|].
  rewrite app_cons. simpl. now rewrite IH.
Qed.

Lemma stripScheme_spec (t : string) :
  (exists pre, t = pre +:+ stripScheme t /\ toLowerCase pre = scheme)
  \/ (stripScheme t = t
      /\ forall pre post, t = pre +:+ post -> toLowerCase pre <> scheme).
Proof.
  unfold stripScheme. destruct (startsWith scheme (toLowerCase t)) eqn:Hs.
  - left. apply startsWith_spec in Hs as [post Hpost].
    exists (substringTo (String.length scheme) t). split.
    + apply split_at.
    + rewrite toLowerCase_substringTo, Hpost. apply substringTo_app.
  - right. split; [reflexivity|]. intros pre post -> Hpre.
    assert (startsWith scheme (toLowerCase (pre +:+ post)) = true) as Habs.
    { apply startsWith_spec. exists (toLowerCase post).
      now rewrite toLowerCase_app, Hpre. }
    congruence.
Qed.

(** *** [host:digits] *)

Lemma portSuffix_Some (s digits : string) :
  portSuffix s = Some digits <->
  s = String ":" digits /\ digits <> "" /\ all_chars is_digit digits = true.
Proof.
  destruct s as [|c d]; simpl.
  - split; [discriminate | intros [H _]; discriminate].
  - destruct (Ascii.eqb_spec c ":") as [->|Hc]; simpl.
    + destruct (String.eqb d "") eqn:He; simpl.
      * apply eqb_empty in He. subst d.
        split; [discriminate|]. intros (H & Hne & _).
        injection H as <-. now elim Hne.
      * apply eqb_nonempty in He.
        destruct (all_chars is_digit d) eqn:Hd.
        -- split.
           ++ intros [= <-]. auto.
           ++ intros ([= <-] & _). reflexivity.
        -- split; [discriminate|]. intros ([= <-] & _ & H). congruence.
    + split; [discriminate|]. intros ([= H _] & _). contradiction.
Qed.

Lemma portSuffix_inside (host digits : string) :
  host <> "" -> portSuffix (host +:+ ":" +:+ digits) = None.
Proof.
  intros Hne. destruct (portSuffix _) as [d|] eqn:H; [|reflexivity].
  apply portSuffix_Some in H as (Heq & _ & Hd).
  destruct host as [|c host]; [now elim Hne|].
  rewrite app_cons in Heq. injection Heq as _ Heq. subst d.
  rewrite all_chars_app in Hd.
  change (":" +:+ digits) with (String ":" digits) in Hd. simpl in Hd.
  now rewrite andb_false_r in Hd.
Qed.

Lemma hostPortMatch_complete (s host digits : string) :
  isHostDigits s host digits -> hostPortMatch s = Some (host, digits).
Proof.
  intros (-> & Hne & Hlt & Hdne & Hd).
  induction host as [|c host IH]; [now elim Hne|].
  simpl in Hlt. apply andb_true_iff in Hlt as [Hc Hlt].
  apply negb_true_iff in Hc.
  rewrite app_cons. cbn [hostPortMatch]. rewrite Hc.
  destruct host as [|c' host'].
  - change ("" +:+ ":" +:+ digits) with (String ":" digits).
    assert (portSuffix (String ":" digits) = Some digits) as ->
        by now apply portSuffix_Some.
    reflexivity.
  - rewrite portSuffix_inside by discriminate.
    now rewrite IH.
Qed.

Lemma hostPortMatch_sound (s host digits : string) :
  hostPortMatch s = Some (host, digits) -> isHostDigits s host digits.
Proof.
  revert host. induction s as [|c s IH]; intros host; simpl; [discriminate|].
  destruct (is_line_terminator c) eqn:Hc; [discriminate|].
  destruct (portSuffix s) as [d|] eqn:Hp.
  - intros [= <- <-]. apply portSuffix_Some in Hp as (-> & Hdne & Hd).
    repeat split; auto; try discriminate. simpl. now rewrite Hc.
  - destruct (hostPortMatch s) as [[h d]|]; [|discriminate].
    intros [= <- <-]. destruct (IH h eq_refl) as (-> & Hne & Hlt & Hdne & Hd).
    repeat split; auto; try discriminate. simpl. now rewrite Hc.
Qed.

Lemma hostPortMatch_None (s : string) :
  (forall host digits, ~ isHostDigits s host digits) -> hostPortMatch s = None.
Proof.
  intros Hno. destruct (hostPortMatch s) as [[h d]|] eqn:H; [|reflexivity].
  apply hostPortMatch_sound in H. now elim (Hno h d).
Qed.

End EndpointFacts.

(** C3, as the code has it.  [normalizeEndpoint] fails with "server
    missing" when the server argument is absent or the empty string as
    supplied.  Otherwise it trims the white space, strips a leading
    scheme in any letter case and, when what is left reads host:digits,
    splits it, the extracted digits being the port only when no port was
    supplied; it returns scheme://host:port; and it fails, with "port
    missing", exactly when what is left does not read host:digits and no
    port was supplied.  The three examples of the specification hold. *)
Theorem normalizeEndpoint_contract (server : option string) (port : JsPort) :
  (truthy server = false ->
   normalizeEndpoint server port = Throw (Error "server missing"))
  /\ (forall s : string, server = Some s -> s <> "" ->
      let t := trim s in
      let rest := stripScheme t in
      (exists l r : string,
          s = l +:+ t +:+ r
          /\ all_chars is_ws l = true /\ all_chars is_ws r = true
          /\ headIsWs t = false /\ lastIsWs t = false)
      /\ ((exists pre, t = pre +:+ rest /\ toLowerCase pre = scheme)
          \/ (rest = t /\
              forall pre post, t = pre +:+ post -> toLowerCase pre <> scheme))
      /\ (forall host digits, isHostDigits rest host digits ->
            normalizeEndpoint server port
            = Ok (scheme +:+ host +:+ ":" +:+
                  (if port_falsy port then digits else port_text port)))
      /\ ((forall host digits, ~ isHostDigits rest host digits) ->
            normalizeEndpoint server port
            = if port_falsy port then Throw (Error "port missing")
              else Ok (scheme +:+ rest +:+ ":" +:+ port_text port)))
  /\ normalizeEndpoint (Some "opc.tcp://10.0.0.5:4840") PortUnset
     = Ok "opc.tcp://10.0.0.5:4840"
  /\ normalizeEndpoint (Some "10.0.0.5") (PortNumber 4840)
     = Ok "opc.tcp://10.0.0.5:4840"
  /\ normalizeEndpoint (Some "10.0.0.5") PortUnset
     = Throw (Error "port missing").
Proof.
  split; [|split; [|repeat split]].
  - intros Hfalsy. unfold normalizeEndpoint. now rewrite Hfalsy.
  - intros s -> Hs. cbn zeta.
    split; [|split; [|split]].
    + destruct (trim_spec s) as (l & r & H). now exists l, r.
    + destruct (stripScheme_spec (trim s)) as [(pre & H1 & H2) | [H1 H2]].
      * left. now exists pre.
      * right. now split.
    + intros host digits Hm.
      pose proof Hm as (_ & _ & _ & Hdne & _).
      apply hostPortMatch_complete in Hm.
      unfold normalizeEndpoint, hostAndPort. cbn [truthy orEmpty].
      apply eqb_nonempty in Hs. rewrite Hs, Hm. cbn [negb fst snd].
      destruct (port_falsy port) eqn:Hp.
      * cbn [port_falsy port_text]. apply eqb_nonempty in Hdne.
        now rewrite Hdne.
      * now rewrite Hp.
    + intros Hno. apply hostPortMatch_None in Hno.
      unfold normalizeEndpoint, hostAndPort. cbn [truthy orEmpty].
      apply eqb_nonempty in Hs. rewrite Hs, Hno. reflexivity.
Qed.

Lemma normalizeEndpoint_contract_witness :
  normalizeEndpoint (Some " OPC.TCP://plc-7:4841 ") (PortNumber 4840)
  = Ok "opc.tcp://plc-7:4840".
Proof.
  destruct (normalizeEndpoint_contract (Some " OPC.TCP://plc-7:4841 ") (PortNumber 4840))
    as (_ & H & _).
  destruct (H " OPC.TCP://plc-7:4841 " eq_refl ltac:(discriminate))
    as (_ & _ & Hsplit & _).
  apply (Hsplit "plc-7" "4841").
  vm_compute. repeat split; discriminate.
Defined.

(** C3, as stated, fails: for a server that consists of the scheme only
    the host left by the process is empty, the normalisation the
    specification words fails, and [normalizeEndpoint] returns an
    endpoint without host. *)
Lemma scheme_only_server_is_not_rejected :
  fst (hostAndPort "opc.tcp://" (PortNumber 4840)) = ""
  /\ normalizeAsSpecified (Some "opc.tcp://") (PortNumber 4840)
     = Throw (Error "configuration error")
  /\ normalizeEndpoint (Some "opc.tcp://") (PortNumber 4840)
     = Ok "opc.tcp://:4840".
Proof. vm_compute. repeat split. Qed.



(** ** The connection watcher *)

Section WatcherFacts.

Import Ipc Watcher.

Variable fl : Q -> Q.

(** *** The callback *)

Lemma attemptOfLine_row (serverIp : option string) (now : string)
      (found : list ConnectionAttempt) (line : string) :
  attemptOfLine serverIp now found line =
  Ok (found ++ (if matchedRow serverIp (columns line)
                then [attemptOfRow now (columns line)] else [])).
Proof.
  unfold attemptOfLine, matchedRow, attemptOfRow.
  destruct (5 <=? length (columns line))%nat eqn:Hlen; cbn [andb].
  - apply Nat.leb_le in Hlen.
    destruct (columns_wide_lookup _ 1 Hlen ltac:(lia)) as [local Hlocal].
    destruct (columns_wide_lookup _ 2 Hlen ltac:(lia)) as [remote Hremote].
    rewrite Hlocal, Hremote. cbn [orEmpty].
    destruct (truthy serverIp); cbn [andb includesOf bindR].
    + destruct (includes remote (orEmpty serverIp)); cbn [parseAddressPort bindR].
      * reflexivity.
      * now rewrite app_nil_r.
    + now rewrite app_nil_r.
  - now rewrite app_nil_r.
Qed.

Lemma forEachLine_attempts (serverIp : option string) (now : string)
      (lines : list string) (found : list ConnectionAttempt) :
  forEachLine (attemptOfLine serverIp now) lines found =
  Ok (found ++ map (attemptOfRow now)
                   (List.filter (matchedRow serverIp) (map columns lines))).
Proof.
  revert found. induction lines as [|line rest IH]; intros found.
  - cbn. now rewrite app_nil_r.
  - cbn [forEachLine]. rewrite attemptOfLine_row. cbn [bindR]. rewrite IH.
    cbn [map List.filter].
    destruct (matchedRow serverIp (columns line)); cbn [map].
    + now rewrite <- app_assoc.
    + now rewrite app_nil_r.
Qed.

Lemma onNetstat_attempts (serverIp : option string) (now : string)
      (r : ExecResult) (found : list ConnectionAttempt) :
  onNetstat serverIp now r found = Ok (found ++ attemptsOf serverIp now r).
Proof.
  unfold onNetstat, attemptsOf.
  destruct (exec_err r); [now rewrite app_nil_r|].
  destruct (negb _); [apply forEachLine_attempts | now rewrite app_nil_r].
Qed.

Lemma matchedRow_spec (serverIp : option string) (parts : list string) :
  matchedRow serverIp parts = true <->
  (5 <= length parts)%nat /\
  exists target remote,
    serverIp = Some target /\ target <> "" /\ parts !! 2%nat = Some remote
    /\ exists pre post, remote = pre +:+ target +:+ post.
Proof.
  unfold matchedRow. rewrite !andb_true_iff, Nat.leb_le, includes_spec. split.
  - intros [[Hlen Hip] Hinc]. split; [exact Hlen|].
    destruct serverIp as [target|]; [|discriminate].
    destruct (columns_wide_lookup parts 2 Hlen ltac:(lia)) as [remote Hremote].
    exists target, remote. rewrite Hremote in Hinc.
    cbn in Hip. apply negb_true_iff, String.eqb_neq in Hip. auto.
  - intros (Hlen & target & remote & -> & Hne & Hremote & Hinc).
    rewrite Hremote. cbn. apply String.eqb_neq in Hne. now rewrite Hne.
Qed.

Lemma matchedRow_falsy (serverIp : option string) (parts : list string) :
  truthy serverIp = false -> matchedRow serverIp parts = false.
Proof.
  intros H. unfold matchedRow. rewrite H. now rewrite andb_false_r.
Qed.

Lemma attemptsOf_falsy (serverIp : option string) (now : string) (r : ExecResult) :
  truthy serverIp = false -> attemptsOf serverIp now r = [].
Proof.
  intros H. unfold attemptsOf. destruct (exec_err r); [reflexivity|].
  destruct (negb _); [|reflexivity].
  induction (rows (exec_stdout r)) as [|parts l IH]; [reflexivity|].
  cbn [List.filter]. now rewrite matchedRow_falsy.
Qed.

(** *** The event loop *)

Lemma step_ExecDone (serverIp : option string) (durationMs : Z) (st : State)
      (k : nat) (now : string) (r : ExecResult) :
  step fl serverIp durationMs st (ExecDone k now r) =
  Ok (if decide (k ∈ pending st)
      then mkState (i st) (found st ++ attemptsOf serverIp now r)
                   (timerActive st) (execs st)
                   (List.filter (fun j => negb (j =? k)%nat) (pending st))
                   (sent st) (resolved st)
      else st).
Proof.
  cbn [step]. destruct (decide (k ∈ pending st)); [|reflexivity].
  now rewrite onNetstat_attempts.
Qed.

Lemma step_total (serverIp : option string) (durationMs : Z) (st : State) (e : Event) :
  exists st', step fl serverIp durationMs st e = Ok st'.
Proof.
  destruct e as [|k now r].
  - cbn [step]. destruct (timerActive st); eauto.
  - rewrite step_ExecDone. eauto.
Qed.

Lemma drive_settled (serverIp : option string) (durationMs : Z) (st : State)
      (sched : list Event) :
  resolved st <> None -> drive fl serverIp durationMs st sched = Ok st.
Proof.
  intros H. destruct sched as [|e rest]; [reflexivity|].
  cbn [drive]. now destruct (resolved st).
Qed.

Lemma drive_app (serverIp : option string) (durationMs : Z) (st : State)
      (a b : list Event) :
  drive fl serverIp durationMs st (a ++ b) =
  bindR (drive fl serverIp durationMs st a)
        (fun st' => drive fl serverIp durationMs st' b).
Proof.
  revert st. induction a as [|e a IH]; intros st; [reflexivity|].
  cbn [app drive]. destruct (resolved st) eqn:Hres.
  - cbn [bindR]. symmetry. apply drive_settled. congruence.
  - destruct (step_total serverIp durationMs st e) as [st' Hst'].
    rewrite Hst'. cbn [bindR]. apply IH.
Qed.

Lemma drive_total (serverIp : option string) (durationMs : Z) (st : State)
      (sched : list Event) :
  exists st', drive fl serverIp durationMs st sched = Ok st'.
Proof.
  revert st. induction sched as [|e rest IH]; intros st; [now exists st|].
  cbn [drive]. destruct (resolved st); [now exists st|].
  destruct (step_total serverIp durationMs st e) as [st' ->]. apply IH.
Qed.

Lemma initial_Live (durationMs : Z) : Live fl durationMs initial.
Proof. unfold Live, ticksNeeded. cbn. repeat split; lia. Qed.

Lemma ticksSent_succ (durationMs : Z) (n : nat) :
  ticksSent fl durationMs (S n) =
  ticksSent fl durationMs n
  ++ [Progress (progressOf fl durationMs (Z.of_nat (S n)))
               (taskOf (Z.of_nat (S n)) (pollsOf durationMs))].
Proof. unfold ticksSent. now rewrite seq_S, map_app. Qed.

Lemma onTick_Live (durationMs : Z) (st : State) :
  Live fl durationMs st ->
  Live fl durationMs (onTick fl durationMs st)
  \/ Settled fl durationMs (onTick fl durationMs st).
Proof.
  intros (Hres & Htimer & Hi & Hexecs & Hsent).
  assert (Hnat : Z.to_nat (i st + 1) = S (Z.to_nat (i st))) by lia.
  assert (Hof : Z.of_nat (S (Z.to_nat (i st))) = (i st + 1)%Z) by lia.
  unfold onTick, ticksNeeded in *.
  destruct (i st + 1 >=? pollsOf durationMs)%Z eqn:Hge.
  - right. apply Z.geb_le in Hge.
    assert (Hi' : (i st + 1)%Z = Z.max 1 (pollsOf durationMs)) by lia.
    unfold Settled, ticksNeeded. cbn. rewrite <- Hi', Hnat.
    repeat split.
    + now rewrite Hexecs.
    + rewrite Hexecs. apply elem_of_app. right. now apply list_elem_of_singleton.
    + now rewrite ticksSent_succ, Hsent, Hof.
  - left. rewrite Z.geb_leb in Hge. apply Z.leb_gt in Hge.
    unfold Live, ticksNeeded. cbn. rewrite Hnat.
    repeat split; try assumption; try lia.
    now rewrite ticksSent_succ, Hsent, Hof.
Qed.

Lemma step_Live (serverIp : option string) (durationMs : Z) (st st' : State) (e : Event) :
  Live fl durationMs st ->
  step fl serverIp durationMs st e = Ok st' ->
  Live fl durationMs st' \/ Settled fl durationMs st'.
Proof.
  intros HL. destruct e as [|k now r].
  - cbn [step]. destruct HL as (Hres & Htimer & Hrest). rewrite Htimer.
    intros [= <-]. apply onTick_Live. now repeat split.
  - rewrite step_ExecDone. intros [= <-]. left.
    destruct (decide (k ∈ pending st)); exact HL.
Qed.

Lemma drive_Live (serverIp : option string) (durationMs : Z) (sched : list Event)
      (st st' : State) :
  Live fl durationMs st ->
  drive fl serverIp durationMs st sched = Ok st' ->
  Live fl durationMs st' \/ Settled fl durationMs st'.
Proof.
  revert st. induction sched as [|e rest IH]; intros st HL.
  - intros [= <-]. now left.
  - cbn [drive]. destruct HL as (Hres & Hrest). rewrite Hres.
    destruct (step_total serverIp durationMs st e) as [st1 Hst1].
    rewrite Hst1. cbn [bindR]. intros Hdrive.
    destruct (step_Live serverIp durationMs st st1 e) as [HL1 | HS1];
      [now split | exact Hst1 | now apply (IH st1) |].
    rewrite drive_settled in Hdrive.
    + injection Hdrive as <-. now right.
    + destruct HS1 as [-> _]. discriminate.
Qed.

Lemma drive_ticks_settle (serverIp : option string) (durationMs : Z) (n : nat)
      (st st' : State) :
  Live fl durationMs st ->
  (ticksNeeded durationMs - i st <= Z.of_nat n)%Z ->
  drive fl serverIp durationMs st (repeat Tick n) = Ok st' ->
  Settled fl durationMs st'.
Proof.
  revert st. induction n as [|n IH]; intros st HL Hn.
  - destruct HL as (_ & _ & Hi & _). lia.
  - cbn [repeat drive step].
    pose proof HL as (Hres & Htimer & Hi & _). rewrite Hres, Htimer. cbn [bindR].
    destruct (onTick_Live durationMs st HL) as [HL1 | HS1].
    + apply IH; [exact HL1|].
      unfold onTick. destruct (_ >=? _)%Z; cbn; lia.
    + rewrite drive_settled.
      * now intros [= <-].
      * destruct HS1 as [-> _]. discriminate.
Qed.

(** The promise of [monitorConnectionAttempts] is always fulfilled,
    by the tick that issues the last [exec]. *)
Lemma monitor_settles (serverIp : option string) (serverPort : JsPort)
      (durationMs : Z) (sched : list Event) :
  exists st,
    monitorConnectionAttempts fl serverIp serverPort durationMs sched = Ok st
    /\ Settled fl durationMs st.
Proof.
  unfold monitorConnectionAttempts. rewrite drive_app.
  destruct (drive_total serverIp durationMs initial sched) as [st1 Hst1].
  rewrite Hst1. cbn [bindR].
  destruct (drive_Live serverIp durationMs sched initial st1 (initial_Live _) Hst1)
    as [HL | HS].
  - destruct (drive_total serverIp durationMs st1
                (repeat Tick (Z.to_nat (Z.max 1 (pollsOf durationMs)))))
      as [st2 Hst2].
    exists st2. split; [exact Hst2|].
    apply (drive_ticks_settle serverIp durationMs
             (Z.to_nat (Z.max 1 (pollsOf durationMs))) st1 st2 HL); [|exact Hst2].
    destruct HL as (_ & _ & Hi & _). unfold ticksNeeded in *. lia.
  - exists st1. split; [|exact HS].
    apply drive_settled. destruct HS as [-> _]. discriminate.
Qed.

(** Once the interval is cleared no further [exec] is issued. *)
Lemma step_after_clear (serverIp : option string) (durationMs : Z)
      (st st' : State) (e : Event) :
  timerActive st = false ->
  step fl serverIp durationMs st e = Ok st' ->
  timerActive st' = false /\ execs st' = execs st.
Proof.
  intros Hoff. destruct e as [|k now r].
  - cbn [step]. rewrite Hoff. now intros [= <-].
  - rewrite step_ExecDone. intros [= <-].
    now destruct (decide (k ∈ pending st)).
Qed.

Lemma runEvents_after_clear (serverIp : option string) (durationMs : Z)
      (sched : list Event) (st st' : State) :
  timerActive st = false ->
  runEvents fl serverIp durationMs st sched = Ok st' ->
  execs st' = execs st.
Proof.
  revert st. induction sched as [|e rest IH]; intros st Hoff.
  - now intros [= <-].
  - cbn [runEvents].
    destruct (step_total serverIp durationMs st e) as [st1 Hst1].
    rewrite Hst1. cbn [bindR]. intros Hrest.
    destruct (step_after_clear serverIp durationMs st st1 e Hoff Hst1) as [Hoff1 He1].
    rewrite (IH st1 Hoff1 Hrest). exact He1.
Qed.

End WatcherFacts.

(** C1 on the code.  A row is recorded exactly when it has five
    columns, the target is a non-empty string and the remote token
    contains the target as a substring.  With the target 10.0.0.5 the
    row whose remote token is 10.0.0.50:4840 is therefore recorded, next
    to the row of 10.0.0.5:4840, although its remote address is not the
    target. *)
Theorem substring_match_records_other_addresses :
  (forall (serverIp : option string) (now : string) (r : ExecResult)
          (found : list Ipc.ConnectionAttempt),
      Watcher.onNetstat serverIp now r found
      = Ok (found ++ Watcher.attemptsOf serverIp now r))
  /\ (forall (serverIp : option string) (parts : list string),
        Watcher.matchedRow serverIp parts = true <->
        (5 <= length parts)%nat /\
        exists target remote,
          serverIp = Some target /\ target <> "" /\ parts !! 2%nat = Some remote
          /\ exists pre post, remote = pre +:+ target +:+ post)
  /\ Watcher.onNetstat (Some "10.0.0.5") "T" (mkExec None Watcher.twoRemotesTable) []
     = Ok [Ipc.mkAttempt "T" (Some "TCP") "192.168.1.20" "50001"
                         "10.0.0.5" "4840" "ESTABLISHED" "4242";
           Ipc.mkAttempt "T" (Some "TCP") "192.168.1.20" "50002"
                         "10.0.0.50" "4840" "ESTABLISHED" "4242"]
  /\ List.filter (Watcher.exactRow (Some "10.0.0.5")) (rows Watcher.twoRemotesTable)
     = [["TCP"; "192.168.1.20:50001"; "10.0.0.5:4840"; "ESTABLISHED"; "4242"]].
Proof.
  split; [exact onNetstat_attempts|].
  split; [exact matchedRow_spec|].
  split; vm_compute; reflexivity.
Qed.

(** C2 on the code.  For a duration of 6000 ms, whatever the target
    and the order in which the event loop runs the callbacks, the
    promise is fulfilled: exactly three polls have been issued then,
    and the third one is still pending, the tick that issues it being
    the tick that resolves; no poll is issued afterwards.  In the schedule [threePolls], where every
    poll sees the same connection, the caller resumes with the two
    records of the first two polls, in the order observed; the record
    of the third poll reaches the array afterwards. *)
Theorem promise_resolves_with_last_poll_pending
        (fl : Q -> Q) (serverIp : option string) (serverPort : JsPort)
        (sched : list Watcher.Event) :
  (exists st,
      Watcher.monitorConnectionAttempts fl serverIp serverPort 6000 sched = Ok st
      /\ Watcher.execs st = 3%nat
      /\ Watcher.resolved st = Some (Watcher.found st)
      /\ 3%nat ∈ Watcher.pending st
      /\ forall (later : list Watcher.Event) (st' : Watcher.State),
          Watcher.runEvents fl serverIp 6000 st later = Ok st' ->
          Watcher.execs st' = 3%nat)
  /\ (exists st,
        Watcher.monitorConnectionAttempts fl (Some "10.0.0.5") serverPort 6000
                                          Watcher.threePolls = Ok st
        /\ Watcher.resolved st
           = Some [Ipc.mkAttempt "T1" (Some "TCP") "192.168.1.20" "50001"
                                 "10.0.0.5" "4840" "ESTABLISHED" "4242";
                   Ipc.mkAttempt "T2" (Some "TCP") "192.168.1.20" "50001"
                                 "10.0.0.5" "4840" "ESTABLISHED" "4242"]
        /\ Watcher.pending st = [3%nat])
  /\ (exists st,
        Watcher.runEvents fl (Some "10.0.0.5") 6000 Watcher.initial
                          Watcher.threePolls = Ok st
        /\ Watcher.found st
           = [Ipc.mkAttempt "T1" (Some "TCP") "192.168.1.20" "50001"
                            "10.0.0.5" "4840" "ESTABLISHED" "4242";
              Ipc.mkAttempt "T2" (Some "TCP") "192.168.1.20" "50001"
                            "10.0.0.5" "4840" "ESTABLISHED" "4242";
              Ipc.mkAttempt "T3" (Some "TCP") "192.168.1.20" "50001"
                            "10.0.0.5" "4840" "ESTABLISHED" "4242"]).
Proof.
  split; [|split].
  - destruct (monitor_settles fl serverIp serverPort 6000 sched)
      as (st & Hst & Hres & Hoff & _ & Hexecs & Hpending & _).
    exists st. change (Watcher.ticksNeeded 6000%Z) with 3%Z in Hexecs.
    change (Z.to_nat 3) with 3%nat in Hexecs.
    rewrite Hexecs in Hpending. repeat (split; [assumption|]).
    intros later st' Hlater. rewrite <- Hexecs.
    now apply (runEvents_after_clear fl serverIp 6000 later st st').
  - eexists. split; [vm_compute; reflexivity|]. split; reflexivity.
  - eexists. split; [vm_compute; reflexivity|]. reflexivity.
Qed.

(** ** The probe *)

Section ProbeFacts.

Import Ipc Watcher Probe.

Variable fl : Q -> Q.
(** *** On a log file that takes every write *)

Lemma writeErrorSummary_ok (r : Run) :
  exists lf,
    writeErrorSummary reliable r
    = (Normal tt, mkRun (messages r) (errors r) (warnings r) (calls r) lf).
Proof.
  destruct r as [m e w c lf]. unfold writeErrorSummary, block, write, reliable.
  cbn [messages errors warnings calls logFile].
  destruct e, w; eexists; reflexivity.
Qed.

Ltac exec :=
  cbv [bind ret throw tryCatch lift send appendLog appendDetail block write
       reliable logError logWarning pushError pushWarning invoke];
  cbn [messages errors warnings calls logFile fst snd].

Ltac refold := change (fun (_ : list LogStep) (_ : LogStep) => @None JsError)
                  with reliable.

Ltac summary :=
  refold;
  match goal with
  | |- context [writeErrorSummary reliable ?r0] =>
      let lf := fresh "lf" in
      let Hlf := fresh "Hlf" in
      destruct (writeErrorSummary_ok r0) as [lf Hlf]; rewrite Hlf; clear Hlf
  end;
  exec.

Ltac tidy := rewrite <- ?app_assoc, ?app_nil_r; cbn [app].

Ltac grown :=
  unfold extends; cbn [messages errors warnings calls]; repeat split;
  first [ reflexivity
        | rewrite <- !app_assoc; reflexivity
        | symmetry; apply app_nil_r ].

(** *** The stages, one at a time *)

Lemma stepQueryEndpoints_config_error (config : Config) (world : World) (r : Run)
      (e : JsError) :
  normalizeEndpoint (server config) (port config) = Throw e ->
  exists r',
    stepQueryEndpoints reliable config world r = (Abrupt e, r')
    /\ extends r r' [Progress (Num 10) "Querying endpoints";
                    Log "Querying endpoints"] [] [] [].
Proof.
  intros Hn. unfold stepQueryEndpoints. exec. rewrite Hn. exec.
  eexists. split; [reflexivity|]. grown.
Qed.

Lemma stepQueryEndpoints_discovery_error (config : Config) (world : World)
      (r : Run) (url : string) (e : JsError) :
  normalizeEndpoint (server config) (port config) = Ok url ->
  discovery world = Throw e ->
  exists r',
    stepQueryEndpoints reliable config world r = (Abrupt e, r')
    /\ extends r r' [Progress (Num 10) "Querying endpoints";
                    Log "Querying endpoints";
                    Log ("Connecting to endpoint: " +:+ url)]
               [errorObj e "Endpoint Query"] [] [QueryEndpoints].
Proof.
  intros Hn Hd. unfold stepQueryEndpoints, queryEndpoints. exec.
  rewrite Hn. exec. rewrite Hd. exec.
  eexists. split; [reflexivity|]. grown.
Qed.

Lemma stepQueryEndpoints_ok (config : Config) (world : World) (r : Run)
      (url : string) (endpoints : list EndpointDescription) :
  normalizeEndpoint (server config) (port config) = Ok url ->
  discovery world = Ok endpoints ->
  exists r' ms ws,
    stepQueryEndpoints reliable config world r = (Normal endpoints, r')
    /\ extends r r' ms [] ws [QueryEndpoints]
    /\ progressValues ms = [Num 10]
    /\ partials ms = [Endpoints endpoints]
    /\ finals ms = [] /\ errorEvents ms = [].
Proof.
  intros Hn Hd. unfold stepQueryEndpoints, queryEndpoints. exec.
  rewrite Hn. exec. rewrite Hd. exec.
  destruct (0 <? length endpoints)%nat; exec;
    eexists _, _, _; (split; [reflexivity|]); (split; [grown|]); repeat split.
Qed.

Lemma stepBaseline_spec (world : World) (r : Run) :
  exists beforeListeners r' ms es ws,
    stepBaseline reliable world r = (Normal beforeListeners, r')
    /\ extends r r' ms es ws [BaselineCapture]
    /\ progressValues ms = [Num 25]
    /\ partials ms = [BeforeListeners beforeListeners]
    /\ finals ms = [] /\ errorEvents ms = []
    /\ (forall e, getListeningPorts (netstatBefore world) = Throw e ->
          beforeListeners = []
          /\ es = [errorObj e "Baseline Port Capture"]
          /\ ws = [mkWarning "Baseline Port Capture"
                     "Failed to capture baseline ports, continuing with empty array"]).
Proof.
  unfold stepBaseline, getListeningPortsAt. exec.
  destruct (getListeningPorts (netstatBefore world)) as [l|e] eqn:Hg; exec;
    eexists _, _, _, _, _; (split; [reflexivity|]); (split; [grown|]);
    (do 4 (split; [reflexivity|])).
  - intros e' [=].
  - intros e' [= <-]. repeat split.
Qed.

Lemma stepSubscribe_spec (config : Config) (world : World) (r : Run) :
  exists subscriptionResult r' ms es,
    stepSubscribe reliable config world r = (Normal subscriptionResult, r')
    /\ extends r r' ms es [] [Subscribe]
    /\ progressValues ms = [Num 45]
    /\ partials ms = [Subscription subscriptionResult]
    /\ finals ms = [] /\ errorEvents ms = [].
Proof.
  unfold stepSubscribe, createSubscriptionAndMonitor. exec.
  destruct (normalizeEndpoint (server config) (port config)) as [url|e]; exec.
  - destruct (subscription world) as [err|]; exec;
      eexists _, _, _, _; (split; [reflexivity|]); (split; [grown|]); repeat split.
  - eexists _, _, _, _. (split; [reflexivity|]); (split; [grown|]); repeat split.
Qed.

Lemma stepPostCapture_spec (world : World) (beforeListeners : list SocketRecord)
      (r : Run) :
  exists afterListeners r' ms es ws,
    stepPostCapture reliable world beforeListeners r = (Normal afterListeners, r')
    /\ extends r r' ms es ws [PostCapture]
    /\ progressValues ms = [Num 65]
    /\ partials ms = [AfterListeners afterListeners]
    /\ finals ms = [] /\ errorEvents ms = [].
Proof.
  unfold stepPostCapture, getListeningPortsAt. exec.
  destruct (getListeningPorts (netstatAfter world)) as [l|e] eqn:Hg; exec;
    eexists _, _, _, _, _; (split; [reflexivity|]); (split; [grown|]); repeat split.
Qed.

(** *** The monitoring stage *)

Lemma sendAll_run (ms m : list Message) (e : list ErrorRecord)
      (w : list WarningRecord) (c : list Stage) (lf : list LogStep) :
  sendAll ms (mkRun m e w c lf) = (Normal tt, mkRun (m ++ ms) e w c lf).
Proof.
  revert m. induction ms as [|x ms IH]; intros m.
  - cbn. now rewrite app_nil_r.
  - cbn [sendAll]. exec. rewrite IH. now rewrite <- app_assoc.
Qed.

Lemma awaitMonitor_spec (world : World) (serverIp : option string)
      (serverPort : JsPort) (durationMs : Z) (r : Run) :
  exists st,
    monitorConnectionAttempts fl serverIp serverPort durationMs (schedule world)
    = Ok st
    /\ Settled fl durationMs st
    /\ awaitMonitor fl world serverIp serverPort durationMs r
       = (Normal (found st),
          mkRun (messages r
                 ++ ticksSent fl durationMs (Z.to_nat (ticksNeeded durationMs)))
                (errors r) (warnings r) (calls r ++ [Monitor]) (logFile r)).
Proof.
  destruct (monitor_settles fl serverIp serverPort durationMs (schedule world))
    as (st & Hst & HS).
  exists st. split; [exact Hst|]. split; [exact HS|].
  destruct HS as (Hres & _ & _ & _ & _ & Hsent).
  unfold awaitMonitor. rewrite Hst. destruct r as [m e w c lf]. exec.
  rewrite sendAll_run, Hres, Hsent. reflexivity.
Qed.

Lemma ticksSent_progress (durationMs : Z) (n : nat) :
  progressValues (ticksSent fl durationMs n)
  = map (fun j => progressOf fl durationMs (Z.of_nat j)) (seq 1 n)
  /\ partials (ticksSent fl durationMs n) = []
  /\ finals (ticksSent fl durationMs n) = []
  /\ errorEvents (ticksSent fl durationMs n) = [].
Proof.
  unfold ticksSent. generalize (seq 1 n) as l.
  induction l as [|j l (IH1 & IH2 & IH3 & IH4)]; [now repeat split|].
  cbn. unfold progressValues, partials, finals, errorEvents in *.
  now rewrite IH1, IH2, IH3, IH4.
Qed.

Lemma step_found_falsy (serverIp : option string) (durationMs : Z)
      (st st' : State) (e : Event) :
  truthy serverIp = false ->
  step fl serverIp durationMs st e = Ok st' -> found st' = found st.
Proof.
  intros Hf. destruct e as [|k now r].
  - cbn [step]. destruct (timerActive st); intros [= <-]; [|reflexivity].
    unfold onTick. now destruct (_ >=? _)%Z.
  - rewrite step_ExecDone. intros [= <-].
    destruct (decide (k ∈ pending st)); [|reflexivity].
    cbn. now rewrite attemptsOf_falsy, app_nil_r.
Qed.

Lemma drive_found_falsy (serverIp : option string) (durationMs : Z)
      (sched : list Event) (st st' : State) :
  truthy serverIp = false ->
  drive fl serverIp durationMs st sched = Ok st' -> found st' = found st.
Proof.
  intros Hf. revert st. induction sched as [|e rest IH]; intros st.
  - now intros [= <-].
  - cbn [drive]. destruct (resolved st); [now intros [= <-]|].
    destruct (step_total fl serverIp durationMs st e) as [st1 Hst1].
    rewrite Hst1. cbn [bindR]. intros H%IH.
    rewrite H. eapply step_found_falsy; eassumption.
Qed.

Lemma runEvents_found_falsy (serverIp : option string) (durationMs : Z)
      (sched : list Event) (st st' : State) :
  truthy serverIp = false ->
  runEvents fl serverIp durationMs st sched = Ok st' -> found st' = found st.
Proof.
  intros Hf. revert st. induction sched as [|e rest IH]; intros st.
  - now intros [= <-].
  - cbn [runEvents].
    destruct (step_total fl serverIp durationMs st e) as [st1 Hst1].
    rewrite Hst1. cbn [bindR]. intros H%IH.
    rewrite H. eapply step_found_falsy; eassumption.
Qed.

Lemma stepMonitor_spec (config : Config) (world : World) (r : Run) :
  exists connections r' ms,
    stepMonitor reliable fl config world r = (Normal connections, r')
    /\ extends r r' ms [] [] [Monitor]
    /\ progressValues ms
       = Num 75 :: map (fun j => progressOf fl 30000 (Z.of_nat j)) (seq 1 15)
    /\ partials ms = [Connections connections]
    /\ finals ms = [] /\ errorEvents ms = []
    /\ (truthy (extractHostFromEndpoint (URL_hostname world) (server config)) = false
        -> connections = []).
Proof.
  unfold stepMonitor. exec.
  match goal with
  | |- context [awaitMonitor fl world ?ip ?p ?d ?r0] =>
      destruct (awaitMonitor_spec world ip p d r0) as (st & Hmon & HS & Haw);
      rewrite Haw; clear Haw
  end.
  exec.
  destruct (ticksSent_progress (30 * 1000) (Z.to_nat (ticksNeeded (30 * 1000))))
    as (Hp & Hpart & Hfin & Herr).
  eexists _, _, _. split; [reflexivity|]. split; [grown|].
  unfold progressValues, partials, finals, errorEvents in *.
  rewrite !omap_app, Hp, Hpart, Hfin, Herr.
  do 4 (split; [reflexivity|]).
  intros Hfalsy. rewrite Hfalsy in Hmon.
  unfold monitorConnectionAttempts in Hmon.
  now apply drive_found_falsy in Hmon.
Qed.

(** *** The whole run *)

Ltac enter lemma :=
  let r' := fresh "r" in
  let Heq := fresh "Heq" in
  let Hext := fresh "Hext" in
  destruct lemma as (r' & Heq & Hext); rewrite Heq; clear Heq; exec.

Lemma runProbe_config_error (config : Config) (world : World) (e : JsError) :
  normalizeEndpoint (server config) (port config) = Throw e ->
  exists r,
    runProbe fl config world = (Normal 1%Z, r)
    /\ messages r = [Log "Probe started";
                     Progress (Num 10) "Querying endpoints";
                     Log "Querying endpoints";
                     ErrorEvent (String_of_error e)]
    /\ errors r = [errorObj e "Probe Execution"]
    /\ warnings r = [] /\ calls r = [].
Proof.
  intros Hn. unfold runProbe, runProbeOn, onStart. exec.
  match goal with
  | |- context [stepQueryEndpoints ?d config world ?r0] =>
      change d with reliable;
      destruct (stepQueryEndpoints_config_error config world r0 e Hn)
        as (r1 & Heq & Hm & He & Hw & Hc)
  end.
  rewrite Heq. exec. summary. eexists. split; [reflexivity|].
  cbn [messages errors warnings calls] in *.
  rewrite Hm, He, Hw, Hc. repeat split.
Qed.

Lemma runProbe_discovery_error (config : Config) (world : World)
      (url : string) (e : JsError) :
  normalizeEndpoint (server config) (port config) = Ok url ->
  discovery world = Throw e ->
  exists r,
    runProbe fl config world = (Normal 1%Z, r)
    /\ messages r = [Log "Probe started";
                     Progress (Num 10) "Querying endpoints";
                     Log "Querying endpoints";
                     Log ("Connecting to endpoint: " +:+ url);
                     ErrorEvent (String_of_error e)]
    /\ errors r = [errorObj e "Endpoint Query"; errorObj e "Probe Execution"]
    /\ warnings r = [] /\ calls r = [QueryEndpoints].
Proof.
  intros Hn Hd. unfold runProbe, runProbeOn, onStart. exec.
  match goal with
  | |- context [stepQueryEndpoints ?d config world ?r0] =>
      change d with reliable;
      destruct (stepQueryEndpoints_discovery_error config world r0 url e Hn Hd)
        as (r1 & Heq & Hm & He & Hw & Hc)
  end.
  rewrite Heq. exec. summary. eexists. split; [reflexivity|].
  cbn [messages errors warnings calls] in *.
  rewrite Hm, He, Hw, Hc. repeat split.
Qed.

Lemma runProbe_completed (config : Config) (world : World)
      (url : string) (endpoints : list EndpointDescription) :
  normalizeEndpoint (server config) (port config) = Ok url ->
  discovery world = Ok endpoints ->
  exists r final,
    runProbe fl config world = (Normal 0%Z, r)
    /\ progressValues (messages r)
       = [Num 10; Num 25; Num 45; Num 65; Num 75]
         ++ map (fun j => progressOf fl 30000 (Z.of_nat j)) (seq 1 15)
    /\ partials (messages r)
       = [Endpoints (f_endpoints final);
          BeforeListeners (f_beforeListeners final);
          Subscription (f_subscriptionResult final);
          AfterListeners (f_afterListeners final);
          Connections (f_connections final)]
    /\ finals (messages r) = [final]
    /\ errorEvents (messages r) = []
    /\ calls r = [QueryEndpoints; BaselineCapture; Subscribe; PostCapture; Monitor]
    /\ f_endpoints final = endpoints.
Proof.
  intros Hn Hd. unfold runProbe, runProbeOn, onStart. exec.
  match goal with
  | |- context [stepQueryEndpoints ?d config world ?r0] =>
      change d with reliable;
      destruct (stepQueryEndpoints_ok config world r0 url endpoints Hn Hd)
        as (r1 & ms1 & ws1 & Heq & (Hm1 & He1 & Hw1 & Hc1) & Hp1 & Hq1 & Hf1 & Hx1)
  end.
  rewrite Heq; clear Heq. exec. refold.
  destruct (stepBaseline_spec world r1)
    as (before & r2 & ms2 & es2 & ws2 & Heq & (Hm2 & He2 & Hw2 & Hc2)
        & Hp2 & Hq2 & Hf2 & Hx2 & _).
  rewrite Heq; clear Heq. exec. refold.
  destruct (stepSubscribe_spec config world r2)
    as (sub & r3 & ms3 & es3 & Heq & (Hm3 & He3 & Hw3 & Hc3)
        & Hp3 & Hq3 & Hf3 & Hx3).
  rewrite Heq; clear Heq. exec. refold.
  destruct (stepPostCapture_spec world before r3)
    as (after & r4 & ms4 & es4 & ws4 & Heq & (Hm4 & He4 & Hw4 & Hc4)
        & Hp4 & Hq4 & Hf4 & Hx4).
  rewrite Heq; clear Heq. exec. refold.
  destruct (stepMonitor_spec config world r4)
    as (conns & r5 & ms5 & Heq & (Hm5 & He5 & Hw5 & Hc5)
        & Hp5 & Hq5 & Hf5 & Hx5 & _).
  rewrite Heq; clear Heq. exec. summary.
  eexists _, (mkFinal endpoints before sub after conns). split; [reflexivity|].
  cbn [messages errors warnings calls] in *.
  rewrite Hm5, Hm4, Hm3, Hm2, Hm1, Hc5, Hc4, Hc3, Hc2, Hc1.
  unfold progressValues, partials, finals, errorEvents in *.
  rewrite !omap_app, Hp1, Hp2, Hp3, Hp4, Hp5, Hq1, Hq2, Hq3, Hq4, Hq5,
    Hf1, Hf2, Hf3, Hf4, Hf5, Hx1, Hx2, Hx3, Hx4, Hx5.
  repeat split.
Qed.

End ProbeFacts.

(** *** On any log file that takes every write *)

Section AcceptingDisk.

Import Ipc Watcher Probe.

Variable fl : Q -> Q.
Variable disk : Disk.
Hypothesis Hacc : accepts disk.

Lemma bind_ext {A B} (c c' : M A) (k k' : A -> M B) (r : Run) :
  (forall r0, c r0 = c' r0) -> (forall a r0, k a r0 = k' a r0) ->
  bind c k r = bind c' k' r.
Proof.
  intros Hc Hk. unfold bind. rewrite Hc.
  destruct (c' r) as [[a|e|e|] r1]; [apply Hk | reflexivity..].
Qed.

Lemma tryCatch_ext {A} (body body' : M A) (h h' : JsError -> M A) (r : Run) :
  (forall r0, body r0 = body' r0) -> (forall e r0, h e r0 = h' e r0) ->
  tryCatch body h r = tryCatch body' h' r.
Proof.
  intros Hb Hh. unfold tryCatch. rewrite Hb.
  destruct (body' r) as [[a|e|e|] r1]; [reflexivity | apply Hh | reflexivity..].
Qed.

Lemma write_ext (step : LogStep) (r : Run) :
  write disk step r = write reliable step r.
Proof. unfold write, reliable. now rewrite Hacc. Qed.

Lemma writeErrorSummary_ext (r : Run) :
  writeErrorSummary disk r = writeErrorSummary reliable r.
Proof.
  unfold writeErrorSummary, block.
  destruct (errors r), (warnings r); first [reflexivity | apply write_ext].
Qed.

Ltac same :=
  repeat first
    [ reflexivity
    | apply write_ext
    | apply writeErrorSummary_ext
    | apply bind_ext; intros
    | apply tryCatch_ext; intros
    | match goal with
      | |- (if ?b then _ else _) _ = _ => destruct b
      end ].

Lemma stepQueryEndpoints_ext (config : Config) (world : World) (r : Run) :
  stepQueryEndpoints disk config world r = stepQueryEndpoints reliable config world r.
Proof.
  unfold stepQueryEndpoints, appendLog, logWarning, logError, appendDetail, block.
  same.
Qed.

Lemma stepBaseline_ext (world : World) (r : Run) :
  stepBaseline disk world r = stepBaseline reliable world r.
Proof.
  unfold stepBaseline, appendLog, logWarning, logError, appendDetail, block. same.
Qed.

Lemma stepSubscribe_ext (config : Config) (world : World) (r : Run) :
  stepSubscribe disk config world r = stepSubscribe reliable config world r.
Proof.
  unfold stepSubscribe, appendLog, logWarning, logError, appendDetail, block. same.
Qed.

Lemma stepPostCapture_ext (world : World) (beforeListeners : list SocketRecord)
      (r : Run) :
  stepPostCapture disk world beforeListeners r
  = stepPostCapture reliable world beforeListeners r.
Proof.
  unfold stepPostCapture, appendLog, logWarning, logError, appendDetail, block.
  cbv zeta. same.
Qed.

Lemma stepMonitor_ext (config : Config) (world : World) (r : Run) :
  stepMonitor disk fl config world r = stepMonitor reliable fl config world r.
Proof.
  unfold stepMonitor, appendLog, logWarning, logError, appendDetail, block.
  cbv zeta. same.
Qed.

Lemma runProbeOn_ext (config : Config) (world : World) :
  runProbeOn disk fl config world = runProbe fl config world.
Proof.
  unfold runProbe, runProbeOn, onStart.
  unfold appendLog, logError, block.
  repeat first
    [ apply stepQueryEndpoints_ext | apply stepBaseline_ext
    | apply stepSubscribe_ext | apply stepPostCapture_ext | apply stepMonitor_ext
    | apply write_ext | apply writeErrorSummary_ext
    | apply bind_ext; intros | apply tryCatch_ext; intros
    | reflexivity ].
Qed.

End AcceptingDisk.

(** ** The progress values *)

Section ProgressFacts.

Import Ipc Watcher Probe.

Variable fl : Q -> Q.
Hypothesis fl_monotone : forall x y : Q, (x <= y)%Q -> (fl x <= fl y)%Q.
Hypothesis fl_zero : (fl 0 == 0)%Q.

Lemma pollsOf_positive (durationMs : Z) :
  (0 < durationMs)%Z -> (1 <= pollsOf durationMs)%Z.
Proof. unfold pollsOf. intros H. Z.div_mod_to_equations. lia. Qed.

Lemma fl_nonneg (x : Q) : (0 <= x)%Q -> (0 <= fl x)%Q.
Proof. intros H. rewrite <- fl_zero. now apply fl_monotone. Qed.

Lemma ratio_monotone (polls i j : Z) :
  (1 <= polls)%Z -> (i <= j)%Z ->
  (inject_Z i / inject_Z polls <= inject_Z j / inject_Z polls)%Q.
Proof.
  intros Hp Hij. unfold Qdiv. apply Qmult_le_compat_r.
  - now rewrite <- Zle_Qle.
  - apply Qinv_le_0_compat. change 0%Q with (inject_Z 0).
    rewrite <- Zle_Qle. lia.
Qed.

Lemma rounded_monotone (polls i j : Z) :
  (1 <= polls)%Z -> (i <= j)%Z ->
  (round (fl (fl (inject_Z i / inject_Z polls) * 15))
   <= round (fl (fl (inject_Z j / inject_Z polls) * 15)))%Z.
Proof.
  intros Hp Hij. unfold round. apply Qfloor_resp_le.
  apply Qplus_le_compat; [|apply Qle_refl].
  apply fl_monotone. apply Qmult_le_compat_r; [|discriminate].
  apply fl_monotone. now apply ratio_monotone.
Qed.

Lemma rounded_nonneg (polls i : Z) :
  (1 <= polls)%Z -> (0 <= i)%Z ->
  (0 <= round (fl (fl (inject_Z i / inject_Z polls) * 15)))%Z.
Proof.
  intros Hp Hi. unfold round.
  change 0%Z with (Qfloor 0). apply Qfloor_resp_le.
  apply (Qle_trans _ (0 + (1 # 2))); [discriminate|].
  apply Qplus_le_compat; [|apply Qle_refl].
  apply fl_nonneg. apply Qmult_le_0_compat; [|discriminate].
  apply fl_nonneg. unfold Qdiv. apply Qmult_le_0_compat.
  - change 0%Q with (inject_Z 0). now rewrite <- Zle_Qle.
  - apply Qinv_le_0_compat. change 0%Q with (inject_Z 0).
    rewrite <- Zle_Qle. lia.
Qed.

Lemma progressOf_bounds (durationMs i j : Z) :
  (0 < durationMs)%Z -> (1 <= i <= j)%Z ->
  num_le (Num 75) (progressOf fl durationMs i)
  /\ num_le (progressOf fl durationMs i) (progressOf fl durationMs j).
Proof.
  intros Hd [Hi Hij]. pose proof (pollsOf_positive durationMs Hd) as Hp.
  unfold progressOf.
  destruct (Z.eqb_spec (pollsOf durationMs) 0) as [H0|_]; [lia|].
  cbn [num_le].
  pose proof (rounded_nonneg (pollsOf durationMs) i Hp ltac:(lia)).
  pose proof (rounded_monotone (pollsOf durationMs) i j Hp Hij).
  lia.
Qed.

Lemma ticks_sorted (durationMs : Z) (n a : nat) :
  (0 < durationMs)%Z -> (1 <= a)%nat ->
  StronglySorted num_le
    (map (fun j => progressOf fl durationMs (Z.of_nat j)) (seq a n)).
Proof.
  intros Hd. revert a. induction n as [|n IH]; intros a Ha; cbn [seq map].
  - constructor.
  - constructor; [apply IH; lia|].
    apply Forall_forall. intros p Hp.
    apply list_elem_of_In, in_map_iff in Hp as (j & <- & Hj).
    apply in_seq in Hj. apply progressOf_bounds; [exact Hd | lia].
Qed.

Lemma completed_progress_sorted :
  StronglySorted num_le
    ([Num 10; Num 25; Num 45; Num 65; Num 75]
     ++ map (fun j => progressOf fl 30000 (Z.of_nat j)) (seq 1 15)).
Proof.
  assert (Hafter : Forall (num_le (Num 75))
            (map (fun j => progressOf fl 30000 (Z.of_nat j)) (seq 1 15))).
  { apply Forall_forall. intros p Hp.
    apply list_elem_of_In, in_map_iff in Hp as (j & <- & Hj).
    apply in_seq in Hj. apply (progressOf_bounds 30000 (Z.of_nat j) (Z.of_nat j)); lia. }
  assert (Hlift : forall c : Z, (c <= 75)%Z ->
            Forall (num_le (Num c))
              (map (fun j => progressOf fl 30000 (Z.of_nat j)) (seq 1 15))).
  { intros c Hc. eapply Forall_impl; [exact Hafter|].
    intros [| z |]; cbn; try tauto; lia. }
  cbn [app].
  repeat (constructor;
          [| repeat (apply Forall_cons; split; [cbn; lia|]);
             first [apply Hlift; lia | exact Hafter]]).
  apply ticks_sorted; lia.
Qed.

End ProgressFacts.

(** ** The number of polls *)

Section PollCount.

Import Watcher.

Lemma ticksNeeded_pinned (durationMs : Z) :
  ((durationMs <= 0)%Z -> ticksNeeded durationMs = 1%Z)
  /\ ((0 < durationMs)%Z ->
      (2000 * (ticksNeeded durationMs - 1) < durationMs
       <= 2000 * ticksNeeded durationMs)%Z).
Proof.
  unfold ticksNeeded, pollsOf. split; intros H; Z.div_mod_to_equations; lia.
Qed.

Lemma execs_pinned (durationMs : Z) (n : nat) :
  n = Z.to_nat (ticksNeeded durationMs) ->
  ((durationMs <= 0)%Z -> n = 1%nat)
  /\ ((0 < durationMs)%Z ->
      (2000 * (Z.of_nat n - 1) < durationMs <= 2000 * Z.of_nat n)%Z).
Proof.
  intros ->. destruct (ticksNeeded_pinned durationMs) as [Hle Hpos].
  split; intros H.
  - now rewrite (Hle H).
  - specialize (Hpos H). lia.
Qed.

(** [fl] rounds to the nearest double: it is monotone, and it leaves
    unchanged the numbers m / 2048 with |m| <= 2^53, which are
    doubles. *)
Variable fl : Q -> Q.
Hypothesis fl_monotone : forall x y : Q, (x <= y)%Q -> (fl x <= fl y)%Q.
Hypothesis fl_grid :
  forall m : Z, (Z.abs m <= 2 ^ 53)%Z -> (fl (m # 2048) == m # 2048)%Q.

Lemma Qceiling_between (z : Q) (c : Z) :
  (inject_Z (c - 1) < z)%Q -> (z <= inject_Z c)%Q -> Qceiling z = c.
Proof.
  intros Hlo Hhi.
  pose proof (Qle_ceiling z) as Hup. pose proof (Qceiling_lt z) as Hdown.
  assert (H1 : (inject_Z (c - 1) < inject_Z (Qceiling z))%Q)
    by (eapply Qlt_le_trans; eassumption).
  assert (H2 : (inject_Z (Qceiling z - 1) < inject_Z c)%Q)
    by (eapply Qlt_le_trans; eassumption).
  rewrite <- Zlt_Qlt in H1, H2. lia.
Qed.

(** [Math.ceil(durationMs / 2000)], the quotient being rounded to a
    double, is the ceiling of the exact quotient for the durations up
    to 2^52 ms: the quotient is an integer or lies at least 1/2000 away
    from the integer below it, and a double lies in between. *)
Lemma pollsOf_is_the_rounded_ceiling (durationMs : Z) :
  (Z.abs durationMs <= 2 ^ 52)%Z ->
  Qceiling (fl (inject_Z durationMs / 2000)) = pollsOf durationMs.
Proof.
  intros Hd. change (2 ^ 52)%Z with 4503599627370496%Z in Hd.
  set (c := pollsOf durationMs).
  assert (Hc : (2000 * (c - 1) < durationMs <= 2000 * c)%Z).
  { unfold c, pollsOf. Z.div_mod_to_equations. lia. }
  assert (Hgrid : forall m : Z,
             (Z.abs m <= 9007199254740992)%Z -> (fl (m # 2048) == m # 2048)%Q).
  { intros m Hm. apply fl_grid. now change (2 ^ 53)%Z with 9007199254740992%Z. }
  apply Qceiling_between.
  - apply (Qlt_le_trans _ (((c - 1) * 2048 + 1) # 2048)).
    + unfold Qlt, inject_Z. cbn [Qnum Qden]. lia.
    + rewrite <- (Hgrid ((c - 1) * 2048 + 1)%Z) by lia.
      apply fl_monotone. unfold Qle, Qdiv, Qmult, Qinv, inject_Z.
      cbn [Qnum Qden Pos.mul]. lia.
  - apply (Qle_trans _ ((c * 2048) # 2048)).
    + rewrite <- (Hgrid (c * 2048)%Z) by lia.
      apply fl_monotone. unfold Qle, Qdiv, Qmult, Qinv, inject_Z.
      cbn [Qnum Qden Pos.mul]. lia.
    + unfold Qle, inject_Z. cbn [Qnum Qden]. lia.
Qed.

End PollCount.

Lemma reliable_accepts : Probe.accepts Probe.reliable.
Proof. intros h s. reflexivity. Qed.

(** C4, as stated, fails on a run whose last write to the log file
    fails: [appendLog('Probe finished successfully')]
    throws after the final result has been sent, inside the [try], and
    the [catch] then records the error, sends an [error] message and
    exits with code 1.  When the first write fails, before the [try],
    the handler is left with neither a result nor an [error]
    message. *)
Lemma a_final_result_and_then_an_error :
  (let run := Probe.runProbeOn Probe.fullAtLast (fun q => q) Probe.plainConfig
                               Probe.quietWorld in
   fst run = Probe.Normal 1%Z
   /\ length (Probe.finals (Probe.messages (snd run))) = 1%nat
   /\ Probe.errorEvents (Probe.messages (snd run))
      = ["Error: ENOSPC: no space left on device, write"]
   /\ Probe.errors (snd run)
      = [Probe.mkErrorRecord "Probe Execution"
           "ENOSPC: no space left on device, write" "Error"
           "Error: ENOSPC: no space left on device, write"])
  /\ (let run := Probe.runProbeOn Probe.fullAtFirst (fun q => q) Probe.plainConfig
                                  Probe.quietWorld in
      fst run = Probe.Abrupt Probe.noSpace
      /\ Probe.finals (Probe.messages (snd run)) = []
      /\ Probe.errorEvents (Probe.messages (snd run)) = []).
Proof. vm_compute. repeat split. Qed.

(** C4.  On a log file that takes every write: when endpoint discovery
    fails, the worker invokes no other collaborator (the baseline
    capture, the subscription, the second capture and the monitoring
    do not run); it reports the progress value 10 only and no partial
    result; it records the error twice, under "Endpoint Query" and
    under "Probe Execution", each record carrying the message of the
    error (or its text when the message is empty), its name (or
    "Error") and its text; it sends one [error] message with that
    text, no final result, and exits with code 1.  Every run on such a
    log file ends, either with code 0, one final result and no [error]
    message, or with code 1, one [error] message and no final
    result. *)
Theorem discovery_failure_is_fatal (fl : Q -> Q) (disk : Probe.Disk)
        (config : Probe.Config) (world : Probe.World) :
  Probe.accepts disk ->
  (forall (url : string) (e : JsError),
      normalizeEndpoint (Probe.server config) (Probe.port config) = Ok url ->
      Probe.discovery world = Throw e ->
      exists r,
        Probe.runProbeOn disk fl config world = (Probe.Normal 1%Z, r)
        /\ Probe.calls r = [Probe.QueryEndpoints]
        /\ Probe.progressValues (Probe.messages r) = [Ipc.Num 10]
        /\ Probe.partials (Probe.messages r) = []
        /\ Probe.finals (Probe.messages r) = []
        /\ Probe.errorEvents (Probe.messages r) = [String_of_error e]
        /\ Probe.errors r
           = [Probe.mkErrorRecord "Endpoint Query"
                (if String.eqb (err_message e) "" then String_of_error e
                 else err_message e)
                (if String.eqb (err_name e) "" then "Error" else err_name e)
                (String_of_error e);
              Probe.mkErrorRecord "Probe Execution"
                (if String.eqb (err_message e) "" then String_of_error e
                 else err_message e)
                (if String.eqb (err_name e) "" then "Error" else err_name e)
                (String_of_error e)])
  /\ (exists (code : Z) (r : Probe.Run),
        Probe.runProbeOn disk fl config world = (Probe.Normal code, r)
        /\ ((code = 0%Z /\ length (Probe.finals (Probe.messages r)) = 1%nat
             /\ Probe.errorEvents (Probe.messages r) = [])
            \/ (code = 1%Z /\ Probe.finals (Probe.messages r) = []
                /\ length (Probe.errorEvents (Probe.messages r)) = 1%nat))).
Proof.
  intros Hacc. rewrite (runProbeOn_ext fl disk Hacc config world). split.
  - intros url e Hn Hd.
    destruct (runProbe_discovery_error fl config world url e Hn Hd)
      as (r & Hrun & Hm & He & Hw & Hc).
    exists r. rewrite Hm, He, Hc. repeat split. exact Hrun.
  - destruct (normalizeEndpoint (Probe.server config) (Probe.port config))
      as [url|e] eqn:Hn.
    + destruct (Probe.discovery world) as [endpoints|e] eqn:Hd.
      * destruct (runProbe_completed fl config world url endpoints Hn Hd)
          as (r & final & Hrun & _ & _ & Hf & Hx & _).
        exists 0%Z, r. split; [exact Hrun|]. left. now rewrite Hf, Hx.
      * destruct (runProbe_discovery_error fl config world url e Hn Hd)
          as (r & Hrun & Hm & _).
        exists 1%Z, r. split; [exact Hrun|]. right. now rewrite Hm.
    + destruct (runProbe_config_error fl config world e Hn)
        as (r & Hrun & Hm & _).
      exists 1%Z, r. split; [exact Hrun|]. right. now rewrite Hm.
Qed.

Lemma discovery_failure_is_fatal_witness :
  exists r,
    Probe.runProbeOn Probe.reliable (fun q => q) Probe.plainConfig
                     Probe.unreachableWorld
    = (Probe.Normal 1%Z, r)
    /\ Probe.calls r = [Probe.QueryEndpoints]
    /\ Probe.progressValues (Probe.messages r) = [Ipc.Num 10]
    /\ Probe.partials (Probe.messages r) = []
    /\ Probe.finals (Probe.messages r) = []
    /\ Probe.errorEvents (Probe.messages r)
       = ["Error: connect ECONNREFUSED 10.0.0.5:4840"]
    /\ Probe.errors r
       = [Probe.mkErrorRecord "Endpoint Query"
            "connect ECONNREFUSED 10.0.0.5:4840" "Error"
            "Error: connect ECONNREFUSED 10.0.0.5:4840";
          Probe.mkErrorRecord "Probe Execution"
            "connect ECONNREFUSED 10.0.0.5:4840" "Error"
            "Error: connect ECONNREFUSED 10.0.0.5:4840"].
Proof.
  apply (proj1 (discovery_failure_is_fatal (fun q => q) Probe.reliable
                  Probe.plainConfig Probe.unreachableWorld reliable_accepts)
               "opc.tcp://10.0.0.5:4840" Probe.refused).
  - vm_compute. reflexivity.
  - reflexivity.
Defined.

(** C9.  Provided that rounding to a double is monotone and leaves 0
    unchanged, the progress values of every run are in non-decreasing
    order; a run that passes endpoint discovery reports 10, 25, 45, 65
    and 75 in this order, followed by the values of the fifteen ticks;
    and for every positive duration the value of a tick,
    75 + round((i / polls) * 15), is at least 75 and does not decrease
    with the tick index. *)
Theorem progress_never_decreases (fl : Q -> Q) :
  (forall x y : Q, (x <= y)%Q -> (fl x <= fl y)%Q) ->
  (fl 0 == 0)%Q ->
  (forall (config : Probe.Config) (world : Probe.World),
      StronglySorted Ipc.num_le
        (Probe.progressValues (Probe.messages (snd (Probe.runProbe fl config world)))))
  /\ (forall (config : Probe.Config) (world : Probe.World) (url : string)
             (endpoints : list Ipc.EndpointDescription),
        normalizeEndpoint (Probe.server config) (Probe.port config) = Ok url ->
        Probe.discovery world = Ok endpoints ->
        Probe.progressValues (Probe.messages (snd (Probe.runProbe fl config world)))
        = [Ipc.Num 10; Ipc.Num 25; Ipc.Num 45; Ipc.Num 65; Ipc.Num 75]
          ++ map (fun j => Watcher.progressOf fl 30000 (Z.of_nat j)) (seq 1 15))
  /\ (forall durationMs i j : Z,
        (0 < durationMs)%Z -> (1 <= i <= j)%Z ->
        Ipc.num_le (Ipc.Num 75) (Watcher.progressOf fl durationMs i)
        /\ Ipc.num_le (Watcher.progressOf fl durationMs i)
                      (Watcher.progressOf fl durationMs j)).
Proof.
  intros Hmono Hzero. split; [|split].
  - intros config world.
    destruct (normalizeEndpoint (Probe.server config) (Probe.port config))
      as [url|e] eqn:Hn.
    + destruct (Probe.discovery world) as [endpoints|e] eqn:Hd.
      * destruct (runProbe_completed fl config world url endpoints Hn Hd)
          as (r & final & Hrun & Hp & _).
        rewrite Hrun. cbn [snd]. rewrite Hp.
        now apply completed_progress_sorted.
      * destruct (runProbe_discovery_error fl config world url e Hn Hd)
          as (r & Hrun & Hm & _).
        rewrite Hrun. cbn [snd]. rewrite Hm. repeat constructor.
    + destruct (runProbe_config_error fl config world e Hn)
        as (r & Hrun & Hm & _).
      rewrite Hrun. cbn [snd]. rewrite Hm. repeat constructor.
  - intros config world url endpoints Hn Hd.
    destruct (runProbe_completed fl config world url endpoints Hn Hd)
      as (r & final & Hrun & Hp & _).
    now rewrite Hrun.
  - intros durationMs i j. now apply progressOf_bounds.
Qed.

Lemma progress_never_decreases_witness :
  StronglySorted Ipc.num_le
    (Probe.progressValues
       (Probe.messages (snd (Probe.runProbe (fun q => q) Probe.plainConfig
                                            Probe.quietWorld)))).
Proof.
  apply (proj1 (progress_never_decreases (fun q => q)
                  (fun x y H => H) (Qeq_refl 0))).
Defined.

(** C10, as stated, fails for a duration of zero:
    [polls] is [Math.ceil(0 / 2000)], that is 0, and yet the first
    tick issues a poll before it tests [i >= polls]. *)
Lemma zero_duration_still_polls_once :
  Qceiling (inject_Z 0 / 2000)%Q = 0%Z
  /\ Watcher.pollsOf 0 = 0%Z
  /\ (st <- Watcher.monitorConnectionAttempts (fun q => q) None (PortNumber 4840)
                                              0 [] ;;;
      Ok (Watcher.execs st, Watcher.resolved st))%jsres
     = Ok (1%nat, Some []).
Proof. vm_compute. repeat split. Qed.

(** C10.  When the target handed to [monitorConnectionAttempts] is
    null or the empty string, then for every duration of at most 2^52
    ms in absolute value, every [netstat] output and every order of
    the callbacks: the call raises nothing and its promise is
    fulfilled; one poll has been issued per tick, and their number n
    is the ceiling of durationMs / 2000 for a positive duration, that
    is 2000 (n - 1) < durationMs <= 2000 n, and one for a duration of
    zero or less; it is max(1, [Math.ceil(durationMs / 2000)]) when the
    rounding of the quotient to a double is monotone and leaves the
    doubles m / 2048 unchanged; the promise is fulfilled with the
    empty sequence; only progress messages were sent; and the array
    stays empty whatever runs afterwards.  In the handler, when the
    host extracted from the configured server is null or empty and the
    log file takes every write, the monitoring stage ends normally
    with the empty sequence and records neither an error nor a
    warning. *)
Theorem missing_target_records_nothing (fl : Q -> Q) :
  (forall (serverIp : option string) (serverPort : JsPort) (durationMs : Z)
          (sched : list Watcher.Event),
      truthy serverIp = false ->
      (Z.abs durationMs <= 2 ^ 52)%Z ->
      exists st,
        Watcher.monitorConnectionAttempts fl serverIp serverPort durationMs sched
        = Ok st
        /\ ((durationMs <= 0)%Z -> Watcher.execs st = 1%nat)
        /\ ((0 < durationMs)%Z ->
            (2000 * (Z.of_nat (Watcher.execs st) - 1) < durationMs
             <= 2000 * Z.of_nat (Watcher.execs st))%Z)
        /\ ((forall x y : Q, (x <= y)%Q -> (fl x <= fl y)%Q) ->
            (forall m : Z, (Z.abs m <= 2 ^ 53)%Z -> (fl (m # 2048) == m # 2048)%Q) ->
            Z.of_nat (Watcher.execs st)
            = Z.max 1 (Qceiling (fl (inject_Z durationMs / 2000)%Q)))
        /\ Watcher.resolved st = Some []
        /\ Probe.progressValues (Watcher.sent st)
           = map (fun j => Watcher.progressOf fl durationMs (Z.of_nat j))
                 (seq 1 (Watcher.execs st))
        /\ length (Watcher.sent st) = Watcher.execs st
        /\ forall (later : list Watcher.Event) (st' : Watcher.State),
            Watcher.runEvents fl serverIp durationMs st later = Ok st' ->
            Watcher.found st' = [])
  /\ (forall (disk : Probe.Disk) (config : Probe.Config) (world : Probe.World)
             (r : Probe.Run),
        Probe.accepts disk ->
        truthy (extractHostFromEndpoint (Probe.URL_hostname world)
                                        (Probe.server config)) = false ->
        exists r' ms,
          Probe.stepMonitor disk fl config world r = (Probe.Normal [], r')
          /\ Probe.extends r r' ms [] [] [Probe.Monitor]
          /\ Probe.errorEvents ms = []).
Proof.
  split.
  - intros serverIp serverPort durationMs sched Hfalsy Hbound.
    destruct (monitor_settles fl serverIp serverPort durationMs sched)
      as (st & Hst & Hres & _ & _ & Hexecs & _ & Hsent).
    assert (Hfound : Watcher.found st = []).
    { unfold Watcher.monitorConnectionAttempts in Hst.
      now apply drive_found_falsy in Hst. }
    destruct (execs_pinned durationMs (Watcher.execs st) Hexecs) as [Hle Hpos].
    exists st. split; [exact Hst|]. split; [exact Hle|]. split; [exact Hpos|].
    split; [|split; [|split; [|split]]].
    + intros Hmono Hgrid.
      rewrite (pollsOf_is_the_rounded_ceiling fl Hmono Hgrid durationMs Hbound).
      rewrite Hexecs. unfold Watcher.ticksNeeded. lia.
    + now rewrite Hres, Hfound.
    + rewrite Hsent, <- Hexecs. apply ticksSent_progress.
    + rewrite Hsent, <- Hexecs. unfold Watcher.ticksSent.
      now rewrite length_map, length_seq.
    + intros later st' Hlater.
      apply runEvents_found_falsy in Hlater; [|exact Hfalsy]. congruence.
  - intros disk config world r Hacc Hfalsy.
    rewrite (stepMonitor_ext fl disk Hacc config world r).
    destruct (stepMonitor_spec fl config world r)
      as (connections & r' & ms & Hrun & Hext & _ & _ & _ & Herr & Hempty).
    rewrite (Hempty Hfalsy) in Hrun. now exists r', ms.
Qed.

Lemma missing_target_records_nothing_witness :
  exists st,
    Watcher.monitorConnectionAttempts (fun q => q) None (PortNumber 4840) 6000
                                      Watcher.threePolls = Ok st
    /\ ((6000 <= 0)%Z -> Watcher.execs st = 1%nat)
    /\ ((0 < 6000)%Z ->
        (2000 * (Z.of_nat (Watcher.execs st) - 1) < 6000
         <= 2000 * Z.of_nat (Watcher.execs st))%Z)
    /\ ((forall x y : Q, (x <= y)%Q -> (x <= y)%Q) ->
        (forall m : Z, (Z.abs m <= 2 ^ 53)%Z -> (m # 2048 == m # 2048)%Q) ->
        Z.of_nat (Watcher.execs st) = Z.max 1 (Qceiling (inject_Z 6000 / 2000)%Q))
    /\ Watcher.resolved st = Some []
    /\ Probe.progressValues (Watcher.sent st)
       = map (fun j => Watcher.progressOf (fun q => q) 6000 (Z.of_nat j))
             (seq 1 (Watcher.execs st))
    /\ length (Watcher.sent st) = Watcher.execs st
    /\ forall (later : list Watcher.Event) (st' : Watcher.State),
        Watcher.runEvents (fun q => q) None 6000 st later = Ok st' ->
        Watcher.found st' = [].
Proof.
  apply (proj1 (missing_target_records_nothing (fun q => q))
               None (PortNumber 4840) 6000%Z Watcher.threePolls).
  - reflexivity.
  - vm_compute. discriminate.
Defined.

(* ================================================================== *)
(** * Part III: further properties                                     *)
(* ================================================================== *)

(** ** Addresses, keys and header lines *)

Section AddressFacts.

Lemma lastIndexOf_Some (c : ascii) (s : string) (idx : nat) :
  lastIndexOf c s = Some idx ->
  s = substringTo idx s +:+ String c (sliceFrom (S idx) s)
  /\ all_chars (fun d => negb (Ascii.eqb d c)) (sliceFrom (S idx) s) = true.
Proof.
  revert idx. induction s as [|d s IH]; intros idx; [discriminate|].
  cbn [lastIndexOf]. destruct (lastIndexOf c s) as [i|] eqn:Hlast.
  - intros [= <-]. destruct (IH i eq_refl) as [Heq Hno].
    change (sliceFrom (S (S i)) (String d s)) with (sliceFrom (S i) s).
    change (substringTo (S i) (String d s)) with (String d (substringTo i s)).
    rewrite app_cons, <- Heq. now split.
  - destruct (Ascii.eqb_spec d c) as [->|Hne]; [|discriminate].
    intros [= <-].
    change (sliceFrom 1 (String c s)) with s.
    split; [reflexivity | now apply lastIndexOf_None].
Qed.

Lemma splitAtLastColon_cases (text : string) :
  all_chars (fun d => negb (Ascii.eqb d ":")) (snd (splitAtLastColon text)) = true
  /\ ((text = fst (splitAtLastColon text) +:+ ":" +:+ snd (splitAtLastColon text)
       /\ all_chars (fun d => negb (Ascii.eqb d ":")) text = false)
      \/ (all_chars (fun d => negb (Ascii.eqb d ":")) text = true
          /\ splitAtLastColon text = (text, ""))).
Proof.
  unfold splitAtLastColon. destruct (lastIndexOf ":" text) as [idx|] eqn:Hlast.
  - destruct (lastIndexOf_Some ":" text idx Hlast) as [Heq Hno].
    cbn [fst snd]. split; [exact Hno|]. left. split; [exact Heq|].
    destruct (all_chars _ text) eqn:Hall; [|reflexivity].
    apply lastIndexOf_None in Hall. congruence.
  - cbn [fst snd]. split; [reflexivity|]. right.
    split; [now apply lastIndexOf_None | reflexivity].
Qed.

Lemma skipn_short {A} (n : nat) (l : list A) : (length l <= n)%nat -> skipn n l = [].
Proof. intros H. now apply skipn_all2. Qed.

End AddressFacts.

(** X1.  [parseAddressPort] on a text never fails; the port it returns
    contains no colon; when the text contains a colon, address, colon
    and port put together give the text back; when it contains none,
    the address is the whole text and the port is empty. *)
Theorem parseAddressPort_rejoins (text : string) :
  exists addr port,
    parseAddressPort (Some text) = Ok (addr, port)
    /\ all_chars (fun d => negb (Ascii.eqb d ":")) port = true
    /\ ((text = addr +:+ ":" +:+ port
         /\ all_chars (fun d => negb (Ascii.eqb d ":")) text = false)
        \/ (all_chars (fun d => negb (Ascii.eqb d ":")) text = true
            /\ addr = text /\ port = "")).
Proof.
  exists (fst (splitAtLastColon text)), (snd (splitAtLastColon text)).
  destruct (splitAtLastColon_cases text) as [Hport Hcases].
  split; [cbn; now destruct (splitAtLastColon text)|].
  split; [exact Hport|].
  destruct Hcases as [H|[Hall Heq]]; [now left|].
  right. rewrite Heq. auto.
Qed.

(** X2.  The key under which the comparison of step 4 files a socket
    returned by [getListeningPorts] is the local-address column of its
    row, verbatim, when that column contains a colon, and the column
    followed by a colon otherwise. *)
Theorem listener_keys_are_local_columns (stdout : string) :
  exists listeners,
    parseListeners stdout = Ok listeners
    /\ map portKey listeners
       = map (fun parts =>
                let local := orEmpty (parts !! 1%nat) in
                if all_chars (fun d => negb (Ascii.eqb d ":")) local
                then local +:+ ":" else local)
             (List.filter acceptedRow (rows stdout)).
Proof.
  eexists. split; [apply parseListeners_rows|].
  rewrite map_map. apply map_ext. intros parts. cbn zeta.
  unfold portKey, socketOfRow. cbn [localAddress localPort].
  destruct (splitAtLastColon_cases (orEmpty (parts !! 1%nat)))
    as [_ [[Heq Hall]|[Hall Heq]]].
  - rewrite Hall. now rewrite <- Heq.
  - rewrite Hall, Heq. reflexivity.
Qed.

(** X3.  The first four lines of the [netstat] output are never
    parsed: an output of at most four lines, the empty output among
    them, gives no listening socket and no connection attempt, whatever
    these lines hold. *)
Theorem header_lines_are_skipped (stdout : string) :
  (length (splitLines stdout) <= 4)%nat ->
  parseListeners stdout = Ok []
  /\ forall (serverIp : option string) (now : string) (err : option JsError)
            (found : list Ipc.ConnectionAttempt),
      Watcher.onNetstat serverIp now (mkExec err stdout) found = Ok found.
Proof.
  intros Hshort.
  assert (Hdata : dataLines stdout = []).
  { unfold dataLines. now rewrite skipn_short. }
  split.
  - unfold parseListeners. now rewrite Hdata.
  - intros serverIp now err found. unfold Watcher.onNetstat. cbn [exec_err exec_stdout].
    destruct err; [reflexivity|]. rewrite Hdata. now destruct (negb _).
Qed.

Lemma header_lines_are_skipped_witness :
  parseListeners ("Proto Local Foreign State PID" +:+ LF
                  +:+ "TCP 0.0.0.0:135 0.0.0.0:0 LISTENING 4") = Ok [].
Proof.
  apply (header_lines_are_skipped
           ("Proto Local Foreign State PID" +:+ LF
            +:+ "TCP 0.0.0.0:135 0.0.0.0:0 LISTENING 4")).
  vm_compute. lia.
Defined.

(** ** The comparison of the two snapshots, once more *)

Section ComparisonFacts.

Lemma filter_own_elements (S : list string) : filter (fun p : string => p ∉ S) S = [].
Proof.
  assert (H : forall l, (forall x, x ∈ l -> x ∈ S) ->
                        filter (fun p : string => p ∉ S) l = []).
  { induction l as [|x l IH]; intros Hsub; [reflexivity|].
    rewrite filter_cons_False.
    - apply IH. intros y Hy. apply Hsub. now apply elem_of_cons; right.
    - intros Hx. apply Hx, Hsub. now apply elem_of_cons; left. }
  now apply H.
Qed.

End ComparisonFacts.

(** X4.  Exchanging the two snapshots exchanges the new and the
    removed keys and negates [netChange]; no key is both new and
    removed; and a snapshot compared with itself shows no new key, no
    removed key and a change of 0. *)
Theorem comparison_is_antisymmetric (a b : list SocketRecord) :
  newPorts (comparison a b) = removedPorts (comparison b a)
  /\ removedPorts (comparison a b) = newPorts (comparison b a)
  /\ netChange (comparison b a) = (- netChange (comparison a b))%Z
  /\ (forall k, k ∈ newPorts (comparison a b) ->
                k ∈ removedPorts (comparison a b) -> False)
  /\ comparison a a = mkComparison [] [] 0.
Proof.
  unfold comparison. cbn [newPorts removedPorts netChange].
  split; [reflexivity|]. split; [reflexivity|]. split; [lia|]. split.
  - intros k [Hin Hnot]%list_elem_of_filter [Hin' Hnot']%list_elem_of_filter.
    contradiction.
  - now rewrite filter_own_elements, Z.sub_diag.
Qed.

(** ** The endpoint, once more *)

Section EndpointFixedPoint.

Lemma trimStart_fixed (s : string) : headIsWs s = false -> trimStart s = s.
Proof. destruct s as [|c s]; [reflexivity|]. cbn. now intros ->. Qed.

Lemma trimEnd_fixed (s : string) : lastIsWs s = false -> trimEnd s = s.
Proof.
  induction s as [|c s IH]; [reflexivity|]. cbn [lastIsWs trimEnd].
  destruct (String.eqb s "") eqn:He.
  - apply eqb_empty in He. subst s. cbn. now intros ->.
  - intros Hlast. rewrite (IH Hlast), He. now rewrite andb_false_r.
Qed.

Lemma trim_fixed (s : string) :
  headIsWs s = false -> lastIsWs s = false -> trim s = s.
Proof.
  intros Hh Hl. unfold trim. rewrite (trimStart_fixed s Hh). now apply trimEnd_fixed.
Qed.

Lemma app_nonempty_r (a b : string) : b <> "" -> a +:+ b <> "".
Proof. destruct a; [now rewrite app_nil_s | now rewrite app_cons]. Qed.

Lemma lastIsWs_app (a b : string) : b <> "" -> lastIsWs (a +:+ b) = lastIsWs b.
Proof.
  intros Hb. induction a as [|c a IH]; [reflexivity|].
  rewrite app_cons. cbn [lastIsWs].
  pose proof (app_nonempty_r a b Hb) as Hne. apply eqb_nonempty in Hne.
  now rewrite Hne.
Qed.

Lemma digit_is_not_ws (c : ascii) : is_digit c = true -> is_ws c = false.
Proof.
  unfold is_digit, is_ws. intros [H1 H2]%andb_true_iff.
  apply Nat.leb_le in H1. apply Nat.leb_le in H2.
  repeat match goal with
         | |- context [(?x <=? ?y)%nat] => destruct (Nat.leb_spec x y)
         | |- context [(?x =? ?y)%nat] => destruct (Nat.eqb_spec x y)
         end; try reflexivity; lia.
Qed.

Lemma digits_last_not_ws (d : string) :
  all_chars is_digit d = true -> lastIsWs d = false.
Proof.
  induction d as [|c d IH]; [reflexivity|]. cbn [all_chars lastIsWs].
  intros [Hc Hd]%andb_true_iff. destruct (String.eqb d "").
  - now apply digit_is_not_ws.
  - now apply IH.
Qed.

Lemma pretty_N_go_digits (x : N) (s : string) :
  all_chars is_digit s = true -> all_chars is_digit (pretty_N_go x s) = true.
Proof.
  revert s. induction (N.lt_wf_0 x) as [x _ IH]; intros s Hs.
  destruct (N.eq_dec x 0%N) as [->|Hx]; [now rewrite pretty_N_go_0|].
  rewrite pretty_N_go_step by lia. apply IH.
  - apply N.div_lt; lia.
  - cbn [all_chars]. rewrite Hs, andb_true_r.
    unfold pretty_N_char. now repeat case_match.
Qed.

Lemma pretty_N_go_nonempty (x : N) (s : string) :
  s <> "" -> pretty_N_go x s <> "".
Proof.
  revert s. induction (N.lt_wf_0 x) as [x _ IH]; intros s Hs.
  destruct (N.eq_dec x 0%N) as [->|Hx]; [now rewrite pretty_N_go_0|].
  rewrite pretty_N_go_step by lia. apply IH; [apply N.div_lt; lia | discriminate].
Qed.

Lemma pretty_positive_digits (n : Z) :
  (0 < n)%Z ->
  pretty n <> "" /\ all_chars is_digit (pretty n) = true.
Proof.
  destruct n as [|p|p]; try lia. intros _.
  unfold pretty, pretty_Z, pretty, pretty_positive, pretty, pretty_N.
  destruct (decide (N.pos p = 0%N)) as [H|_]; [discriminate|]. split.
  - rewrite pretty_N_go_step by lia. apply pretty_N_go_nonempty. discriminate.
  - now apply pretty_N_go_digits.
Qed.

End EndpointFixedPoint.

(** X5.  An endpoint already in the form opc.tcp://host:digits, with a
    non-empty host free of line breaks, is a fixed point of
    [normalizeEndpoint] when no port is supplied, and only has its port
    replaced when one is (a number being taken up to 2^53 in absolute
    value, where its text is its decimal writing); the text of a port
    number from 1 to 2^53 is such a run of digits, so that the
    endpoints produced for numeric ports normalise to themselves. *)
Theorem normal_form_is_a_fixed_point (host digits : string) (port : JsPort) :
  host <> "" ->
  all_chars (fun c => negb (is_line_terminator c)) host = true ->
  digits <> "" ->
  all_chars is_digit digits = true ->
  (forall n : Z, port = PortNumber n -> (Z.abs n <= 2 ^ 53)%Z) ->
  normalizeEndpoint (Some (scheme +:+ host +:+ ":" +:+ digits)) port
  = Ok (scheme +:+ host +:+ ":" +:+
        (if port_falsy port then digits else port_text port))
  /\ forall n : Z, (0 < n <= 2 ^ 53)%Z ->
       port_text (PortNumber n) <> ""
       /\ all_chars is_digit (port_text (PortNumber n)) = true.
Proof.
  intros Hhost Hlt Hdne Hdig _.
  split; [|intros n [Hn _]; now apply pretty_positive_digits].
  set (rest := host +:+ ":" +:+ digits).
  assert (Htrim : trim (scheme +:+ rest) = scheme +:+ rest).
  { apply trim_fixed; [reflexivity|].
    unfold rest. rewrite !lastIsWs_app.
    - now apply digits_last_not_ws.
    - exact Hdne.
    - now apply app_nonempty_r.
    - apply app_nonempty_r. now apply app_nonempty_r. }
  assert (Hstrip : stripScheme (scheme +:+ rest) = rest).
  { unfold stripScheme.
    assert (startsWith scheme (toLowerCase (scheme +:+ rest)) = true) as ->.
    { apply startsWith_spec. exists (toLowerCase rest).
      now rewrite toLowerCase_app. }
    apply sliceFrom_app. }
  assert (Hmatch : hostPortMatch rest = Some (host, digits)).
  { apply hostPortMatch_complete. unfold isHostDigits, rest. auto. }
  unfold normalizeEndpoint, hostAndPort. cbn [truthy orEmpty negb].
  assert (String.eqb (scheme +:+ rest) "" = false) as -> by reflexivity.
  cbn [negb]. rewrite Htrim, Hstrip, Hmatch. cbn [fst snd].
  destruct (port_falsy port) eqn:Hp.
  - cbn [port_falsy port_text]. apply eqb_nonempty in Hdne. now rewrite Hdne.
  - now rewrite Hp.
Qed.

Lemma normal_form_is_a_fixed_point_witness :
  normalizeEndpoint (Some (scheme +:+ "plc-7" +:+ ":" +:+ "4841")) (PortNumber 4842)
  = Ok (scheme +:+ "plc-7" +:+ ":" +:+ "4842").
Proof.
  apply (normal_form_is_a_fixed_point "plc-7" "4841" (PortNumber 4842));
    first [discriminate | reflexivity | idtac].
  intros n [= <-]. vm_compute. discriminate.
Defined.

(** ** The host of the endpoint *)

Section ExtractHostFacts.

Lemma prefix_cons (a b : ascii) (p s : string) :
  String.prefix (String a p) (String b s) = Ascii.eqb a b && String.prefix p s.
Proof.
  cbn [String.prefix]. destruct (ascii_dec a b) as [->|Hne].
  - now rewrite Ascii.eqb_refl.
  - apply Ascii.eqb_neq in Hne. now rewrite Hne.
Qed.

Lemma prefix_empty (s : string) : String.prefix "" s = true.
Proof. now destruct s. Qed.

(** The two ways in which the worker tests for the scheme, through
    [toLowerCase] and through the [i] flag, agree on every code unit
    of the scheme. *)
Lemma scheme_char_agree (c : ascii) :
  Ascii.eqb "o" (lower_char c) = Ascii.eqb "O" (canon_char c)
  /\ Ascii.eqb "p" (lower_char c) = Ascii.eqb "P" (canon_char c)
  /\ Ascii.eqb "c" (lower_char c) = Ascii.eqb "C" (canon_char c)
  /\ Ascii.eqb "t" (lower_char c) = Ascii.eqb "T" (canon_char c)
  /\ Ascii.eqb "." (lower_char c) = Ascii.eqb "." (canon_char c)
  /\ Ascii.eqb ":" (lower_char c) = Ascii.eqb ":" (canon_char c)
  /\ Ascii.eqb "/" (lower_char c) = Ascii.eqb "/" (canon_char c).
Proof.
  destruct c as [[] [] [] [] [] [] [] []]; vm_compute; repeat split.
Qed.

Lemma scheme_tests_agree (s : string) :
  startsWith "opc.tcp://" (toLowerCase s) = startsWith "OPC.TCP://" (canonicalize s).
Proof.
  unfold startsWith.
  do 10 (destruct s as [|c s]; [reflexivity|];
         cbn [toLowerCase canonicalize]; rewrite !prefix_cons;
         destruct (scheme_char_agree c) as (Ho & Hp & Hc & Ht & Hd & Hk & Hs);
         rewrite ?Ho, ?Hp, ?Hc, ?Ht, ?Hd, ?Hk, ?Hs; f_equal;
         clear Ho Hp Hc Ht Hd Hk Hs c).
  now rewrite !prefix_empty.
Qed.

Lemma trim_empty_of_empty (s : string) : trim s <> "" -> s <> "".
Proof. intros H ->. now apply H. Qed.

End ExtractHostFacts.

(** X6.  When the [URL] constructor rejects the configured server,
    [extractHostFromEndpoint] never returns an empty host: it returns a
    non-empty text, or null for a server that is empty or white space
    only.  When moreover the trimmed server carries no scheme and reads
    host:digits, the host returned is the host that
    [normalizeEndpoint] puts in the endpoint URL: the watcher looks for
    the machine the client connects to. *)
Theorem extracted_host_is_the_endpoint_host
        (URL_hostname : string -> option string) (endpoint : string) :
  URL_hostname endpoint = None ->
  match extractHostFromEndpoint URL_hostname (Some endpoint) with
  | Some host => host <> ""
  | None => trim endpoint = ""
  end
  /\ forall host digits : string,
      startsWith "OPC.TCP://" (canonicalize (trim endpoint)) = false ->
      isHostDigits (trim endpoint) host digits ->
      extractHostFromEndpoint URL_hostname (Some endpoint) = Some host
      /\ forall port : JsPort,
          normalizeEndpoint (Some endpoint) port
          = Ok (scheme +:+ host +:+ ":" +:+
                (if port_falsy port then digits else port_text port)).
Proof.
  intros Hurl. split.
  - unfold extractHostFromEndpoint. cbn [truthy orEmpty].
    destruct (String.eqb endpoint "") eqn:He; cbn [negb].
    + apply eqb_empty in He. now subst.
    + rewrite Hurl. unfold opcHostMatch.
      destruct (startsWith "OPC.TCP://" (canonicalize (trim endpoint))).
      * destruct (String.eqb (hostRun _) "") eqn:Hrun.
        -- destruct (hostPortMatch (trim endpoint)) as [[h d]|] eqn:Hm.
           ++ now apply hostPortMatch_sound in Hm as (_ & Hne & _).
           ++ destruct (String.eqb (trim endpoint) "") eqn:Ht.
              ** now apply eqb_empty.
              ** now apply eqb_nonempty.
        -- now apply eqb_nonempty.
      * destruct (hostPortMatch (trim endpoint)) as [[h d]|] eqn:Hm.
        -- now apply hostPortMatch_sound in Hm as (_ & Hne & _).
        -- destruct (String.eqb (trim endpoint) "") eqn:Ht.
           ++ now apply eqb_empty.
           ++ now apply eqb_nonempty.
  - intros host digits Hscheme Hread.
    pose proof Hread as (Htext & Hhost & _ & Hdne & _).
    assert (Hne : endpoint <> "").
    { apply trim_empty_of_empty. rewrite Htext.
      destruct host; [now elim Hhost | discriminate]. }
    apply eqb_nonempty in Hne.
    pose proof (hostPortMatch_complete _ _ _ Hread) as Hm.
    split.
    + unfold extractHostFromEndpoint. cbn [truthy orEmpty]. rewrite Hne. cbn [negb].
      rewrite Hurl. unfold opcHostMatch. now rewrite Hscheme, Hm.
    + intros port. unfold normalizeEndpoint, hostAndPort, stripScheme.
      cbn [truthy orEmpty]. rewrite Hne. cbn [negb].
      rewrite scheme_tests_agree, Hscheme, Hm. cbn [fst snd].
      destruct (port_falsy port) eqn:Hp.
      * cbn [port_falsy port_text]. apply eqb_nonempty in Hdne. now rewrite Hdne.
      * now rewrite Hp.
Qed.

Lemma extracted_host_is_the_endpoint_host_witness :
  extractHostFromEndpoint (fun _ => None) (Some "10.0.0.5:4840") = Some "10.0.0.5"
  /\ forall port : JsPort,
      normalizeEndpoint (Some "10.0.0.5:4840") port
      = Ok (scheme +:+ "10.0.0.5" +:+ ":" +:+
            (if port_falsy port then "4840" else port_text port)).
Proof.
  apply (proj2 (extracted_host_is_the_endpoint_host (fun _ => None) "10.0.0.5:4840" eq_refl)).
  - reflexivity.
  - vm_compute. repeat split; discriminate.
Defined.

(** ** The watcher, once more *)

Section WatcherMore.

Import Ipc Watcher WatcherReadings.

Variable fl : Q -> Q.

Lemma step_prefix (serverIp : option string) (durationMs : Z) (st st' : State)
      (e : Event) :
  step fl serverIp durationMs st e = Ok st' ->
  found st `prefix_of` found st'.
Proof.
  destruct e as [|k now r].
  - cbn [step]. destruct (timerActive st); intros [= <-]; [|reflexivity].
    unfold onTick. now destruct (_ >=? _)%Z.
  - rewrite step_ExecDone. intros [= <-].
    destruct (decide (k ∈ pending st)); [|reflexivity].
    cbn [found]. now apply prefix_app_r.
Qed.

Lemma runEvents_total (serverIp : option string) (durationMs : Z)
      (sched : list Event) (st : State) :
  exists st', runEvents fl serverIp durationMs st sched = Ok st'.
Proof.
  revert st. induction sched as [|e rest IH]; intros st; [now exists st|].
  cbn [runEvents]. destruct (step_total fl serverIp durationMs st e) as [st1 ->].
  apply IH.
Qed.

Lemma runEvents_prefix (serverIp : option string) (durationMs : Z)
      (sched : list Event) (st st' : State) :
  runEvents fl serverIp durationMs st sched = Ok st' ->
  found st `prefix_of` found st'.
Proof.
  revert st. induction sched as [|e rest IH]; intros st.
  - now intros [= <-].
  - cbn [runEvents]. destruct (step_total fl serverIp durationMs st e) as [st1 Hst1].
    rewrite Hst1. cbn [bindR]. intros Hrest.
    etransitivity; [eapply step_prefix; eassumption | now apply IH].
Qed.

Lemma attemptsOf_barren (serverIp : option string) (k : nat) (now : string)
      (r : ExecResult) :
  barren (ExecDone k now r) = true -> attemptsOf serverIp now r = [].
Proof.
  cbn [barren]. unfold attemptsOf. destruct (exec_err r); [reflexivity|].
  now intros ->.
Qed.

Lemma step_barren (serverIp : option string) (durationMs : Z) (st st' : State)
      (e : Event) :
  barren e = true ->
  step fl serverIp durationMs st e = Ok st' -> found st' = found st.
Proof.
  intros Hb. destruct e as [|k now r].
  - cbn [step]. destruct (timerActive st); intros [= <-]; [|reflexivity].
    unfold onTick. now destruct (_ >=? _)%Z.
  - rewrite step_ExecDone. intros [= <-].
    destruct (decide (k ∈ pending st)); [|reflexivity].
    cbn [found]. now rewrite (attemptsOf_barren serverIp k now r Hb), app_nil_r.
Qed.

Lemma drive_barren (serverIp : option string) (durationMs : Z)
      (sched : list Event) (st st' : State) :
  forallb barren sched = true ->
  drive fl serverIp durationMs st sched = Ok st' -> found st' = found st.
Proof.
  revert st. induction sched as [|e rest IH]; intros st.
  - now intros _ [= <-].
  - cbn [forallb drive]. intros [He Hrest]%andb_true_iff.
    destruct (resolved st); [now intros [= <-]|].
    destruct (step_total fl serverIp durationMs st e) as [st1 Hst1].
    rewrite Hst1. cbn [bindR]. intros Hd.
    rewrite (IH st1 Hrest Hd). now apply (step_barren serverIp durationMs st st1 e).
Qed.

Lemma forallb_barren_ticks (n : nat) : forallb barren (repeat Tick n) = true.
Proof. induction n as [|n IH]; [reflexivity | exact IH]. Qed.

End WatcherMore.

(** X7.  The array [found] is append-only: whatever the target and
    whatever the event loop runs, the records present before are still
    there afterwards, in the same order, at the front of the array.
    The promise is fulfilled with the array itself, not with a copy:
    when the caller resumes it reads the array as it is then, and what
    it read is a prefix of what the array holds after any callbacks
    that run later. *)
Theorem found_is_append_only (fl : Q -> Q) (serverIp : option string)
        (serverPort : JsPort) (durationMs : Z) :
  (forall (st : Watcher.State) (sched : list Watcher.Event),
      exists st',
        Watcher.runEvents fl serverIp durationMs st sched = Ok st'
        /\ Watcher.found st `prefix_of` Watcher.found st')
  /\ (forall sched later : list Watcher.Event,
        exists st st',
          Watcher.monitorConnectionAttempts fl serverIp serverPort durationMs sched
          = Ok st
          /\ Watcher.resolved st = Some (Watcher.found st)
          /\ Watcher.runEvents fl serverIp durationMs st later = Ok st'
          /\ Watcher.found st `prefix_of` Watcher.found st').
Proof.
  split.
  - intros st sched.
    destruct (runEvents_total fl serverIp durationMs sched st) as [st' Hst'].
    exists st'. split; [exact Hst'|]. now apply runEvents_prefix in Hst'.
  - intros sched later.
    destruct (monitor_settles fl serverIp serverPort durationMs sched)
      as (st & Hst & Hres & _).
    destruct (runEvents_total fl serverIp durationMs later st) as [st' Hst'].
    exists st, st'.
    split; [exact Hst|]. split; [exact Hres|]. split; [exact Hst'|].
    now apply runEvents_prefix in Hst'.
Qed.

(** X8.  A poll that fails, or that prints nothing, is ignored without
    a trace: when no callback of the schedule brings an output, the
    promise is still fulfilled with the empty sequence, for every
    target, after the usual number n of polls: for a duration of at
    most 2^52 ms, 2000 (n - 1) < durationMs <= 2000 n when the
    duration is positive, and one poll otherwise. *)
Theorem failed_polls_are_ignored (fl : Q -> Q) (serverIp : option string)
        (serverPort : JsPort) (durationMs : Z) (sched : list Watcher.Event) :
  forallb WatcherReadings.barren sched = true ->
  (Z.abs durationMs <= 2 ^ 52)%Z ->
  exists st,
    Watcher.monitorConnectionAttempts fl serverIp serverPort durationMs sched = Ok st
    /\ Watcher.resolved st = Some []
    /\ ((durationMs <= 0)%Z -> Watcher.execs st = 1%nat)
    /\ ((0 < durationMs)%Z ->
        (2000 * (Z.of_nat (Watcher.execs st) - 1) < durationMs
         <= 2000 * Z.of_nat (Watcher.execs st))%Z).
Proof.
  intros Hbarren _.
  destruct (monitor_settles fl serverIp serverPort durationMs sched)
    as (st & Hst & Hres & _ & _ & Hexecs & _).
  exists st. split; [exact Hst|]. split; [|exact (execs_pinned _ _ Hexecs)].
  rewrite Hres. f_equal.
  unfold Watcher.monitorConnectionAttempts in Hst.
  apply (drive_barren fl) in Hst; [exact Hst|].
  rewrite forallb_app, Hbarren. apply forallb_barren_ticks.
Qed.

Lemma failed_polls_are_ignored_witness :
  exists st,
    Watcher.monitorConnectionAttempts (fun q => q) (Some "10.0.0.5") (PortNumber 4840)
                                      4000 WatcherReadings.failingPolls = Ok st
    /\ Watcher.resolved st = Some []
    /\ ((4000 <= 0)%Z -> Watcher.execs st = 1%nat)
    /\ ((0 < 4000)%Z ->
        (2000 * (Z.of_nat (Watcher.execs st) - 1) < 4000
         <= 2000 * Z.of_nat (Watcher.execs st))%Z).
Proof.
  apply (failed_polls_are_ignored (fun q => q) (Some "10.0.0.5") (PortNumber 4840)
           4000%Z WatcherReadings.failingPolls).
  - reflexivity.
  - vm_compute. discriminate.
Defined.

(** X9.  For every target, every schedule and every duration of at
    most 2^52 ms in absolute value, the promise of
    [monitorConnectionAttempts] is fulfilled by the tick number n,
    where 2000 (n - 1) < durationMs <= 2000 n for a positive duration
    and n = 1 otherwise: a duration of 2000 ms or less, zero and
    negative durations included, still waits for one tick and polls
    once.  Each tick issues one poll and sends one progress message,
    the interval is cleared by the tick that resolves, and the poll
    issued by that tick is pending when the caller resumes. *)
Theorem one_poll_and_one_message_per_tick (fl : Q -> Q) (serverIp : option string)
        (serverPort : JsPort) (durationMs : Z) (sched : list Watcher.Event) :
  (Z.abs durationMs <= 2 ^ 52)%Z ->
  exists st,
    Watcher.monitorConnectionAttempts fl serverIp serverPort durationMs sched = Ok st
    /\ ((durationMs <= 0)%Z -> Watcher.i st = 1%Z)
    /\ ((0 < durationMs)%Z ->
        (2000 * (Watcher.i st - 1) < durationMs <= 2000 * Watcher.i st)%Z)
    /\ Z.of_nat (Watcher.execs st) = Watcher.i st
    /\ length (Watcher.sent st) = Watcher.execs st
    /\ Probe.progressValues (Watcher.sent st)
       = map (fun j => Watcher.progressOf fl durationMs (Z.of_nat j))
             (seq 1 (Watcher.execs st))
    /\ Watcher.timerActive st = false
    /\ Watcher.resolved st = Some (Watcher.found st)
    /\ Watcher.execs st ∈ Watcher.pending st.
Proof.
  intros _.
  destruct (monitor_settles fl serverIp serverPort durationMs sched)
    as (st & Hst & Hres & Hoff & Hi & Hexecs & Hpending & Hsent).
  destruct (ticksNeeded_pinned durationMs) as [Hle Hpos].
  exists st. split; [exact Hst|]. rewrite Hi.
  split; [exact Hle|]. split; [exact Hpos|].
  split; [unfold Watcher.ticksNeeded in *; lia|].
  split; [|split; [|auto]].
  - rewrite Hsent, Hexecs. unfold Watcher.ticksSent.
    now rewrite length_map, length_seq.
  - rewrite Hsent, Hexecs. apply ticksSent_progress.
Qed.

Lemma one_poll_and_one_message_per_tick_witness :
  exists st,
    Watcher.monitorConnectionAttempts (fun q => q) (Some "10.0.0.5") (PortNumber 4840)
                                      1500 [] = Ok st
    /\ ((1500 <= 0)%Z -> Watcher.i st = 1%Z)
    /\ ((0 < 1500)%Z ->
        (2000 * (Watcher.i st - 1) < 1500 <= 2000 * Watcher.i st)%Z)
    /\ Z.of_nat (Watcher.execs st) = Watcher.i st
    /\ length (Watcher.sent st) = Watcher.execs st
    /\ Probe.progressValues (Watcher.sent st)
       = map (fun j => Watcher.progressOf (fun q => q) 1500 (Z.of_nat j))
             (seq 1 (Watcher.execs st))
    /\ Watcher.timerActive st = false
    /\ Watcher.resolved st = Some (Watcher.found st)
    /\ Watcher.execs st ∈ Watcher.pending st.
Proof.
  apply (one_poll_and_one_message_per_tick (fun q => q) (Some "10.0.0.5")
           (PortNumber 4840) 1500%Z []).
  vm_compute. discriminate.
Defined.

(** ** The range of the progress values *)

Section ProgressRange.

Import Ipc Watcher Probe.

Variable fl : Q -> Q.
Hypothesis fl_monotone : forall x y : Q, (x <= y)%Q -> (fl x <= fl y)%Q.
Hypothesis fl_zero : (fl 0 == 0)%Q.
Hypothesis fl_one : (fl 1 == 1)%Q.
Hypothesis fl_fifteen : (fl 15 == 15)%Q.

Lemma fl_compat (x y : Q) : (x == y)%Q -> (fl x == fl y)%Q.
Proof.
  intros H. apply Qle_antisym; apply fl_monotone; rewrite H; apply Qle_refl.
Qed.

Lemma full_ratio_rounds_to_15 (polls : Z) :
  (1 <= polls)%Z ->
  round (fl (fl (inject_Z polls / inject_Z polls) * 15)) = 15%Z.
Proof.
  intros Hp. unfold round.
  assert (H1 : (inject_Z polls / inject_Z polls == 1)%Q).
  { apply Qmult_inv_r. intros H0. unfold Qeq, inject_Z in H0. cbn in H0. lia. }
  assert (H15 : (fl (fl (inject_Z polls / inject_Z polls) * 15) == 15)%Q).
  { rewrite <- fl_fifteen at 2. apply fl_compat.
    rewrite (fl_compat _ _ H1), fl_one. reflexivity. }
  rewrite (Qfloor_comp _ _ (Qplus_comp _ _ H15 _ _ (Qeq_refl (1 # 2)))).
  reflexivity.
Qed.

Lemma progressOf_range (durationMs i : Z) :
  (0 < durationMs)%Z -> (1 <= i <= pollsOf durationMs)%Z ->
  num_le (Num 75) (progressOf fl durationMs i)
  /\ num_le (progressOf fl durationMs i) (Num 90)
  /\ progressOf fl durationMs (pollsOf durationMs) = Num 90.
Proof.
  intros Hd [Hi Hp]. pose proof (pollsOf_positive durationMs Hd) as Hpos.
  unfold progressOf.
  destruct (Z.eqb_spec (pollsOf durationMs) 0) as [H0|_]; [lia|].
  pose proof (rounded_nonneg fl fl_monotone fl_zero (pollsOf durationMs) i Hpos ltac:(lia)).
  pose proof (rounded_monotone fl fl_monotone (pollsOf durationMs) i
                (pollsOf durationMs) Hpos Hp).
  rewrite (full_ratio_rounds_to_15 (pollsOf durationMs) Hpos) in *.
  cbn [num_le]. repeat split; lia.
Qed.

End ProgressRange.

(** X10.  Provided that rounding to a double is monotone and leaves 0,
    1 and 15 unchanged: for a positive duration every tick of the
    watcher reports a value between 75 and 90, and the last tick
    reports exactly 90; hence no run of the worker reports a progress
    value below 10 or above 90. *)
Theorem progress_stays_within_10_and_90 (fl : Q -> Q) :
  (forall x y : Q, (x <= y)%Q -> (fl x <= fl y)%Q) ->
  (fl 0 == 0)%Q -> (fl 1 == 1)%Q -> (fl 15 == 15)%Q ->
  (forall durationMs i : Z,
      (0 < durationMs)%Z -> (1 <= i <= Watcher.pollsOf durationMs)%Z ->
      Ipc.num_le (Ipc.Num 75) (Watcher.progressOf fl durationMs i)
      /\ Ipc.num_le (Watcher.progressOf fl durationMs i) (Ipc.Num 90)
      /\ Watcher.progressOf fl durationMs (Watcher.pollsOf durationMs) = Ipc.Num 90)
  /\ (forall (config : Probe.Config) (world : Probe.World),
        Forall (fun p => Ipc.num_le (Ipc.Num 10) p /\ Ipc.num_le p (Ipc.Num 90))
               (Probe.progressValues
                  (Probe.messages (snd (Probe.runProbe fl config world))))).
Proof.
  intros Hmono H0 H1 H15. split.
  - intros durationMs i. now apply progressOf_range.
  - intros config world.
    assert (Hfixed : forall c : Z, (10 <= c <= 90)%Z ->
              Ipc.num_le (Ipc.Num 10) (Ipc.Num c) /\ Ipc.num_le (Ipc.Num c) (Ipc.Num 90))
      by (intros c Hc; cbn; lia).
    destruct (normalizeEndpoint (Probe.server config) (Probe.port config))
      as [url|e] eqn:Hn.
    + destruct (Probe.discovery world) as [endpoints|e] eqn:Hd.
      * destruct (runProbe_completed fl config world url endpoints Hn Hd)
          as (r & final & Hrun & Hp & _).
        rewrite Hrun. cbn [snd]. rewrite Hp. apply Forall_app. split.
        -- repeat (apply Forall_cons; split; [apply Hfixed; lia|]). constructor.
        -- apply Forall_forall. intros p Hin.
           apply list_elem_of_In, in_map_iff in Hin as (j & <- & Hj).
           apply in_seq in Hj.
           destruct (progressOf_range fl Hmono H0 H1 H15 30000 (Z.of_nat j))
             as (Hlow & Hhigh & _); [lia | change (Watcher.pollsOf 30000) with 15%Z; lia |].
           split; [|exact Hhigh].
           destruct (Watcher.progressOf fl 30000 (Z.of_nat j)); cbn in *; try tauto; lia.
      * destruct (runProbe_discovery_error fl config world url e Hn Hd)
          as (r & Hrun & Hm & _).
        rewrite Hrun. cbn [snd]. rewrite Hm. cbn.
        apply Forall_cons; split; [apply Hfixed; lia | constructor].
    + destruct (runProbe_config_error fl config world e Hn)
        as (r & Hrun & Hm & _).
      rewrite Hrun. cbn [snd]. rewrite Hm. cbn.
      apply Forall_cons; split; [apply Hfixed; lia | constructor].
Qed.

Lemma progress_stays_within_10_and_90_witness :
  Forall (fun p => Ipc.num_le (Ipc.Num 10) p /\ Ipc.num_le p (Ipc.Num 90))
         (Probe.progressValues
            (Probe.messages (snd (Probe.runProbe (fun q => q) Probe.plainConfig
                                                 Probe.quietWorld)))).
Proof.
  apply (proj2 (progress_stays_within_10_and_90 (fun q => q)
                  (fun x y H => H) (Qeq_refl 0) (Qeq_refl 1) (Qeq_refl 15))).
Defined.

(** ** The ledger of a run: results, errors and warnings *)

Section ProbeLedger.

Import Ipc Watcher Probe ProbeReadings.

Variable fl : Q -> Q.

Ltac handler :=
  cbv [bind ret throw tryCatch lift send appendLog appendDetail block write
       reliable logError logWarning pushError pushWarning invoke];
  cbn [messages errors warnings calls logFile fst snd].

Ltac refold := change (fun (_ : list LogStep) (_ : LogStep) => @None JsError)
                  with reliable.

Ltac ledger :=
  unfold extends; cbn [messages errors warnings calls]; repeat split;
  first [ reflexivity
        | rewrite <- !app_assoc; reflexivity
        | symmetry; apply app_nil_r ].

Lemma stepQueryEndpoints_ledger (config : Config) (world : World) (r : Run)
      (url : string) (endpoints : list EndpointDescription) :
  normalizeEndpoint (server config) (port config) = Ok url ->
  discovery world = Ok endpoints ->
  exists r' ms,
    stepQueryEndpoints reliable config world r = (Normal endpoints, r')
    /\ extends r r' ms [] (endpointWarnings endpoints) [QueryEndpoints]
    /\ finals ms = [].
Proof.
  intros Hn Hd. unfold stepQueryEndpoints, queryEndpoints, endpointWarnings.
  handler. rewrite Hn. handler. rewrite Hd. handler.
  destruct (0 <? length endpoints)%nat; handler;
    eexists _, _; (split; [reflexivity|]); (split; [ledger|]); reflexivity.
Qed.

Lemma stepBaseline_ledger (world : World) (r : Run) :
  exists r' ms,
    stepBaseline reliable world r = (Normal (captured (netstatBefore world)), r')
    /\ extends r r' ms
         (captureErrors "Baseline Port Capture" (netstatBefore world))
         (captureWarnings "Baseline Port Capture"
            "Failed to capture baseline ports, continuing with empty array"
            (netstatBefore world))
         [BaselineCapture]
    /\ finals ms = [].
Proof.
  unfold stepBaseline, getListeningPortsAt, captured, captureErrors,
    captureWarnings. handler.
  destruct (getListeningPorts (netstatBefore world)) as [l|e]; handler;
    eexists _, _; (split; [reflexivity|]); (split; [ledger|]); reflexivity.
Qed.

Lemma stepSubscribe_ledger (config : Config) (world : World) (r : Run)
      (url : string) :
  normalizeEndpoint (server config) (port config) = Ok url ->
  exists r' ms,
    stepSubscribe reliable config world r = (Normal (subscriptionOutcome config world), r')
    /\ extends r r' ms (subscriptionErrors world) [] [Subscribe]
    /\ finals ms = [].
Proof.
  intros Hn.
  unfold stepSubscribe, createSubscriptionAndMonitor, subscriptionOutcome,
    subscriptionErrors. handler. rewrite Hn. handler.
  destruct (subscription world) as [err|]; handler.
  - cbn [success error truthy orEmpty].
    destruct (String.eqb (String_of_error err) ""); cbn [negb]; handler;
      eexists _, _; (split; [reflexivity|]); (split; [ledger|]); reflexivity.
  - cbn [success]. handler.
    eexists _, _; (split; [reflexivity|]); (split; [ledger|]); reflexivity.
Qed.

Lemma stepPostCapture_ledger (world : World) (beforeListeners : list SocketRecord)
      (r : Run) :
  exists r' ms,
    stepPostCapture reliable world beforeListeners r
    = (Normal (captured (netstatAfter world)), r')
    /\ extends r r' ms
         (captureErrors "Post-Subscription Port Capture" (netstatAfter world))
         (captureWarnings "Post-Subscription Port Capture"
            "Failed to capture post-subscription ports, continuing with empty array"
            (netstatAfter world))
         [PostCapture]
    /\ finals ms = [].
Proof.
  unfold stepPostCapture, getListeningPortsAt, captured, captureErrors,
    captureWarnings. handler.
  destruct (getListeningPorts (netstatAfter world)) as [l|e]; handler;
    eexists _, _; (split; [reflexivity|]); (split; [ledger|]); reflexivity.
Qed.

Lemma stepMonitor_ledger (config : Config) (world : World) (r : Run) :
  exists st r' ms,
    monitorConnectionAttempts fl (targetOf config world) (port config) 30000
                              (schedule world) = Ok st
    /\ resolved st = Some (found st)
    /\ stepMonitor reliable fl config world r = (Normal (found st), r')
    /\ extends r r' ms [] [] [Monitor]
    /\ finals ms = [].
Proof.
  unfold stepMonitor, targetOf. handler.
  match goal with
  | |- context [awaitMonitor fl world ?ip ?p ?d ?r0] =>
      destruct (awaitMonitor_spec fl world ip p d r0) as (st & Hmon & HS & Haw);
      rewrite Haw; clear Haw
  end.
  handler.
  destruct (ticksSent_progress fl (30 * 1000) (Z.to_nat (ticksNeeded (30 * 1000))))
    as (_ & _ & Hfin & _).
  exists st. eexists _, _. split; [exact Hmon|].
  split; [apply HS|]. split; [reflexivity|]. split; [ledger|].
  unfold finals in *. now rewrite !omap_app, Hfin.
Qed.

Lemma runProbe_ledger (config : Config) (world : World)
      (url : string) (endpoints : list EndpointDescription) :
  normalizeEndpoint (server config) (port config) = Ok url ->
  discovery world = Ok endpoints ->
  exists r st,
    runProbe fl config world = (Normal 0%Z, r)
    /\ monitorConnectionAttempts fl (targetOf config world) (port config) 30000
                                 (schedule world) = Ok st
    /\ resolved st = Some (found st)
    /\ finals (messages r)
       = [mkFinal endpoints (captured (netstatBefore world))
                  (subscriptionOutcome config world)
                  (captured (netstatAfter world)) (found st)]
    /\ errors r
       = captureErrors "Baseline Port Capture" (netstatBefore world)
         ++ subscriptionErrors world
         ++ captureErrors "Post-Subscription Port Capture" (netstatAfter world)
    /\ warnings r
       = endpointWarnings endpoints
         ++ captureWarnings "Baseline Port Capture"
              "Failed to capture baseline ports, continuing with empty array"
              (netstatBefore world)
         ++ captureWarnings "Post-Subscription Port Capture"
              "Failed to capture post-subscription ports, continuing with empty array"
              (netstatAfter world).
Proof.
  intros Hn Hd. unfold runProbe, runProbeOn, onStart. handler.
  match goal with
  | |- context [stepQueryEndpoints ?d config world ?r0] =>
      change d with reliable;
      destruct (stepQueryEndpoints_ledger config world r0 url endpoints Hn Hd)
        as (r1 & ms1 & Heq & (Hm1 & He1 & Hw1 & Hc1) & Hf1)
  end.
  rewrite Heq; clear Heq. handler. refold.
  destruct (stepBaseline_ledger world r1)
    as (r2 & ms2 & Heq & (Hm2 & He2 & Hw2 & Hc2) & Hf2).
  rewrite Heq; clear Heq. handler. refold.
  destruct (stepSubscribe_ledger config world r2 url Hn)
    as (r3 & ms3 & Heq & (Hm3 & He3 & Hw3 & Hc3) & Hf3).
  rewrite Heq; clear Heq. handler. refold.
  destruct (stepPostCapture_ledger world (captured (netstatBefore world)) r3)
    as (r4 & ms4 & Heq & (Hm4 & He4 & Hw4 & Hc4) & Hf4).
  rewrite Heq; clear Heq. handler. refold.
  destruct (stepMonitor_ledger config world r4)
    as (st & r5 & ms5 & Hmon & Hres & Heq & (Hm5 & He5 & Hw5 & Hc5) & Hf5).
  rewrite Heq; clear Heq. handler. refold.
  match goal with
  | |- context [writeErrorSummary reliable ?r0] =>
      destruct (writeErrorSummary_ok r0) as [lf Hlf]; rewrite Hlf; clear Hlf
  end.
  handler.
  eexists _, st. split; [reflexivity|]. split; [exact Hmon|]. split; [exact Hres|].
  cbn [messages errors warnings calls] in *.
  rewrite Hm5, Hm4, Hm3, Hm2, Hm1, He5, He4, He3, He2, He1, Hw5, Hw4, Hw3, Hw2, Hw1.
  unfold finals in *.
  rewrite !omap_app, Hf1, Hf2, Hf3, Hf4, Hf5, !app_nil_r. cbn.
  repeat split; now rewrite ?app_nil_r, <- ?app_assoc.
Qed.

End ProbeLedger.



(** X12.  On a log file that takes every write, in a run that passes
    endpoint discovery, a failed [netstat] call and a refused
    subscription are recorded and nothing else is.  The errors are, in
    stage order: under "Baseline Port Capture" the error of the first
    [netstat] call, with its message (or its text when the message is
    empty), its name (or "Error") and its text; under "Subscription
    Creation" an [Error] whose message is the text of the subscription
    failure (or "Subscription failed" when that text is empty); under
    "Post-Subscription Port Capture" the error of the second [netstat]
    call; each is present exactly when its stage failed.  The warnings
    are the notice of an empty endpoint list and one notice per failed
    capture.  No error is recorded under the context of the whole
    probe. *)
Theorem errors_and_warnings_of_a_completed_run (fl : Q -> Q) (disk : Probe.Disk)
        (config : Probe.Config) (world : Probe.World) (url : string)
        (endpoints : list Ipc.EndpointDescription) :
  Probe.accepts disk ->
  normalizeEndpoint (Probe.server config) (Probe.port config) = Ok url ->
  Probe.discovery world = Ok endpoints ->
  exists r,
    Probe.runProbeOn disk fl config world = (Probe.Normal 0%Z, r)
    /\ Probe.errors r
       = match getListeningPorts (Probe.netstatBefore world) with
         | Ok _ => []
         | Throw e =>
             [Probe.mkErrorRecord "Baseline Port Capture"
                (if String.eqb (err_message e) "" then String_of_error e
                 else err_message e)
                (if String.eqb (err_name e) "" then "Error" else err_name e)
                (String_of_error e)]
         end
         ++ match Probe.subscription world with
            | None => []
            | Some err =>
                [Probe.mkErrorRecord "Subscription Creation"
                   (if String.eqb (String_of_error err) ""
                    then "Subscription failed" else String_of_error err)
                   "Error"
                   ("Error: " +:+ (if String.eqb (String_of_error err) ""
                                   then "Subscription failed"
                                   else String_of_error err))]
            end
         ++ match getListeningPorts (Probe.netstatAfter world) with
            | Ok _ => []
            | Throw e =>
                [Probe.mkErrorRecord "Post-Subscription Port Capture"
                   (if String.eqb (err_message e) "" then String_of_error e
                    else err_message e)
                   (if String.eqb (err_name e) "" then "Error" else err_name e)
                   (String_of_error e)]
            end
    /\ Probe.warnings r
       = (if (0 <? length endpoints)%nat then []
          else [Probe.mkWarning "Endpoint Query" "No endpoints returned from server"])
         ++ match getListeningPorts (Probe.netstatBefore world) with
            | Ok _ => []
            | Throw _ =>
                [Probe.mkWarning "Baseline Port Capture"
                   "Failed to capture baseline ports, continuing with empty array"]
            end
         ++ match getListeningPorts (Probe.netstatAfter world) with
            | Ok _ => []
            | Throw _ =>
                [Probe.mkWarning "Post-Subscription Port Capture"
                   "Failed to capture post-subscription ports, continuing with empty array"]
            end
    /\ Forall (fun e => Probe.e_context e <> "Probe Execution") (Probe.errors r).
Proof.
  intros Hacc Hn Hd. rewrite (runProbeOn_ext fl disk Hacc config world).
  destruct (runProbe_ledger fl config world url endpoints Hn Hd)
    as (r & st & Hrun & _ & _ & _ & He & Hw).
  exists r. split; [exact Hrun|].
  assert (Hsub : ProbeReadings.subscriptionErrors world
                 = match Probe.subscription world with
                   | None => []
                   | Some err =>
                       [Probe.mkErrorRecord "Subscription Creation"
                          (if String.eqb (String_of_error err) ""
                           then "Subscription failed" else String_of_error err)
                          "Error"
                          ("Error: " +:+ (if String.eqb (String_of_error err) ""
                                          then "Subscription failed"
                                          else String_of_error err))]
                   end).
  { unfold ProbeReadings.subscriptionErrors.
    destruct (Probe.subscription world) as [err|]; [|reflexivity].
    destruct (String.eqb (String_of_error err) "") eqn:Hempty; [reflexivity|].
    set (text := String_of_error err) in *.
    unfold Probe.errorObj, Error, String_of_error.
    cbn [err_message err_name]. rewrite Hempty. reflexivity. }
  rewrite He, Hw, Hsub.
  unfold ProbeReadings.captureErrors, ProbeReadings.captureWarnings,
    ProbeReadings.endpointWarnings, Probe.errorObj.
  split; [reflexivity|]. split; [reflexivity|].
  destruct (getListeningPorts (Probe.netstatBefore world));
    destruct (Probe.subscription world);
    destruct (getListeningPorts (Probe.netstatAfter world));
    cbn; repeat constructor; discriminate.
Qed.

Lemma errors_and_warnings_of_a_completed_run_witness :
  exists r,
    Probe.runProbeOn Probe.reliable (fun q => q) Probe.plainConfig
                     ProbeReadings.degradedWorld
    = (Probe.Normal 0%Z, r)
    /\ Probe.errors r
       = [Probe.mkErrorRecord "Baseline Port Capture" "spawn netstat ETIMEDOUT"
            "Error" "Error: spawn netstat ETIMEDOUT";
          Probe.mkErrorRecord "Subscription Creation"
            "Error: connect ECONNREFUSED 10.0.0.5:4840" "Error"
            "Error: Error: connect ECONNREFUSED 10.0.0.5:4840";
          Probe.mkErrorRecord "Post-Subscription Port Capture"
            "spawn netstat ETIMEDOUT" "Error" "Error: spawn netstat ETIMEDOUT"]
    /\ Probe.warnings r
       = [Probe.mkWarning "Endpoint Query" "No endpoints returned from server";
          Probe.mkWarning "Baseline Port Capture"
            "Failed to capture baseline ports, continuing with empty array";
          Probe.mkWarning "Post-Subscription Port Capture"
            "Failed to capture post-subscription ports, continuing with empty array"]
    /\ Forall (fun e => Probe.e_context e <> "Probe Execution") (Probe.errors r).
Proof.
  apply (errors_and_warnings_of_a_completed_run (fun q => q) Probe.reliable
           Probe.plainConfig ProbeReadings.degradedWorld
           "opc.tcp://10.0.0.5:4840" [] reliable_accepts).
  - vm_compute. reflexivity.
  - reflexivity.
Defined.

Section RejectedConfiguration.

Import Ipc Probe.

Variable fl : Q -> Q.
Variable disk : Disk.

Lemma normalizeEndpoint_throws (server : option string) (port : JsPort)
      (e : JsError) :
  normalizeEndpoint server port = Throw e ->
  (e = Error "server missing" \/ e = Error "port missing")
  /\ (truthy server = false -> e = Error "server missing").
Proof.
  unfold normalizeEndpoint. destruct (truthy server); cbn [negb].
  - destruct (port_falsy _); [|discriminate].
    intros [= <-]. split; [now right | discriminate].
  - intros [= <-]. split; [now left | reflexivity].
Qed.

(** Whatever the log file does, a run whose configuration is rejected
    calls no collaborator and sends neither a partial nor a final
    result. *)
Lemma rejected_run_is_silent (config : Config) (world : World) (e : JsError) :
  normalizeEndpoint (server config) (port config) = Throw e ->
  calls (snd (runProbeOn disk fl config world)) = []
  /\ partials (messages (snd (runProbeOn disk fl config world))) = []
  /\ finals (messages (snd (runProbeOn disk fl config world))) = [].
Proof.
  intros Hn. unfold runProbeOn, onStart, stepQueryEndpoints, writeErrorSummary.
  rewrite Hn.
  cbv [bind ret throw tryCatch lift send appendLog appendDetail block write
       logError logWarning pushError pushWarning invoke].
  cbn [messages errors warnings calls logFile fst snd].
  repeat (match goal with
          | |- context [disk ?h ?s] => destruct (disk h s)
          end;
          cbv beta iota;
          cbn [app messages errors warnings calls logFile fst snd]).
  all: repeat split.
Qed.

End RejectedConfiguration.

(** X13.  When the configuration is rejected, that is when
    [normalizeEndpoint] throws, the error is "server missing" or "port
    missing" ("server missing" for a configuration without a server),
    and whatever happens to the log file the probe calls no
    collaborator at all (the server is not contacted, [netstat] is not
    run) and sends neither a partial nor a final result.  On a log
    file that takes every write the run then exits with code 1, one
    [error] message carries the text of the error, and the error is
    recorded once, under the context of the whole probe, with its
    message, the name "Error" and its text; no warning is
    recorded. *)
Theorem rejected_configuration_contacts_nothing (fl : Q -> Q) (disk : Probe.Disk)
        (config : Probe.Config) (world : Probe.World) (e : JsError) :
  normalizeEndpoint (Probe.server config) (Probe.port config) = Throw e ->
  (e = Error "server missing" \/ e = Error "port missing")
  /\ (truthy (Probe.server config) = false -> e = Error "server missing")
  /\ Probe.calls (snd (Probe.runProbeOn disk fl config world)) = []
  /\ Probe.partials (Probe.messages (snd (Probe.runProbeOn disk fl config world)))
     = []
  /\ Probe.finals (Probe.messages (snd (Probe.runProbeOn disk fl config world)))
     = []
  /\ (Probe.accepts disk ->
      exists r,
        Probe.runProbeOn disk fl config world = (Probe.Normal 1%Z, r)
        /\ Probe.errorEvents (Probe.messages r) = ["Error: " +:+ err_message e]
        /\ Probe.errors r
           = [Probe.mkErrorRecord "Probe Execution" (err_message e) "Error"
                ("Error: " +:+ err_message e)]
        /\ Probe.warnings r = []).
Proof.
  intros Hn.
  destruct (normalizeEndpoint_throws _ _ e Hn) as [Hcases Hserver].
  destruct (rejected_run_is_silent fl disk config world e Hn)
    as (Hcalls & Hpartials & Hfinals).
  repeat (split; [assumption|]).
  intros Hacc. rewrite (runProbeOn_ext fl disk Hacc config world).
  destruct (runProbe_config_error fl config world e Hn)
    as (r & Hrun & Hm & He & Hw & _).
  exists r. rewrite Hm, He, Hw. split; [exact Hrun|].
  destruct Hcases as [-> | ->]; repeat split.
Qed.

Lemma rejected_configuration_contacts_nothing_witness :
  Probe.calls (snd (Probe.runProbeOn Probe.fullAtFirst (fun q => q)
                                     ProbeReadings.blankConfig Probe.quietWorld))
  = [].
Proof.
  apply (rejected_configuration_contacts_nothing (fun q => q) Probe.fullAtFirst
           ProbeReadings.blankConfig Probe.quietWorld (Error "server missing")).
  reflexivity.
Defined.

(** A write that fails inside the [try] of the monitoring stage is
    what enters its [catch]: the run goes on with no connection and
    records the failure under "Connection Monitoring". *)
Lemma failed_write_enters_the_monitoring_catch :
  let run := Probe.runProbeOn Probe.fullAfterMonitoring (fun q => q)
                              Probe.plainConfig Probe.quietWorld in
  fst run = Probe.Normal 0%Z
  /\ Probe.errors (snd run)
     = [Probe.mkErrorRecord "Connection Monitoring"
          "ENOSPC: no space left on device, write" "Error"
          "Error: ENOSPC: no space left on device, write"]
  /\ Probe.warnings (snd run)
     = [Probe.mkWarning "Connection Monitoring"
          "Failed to monitor connections, continuing with empty array"].
Proof. vm_compute. repeat split. Qed.

(** X14.  The promise of the watcher is never rejected, so that only
    a failed write to the log file can enter the [catch] of the
    monitoring stage: on a log file that takes every write no run
    records an error or a warning under "Connection Monitoring", and a
    run records at most three errors and at most three warnings. *)
Theorem monitoring_never_reports_a_failure (fl : Q -> Q) (disk : Probe.Disk)
        (config : Probe.Config) (world : Probe.World) :
  Probe.accepts disk ->
  let r := snd (Probe.runProbeOn disk fl config world) in
  Forall (fun e => Probe.e_context e <> "Connection Monitoring") (Probe.errors r)
  /\ Forall (fun w => Probe.w_context w <> "Connection Monitoring")
            (Probe.warnings r)
  /\ (length (Probe.errors r) <= 3)%nat
  /\ (length (Probe.warnings r) <= 3)%nat.
Proof.
  intros Hacc. cbv zeta. rewrite (runProbeOn_ext fl disk Hacc config world).
  destruct (normalizeEndpoint (Probe.server config) (Probe.port config))
    as [url|e] eqn:Hn.
  - destruct (Probe.discovery world) as [endpoints|e] eqn:Hd.
    + destruct (runProbe_ledger fl config world url endpoints Hn Hd)
        as (r & st & Hrun & _ & _ & _ & He & Hw).
      rewrite Hrun. cbn [snd]. rewrite He, Hw.
      unfold ProbeReadings.captureErrors, ProbeReadings.captureWarnings,
        ProbeReadings.subscriptionErrors, ProbeReadings.endpointWarnings.
      destruct (getListeningPorts (Probe.netstatBefore world));
        destruct (Probe.subscription world);
        destruct (getListeningPorts (Probe.netstatAfter world));
        destruct (0 <? length endpoints)%nat;
        cbn; (split; [repeat constructor; discriminate|]);
        (split; [repeat constructor; discriminate|]); lia.
    + destruct (runProbe_discovery_error fl config world url e Hn Hd)
        as (r & Hrun & _ & He & Hw & _).
      rewrite Hrun. cbn [snd]. rewrite He, Hw. cbn.
      split; [repeat constructor; discriminate|]. split; [constructor|]. lia.
  - destruct (runProbe_config_error fl config world e Hn)
      as (r & Hrun & _ & He & Hw & _).
    rewrite Hrun. cbn [snd]. rewrite He, Hw. cbn.
    split; [repeat constructor; discriminate|]. split; [constructor|]. lia.
Qed.

Lemma monitoring_never_reports_a_failure_witness :
  Forall (fun e => Probe.e_context e <> "Connection Monitoring")
         (Probe.errors (snd (Probe.runProbeOn Probe.reliable (fun q => q)
                                              Probe.plainConfig
                                              ProbeReadings.degradedWorld)))
  /\ Forall (fun w => Probe.w_context w <> "Connection Monitoring")
            (Probe.warnings (snd (Probe.runProbeOn Probe.reliable (fun q => q)
                                                   Probe.plainConfig
                                                   ProbeReadings.degradedWorld)))
  /\ (length (Probe.errors (snd (Probe.runProbeOn Probe.reliable (fun q => q)
                                                  Probe.plainConfig
                                                  ProbeReadings.degradedWorld)))
      <= 3)%nat
  /\ (length (Probe.warnings (snd (Probe.runProbeOn Probe.reliable (fun q => q)
                                                    Probe.plainConfig
                                                    ProbeReadings.degradedWorld)))
      <= 3)%nat.
Proof.
  apply (monitoring_never_reports_a_failure (fun q => q) Probe.reliable
           Probe.plainConfig ProbeReadings.degradedWorld reliable_accepts).
Defined.

(** ** The calls on the OPC UA client *)

Section OpcUaFacts.

Import Ipc Probe.

Ltac client :=
  cbv [OpcUa.andThen OpcUa.catching OpcUa.quietly OpcUa.done OpcUa.fail
       OpcUa.fromResult OpcUa.await OpcUa.awaitValue OpcUa.disconnectClient
       OpcUa.assignSession OpcUa.assignSubscription OpcUa.whenAssigned
       OpcUa.start];
  cbn [OpcUa.trace OpcUa.session OpcUa.subscription fst snd app List.filter
       OpcUa.isDisconnect length].

Lemma queryEndpoints_cases (a : OpcUa.Answers) (serverUrl : option string)
      (port : JsPort) (url : string) :
  normalizeEndpoint serverUrl port = Ok url ->
  OpcUa.queryEndpoints a serverUrl port OpcUa.start
  = match OpcUa.connect a with
    | Some e =>
        (Throw e, OpcUa.mkVars [OpcUa.Connect url; OpcUa.Disconnect] false false)
    | None =>
        match OpcUa.getEndpoints a with
        | Throw e =>
            (Throw e,
             OpcUa.mkVars [OpcUa.Connect url; OpcUa.GetEndpoints; OpcUa.Disconnect]
                          false false)
        | Ok raw =>
            match OpcUa.disconnect a 0 with
            | None =>
                (Ok (map OpcUa.mapEndpoint raw),
                 OpcUa.mkVars [OpcUa.Connect url; OpcUa.GetEndpoints;
                               OpcUa.Disconnect] false false)
            | Some e =>
                (Throw e,
                 OpcUa.mkVars [OpcUa.Connect url; OpcUa.GetEndpoints;
                               OpcUa.Disconnect; OpcUa.Disconnect] false false)
            end
        end
    end.
Proof.
  intros Hn. unfold OpcUa.queryEndpoints. rewrite Hn. client.
  destruct (OpcUa.connect a) as [e|]; client.
  - now destruct (OpcUa.disconnect a 0).
  - destruct (OpcUa.getEndpoints a) as [raw|e]; client.
    + destruct (OpcUa.disconnect a 0) as [e|]; client; [|reflexivity].
      now destruct (OpcUa.disconnect a 1).
    + now destruct (OpcUa.disconnect a 0).
Qed.

End OpcUaFacts.

(** X15.  [queryEndpoints] calls nothing on the client when the
    endpoint cannot be normalised.  Otherwise it connects to the
    normalised endpoint first and its last call is [disconnect],
    made once, or twice when the first attempt fails after the
    endpoints have arrived.  It delivers the mapped endpoints exactly
    when [connect], [getEndpoints] and the first [disconnect] all
    succeed: a [disconnect] that fails after the endpoints have
    arrived makes the call fail with the error of the [disconnect]. *)
Theorem queryEndpoints_always_disconnects (a : OpcUa.Answers)
        (serverUrl : option string) (port : JsPort) :
  let res := fst (OpcUa.queryEndpoints a serverUrl port OpcUa.start) in
  let calls := OpcUa.trace (snd (OpcUa.queryEndpoints a serverUrl port OpcUa.start)) in
  (forall e, normalizeEndpoint serverUrl port = Throw e ->
             res = Throw e /\ calls = [])
  /\ (forall url, normalizeEndpoint serverUrl port = Ok url ->
        hd_error calls = Some (OpcUa.Connect url)
        /\ last calls = Some OpcUa.Disconnect
        /\ (1 <= length (List.filter OpcUa.isDisconnect calls) <= 2)%nat
        /\ (forall endpoints,
              res = Ok endpoints
              <-> exists raw,
                  OpcUa.connect a = None /\ OpcUa.getEndpoints a = Ok raw
                  /\ OpcUa.disconnect a 0 = None
                  /\ endpoints = map OpcUa.mapEndpoint raw)
        /\ (forall raw e,
              OpcUa.connect a = None -> OpcUa.getEndpoints a = Ok raw ->
              OpcUa.disconnect a 0 = Some e ->
              res = Throw e
              /\ calls = [OpcUa.Connect url; OpcUa.GetEndpoints;
                          OpcUa.Disconnect; OpcUa.Disconnect])).
Proof.
  cbv zeta. split.
  - intros e Hn. unfold OpcUa.queryEndpoints. rewrite Hn. now cbn.
  - intros url Hn. rewrite (queryEndpoints_cases a serverUrl port url Hn).
    destruct (OpcUa.connect a) as [e1|];
      [|destruct (OpcUa.getEndpoints a) as [raw|e2];
        [destruct (OpcUa.disconnect a 0) as [e3|]|]];
      cbn; (split; [reflexivity|]); (split; [reflexivity|]); (split; [lia|]);
      (split; [intros endpoints; split;
               [intros [=]; subst; try (eexists; repeat split; reflexivity)
               |intros (raw' & H1 & H2 & H3 & H4); try discriminate;
                injection H2 as <-; now subst]
             |intros raw' e' H1 H2 H3; try discriminate;
              injection H3 as <-; now split]).
Qed.

Lemma queryEndpoints_always_disconnects_witness :
  fst (OpcUa.queryEndpoints OpcUa.stuckSocket (Some "plc") (PortNumber 4840)
                            OpcUa.start)
  = Throw (Error "socket already closed")
  /\ OpcUa.trace (snd (OpcUa.queryEndpoints OpcUa.stuckSocket (Some "plc")
                                            (PortNumber 4840) OpcUa.start))
     = [OpcUa.Connect "opc.tcp://plc:4840"; OpcUa.GetEndpoints;
        OpcUa.Disconnect; OpcUa.Disconnect].
Proof.
  refine (proj2 (proj2 (proj2 (proj2
            (proj2 (queryEndpoints_always_disconnects OpcUa.stuckSocket (Some "plc")
                      (PortNumber 4840)) "opc.tcp://plc:4840" _))))
            _ (Error "socket already closed") _ _ _).
  - vm_compute. reflexivity.
  - reflexivity.
  - reflexivity.
  - reflexivity.
Defined.

(** X16.  Once the endpoint is normalised,
    [createSubscriptionAndMonitor] never throws.  Its result is a
    success exactly when [connect], [createSession],
    [createSubscription2] and [monitor] all succeed, and otherwise
    carries the text of the first error among them; a failure of
    [terminate], [close] or [disconnect] changes nothing.  On every
    path the first call connects to the normalised endpoint and the
    last call is the only [disconnect]; the subscription is terminated
    exactly when it was created, and the session closed exactly when
    it was created.  The stage of the handler, given the first
    failure as the outcome of the subscription, yields the same
    result. *)
Theorem subscription_is_always_torn_down (a : OpcUa.Answers) (cfg : Probe.Config)
        (url : string) :
  normalizeEndpoint (Probe.server cfg) (Probe.port cfg) = Ok url ->
  exists result v,
    OpcUa.createSubscriptionAndMonitor a cfg OpcUa.start = (Ok result, v)
    /\ (Ipc.success result = true <-> OpcUa.firstFailure a = None)
    /\ (OpcUa.firstFailure a = None ->
        result = Ipc.mkSubscription true
                   (Some (if truthy (Probe.nodeId cfg)
                          then orEmpty (Probe.nodeId cfg)
                          else Probe.defaultNodeId)) None)
    /\ (forall e, OpcUa.firstFailure a = Some e ->
                  result = Ipc.mkSubscription false None (Some (String_of_error e)))
    /\ hd_error (OpcUa.trace v) = Some (OpcUa.Connect url)
    /\ last (OpcUa.trace v) = Some OpcUa.Disconnect
    /\ length (List.filter OpcUa.isDisconnect (OpcUa.trace v)) = 1%nat
    /\ (In OpcUa.Terminate (OpcUa.trace v)
        <-> OpcUa.connect a = None /\ OpcUa.createSession a = None
            /\ OpcUa.createSubscription2 a = None)
    /\ (In OpcUa.CloseSession (OpcUa.trace v)
        <-> OpcUa.connect a = None /\ OpcUa.createSession a = None)
    /\ (forall (world : Probe.World) (r : Probe.Run),
          Probe.subscription world = OpcUa.firstFailure a ->
          fst (Probe.createSubscriptionAndMonitor world cfg r)
          = Probe.Normal result).
Proof.
  intros Hn.
  unfold OpcUa.createSubscriptionAndMonitor, OpcUa.firstFailure,
    Probe.createSubscriptionAndMonitor.
  rewrite Hn.
  cbv [OpcUa.andThen OpcUa.catching OpcUa.quietly OpcUa.done OpcUa.fail
       OpcUa.fromResult OpcUa.await OpcUa.awaitValue OpcUa.disconnectClient
       OpcUa.assignSession OpcUa.assignSubscription OpcUa.whenAssigned
       OpcUa.start Probe.bind Probe.ret Probe.lift Probe.invoke].
  cbn [OpcUa.trace OpcUa.session OpcUa.subscription fst snd].
  destruct (OpcUa.connect a) as [e1|];
    [|destruct (OpcUa.createSession a) as [e2|];
      [|destruct (OpcUa.createSubscription2 a) as [e3|];
        [|destruct (OpcUa.monitor a) as [e4|]]]];
    cbn [OpcUa.trace OpcUa.session OpcUa.subscription fst snd app List.filter
         OpcUa.isDisconnect length];
    destruct (OpcUa.terminate a) as [e5|];
    destruct (OpcUa.close a) as [e6|];
    cbn [OpcUa.trace OpcUa.session OpcUa.subscription fst snd app List.filter
         OpcUa.isDisconnect length];
    destruct (OpcUa.disconnect a 0) as [e7|];
    cbn [OpcUa.trace OpcUa.session OpcUa.subscription fst snd app List.filter
         OpcUa.isDisconnect length];
    eexists _, _; (split; [reflexivity|]);
    cbn [OpcUa.trace Ipc.success hd_error last List.filter OpcUa.isDisconnect
         length In];
    (split; [split; [intros H; try discriminate; reflexivity
                    |intros H; try discriminate; reflexivity]|]);
    (split; [intros H; try discriminate; reflexivity|]);
    (split; [intros e H; try discriminate; injection H as <-; reflexivity|]);
    (split; [reflexivity|]); (split; [reflexivity|]); (split; [reflexivity|]);
    (split; [split; [intros H; repeat (destruct H as [H|H]; try discriminate);
                     try contradiction; repeat split
                    |intros (H1 & H2 & H3); try discriminate; cbn; tauto]|]);
    (split; [split; [intros H; repeat (destruct H as [H|H]; try discriminate);
                     try contradiction; repeat split
                    |intros (H1 & H2); try discriminate; cbn; tauto]|]);
    intros world r Hsub; rewrite Hsub; reflexivity.
Qed.

Lemma subscription_is_always_torn_down_witness :
  exists result v,
    OpcUa.createSubscriptionAndMonitor OpcUa.stuckSocket Probe.plainConfig
                                       OpcUa.start = (Ok result, v)
    /\ Ipc.success result = true
    /\ last (OpcUa.trace v) = Some OpcUa.Disconnect.
Proof.
  destruct (subscription_is_always_torn_down OpcUa.stuckSocket Probe.plainConfig
              "opc.tcp://10.0.0.5:4840")
    as (result & v & Hrun & Hok & _ & _ & _ & Hlast & _).
  - vm_compute. reflexivity.
  - exists result, v. split; [exact Hrun|]. split; [|exact Hlast].
    apply Hok. reflexivity.
Defined.



(** ** The formatted sections of the log file *)

Section LogFormatFacts.

Import LogFormat.

Lemma length_app_s (a b : string) :
  String.length (a +:+ b) = (String.length a + String.length b)%nat.
Proof.
  induction a as [|c a IH]; [reflexivity|].
  rewrite app_cons. cbn [String.length]. now rewrite IH.
Qed.

Lemma length_repeatStr (c : ascii) (n : nat) :
  String.length (repeatStr (String c EmptyString) n) = n.
Proof.
  induction n as [|n IH]; [reflexivity|].
  cbn [repeatStr]. rewrite length_app_s, IH. reflexivity.
Qed.

Lemma length_padEnd (n : nat) (s : string) :
  String.length (padEnd n s) = Nat.max n (String.length s).
Proof.
  unfold padEnd. rewrite length_app_s, length_repeatStr. lia.
Qed.

Lemma length_substringTo (n : nat) (s : string) :
  String.length (substringTo n s) = Nat.min n (String.length s).
Proof.
  revert s. induction n as [|n IH]; intros [|c s]; try reflexivity.
  cbn [substringTo String.length]. now rewrite IH.
Qed.

Lemma length_cell (h : Header) (val : string) :
  (2 <= width h)%nat -> String.length (cell h val) = width h.
Proof.
  intros Hw. unfold cell.
  destruct (Nat.ltb_spec (width h) (String.length val)) as [Hlong|Hshort].
  - unfold sliceTo. destruct (Z.leb_spec 0 (Z.of_nat (width h) - 2)); [|lia].
    rewrite length_app_s, length_substringTo. cbn [String.length]. lia.
  - rewrite length_padEnd. lia.
Qed.

Lemma length_join (sep : string) (parts : list string) :
  String.length (join sep parts)
  = (list_sum (map String.length parts)
     + String.length sep * (length parts - 1))%nat.
Proof.
  induction parts as [|p rest IH]; [cbn; lia|].
  destruct rest as [|q rest].
  - cbn. lia.
  - change (join sep (p :: q :: rest)) with (p +:+ sep +:+ join sep (q :: rest)).
    rewrite !length_app_s, IH. cbn [map list_sum length].
    rewrite !Nat.sub_succ, !Nat.sub_0_r, Nat.mul_succ_r.
    unfold list_sum. cbn [fold_right]. lia.
Qed.

Lemma lengths_of_cells (headers : list Header) (g : nat -> Header -> string) :
  (forall i h, h ∈ headers -> String.length (g i h) = width h) ->
  map String.length (imap g headers) = map width headers.
Proof.
  revert g. induction headers as [|h rest IH]; intros g Hg; [reflexivity|].
  cbn [imap map]. rewrite Hg by apply list_elem_of_here.
  f_equal. apply IH. intros i h' Hin. apply Hg. now apply list_elem_of_further.
Qed.

Lemma length_map_same {A} (f : A -> string) (w : A -> nat) (l : list A) :
  (forall x, x ∈ l -> String.length (f x) = w x) ->
  map String.length (map f l) = map w l.
Proof.
  induction l as [|x l IH]; intros H; [reflexivity|].
  cbn [map]. rewrite H by apply list_elem_of_here.
  f_equal. apply IH. intros y Hy. apply H. now apply list_elem_of_further.
Qed.

Lemma cell_shows_or_cuts (h : Header) (val : string) :
  (2 <= width h)%nat ->
  if (width h <? String.length val)%nat
  then cell h val = substringTo (width h - 2) val +:+ ".."
  else exists pad, cell h val = val +:+ pad
                   /\ all_chars (fun c => Ascii.eqb c " ") pad = true.
Proof.
  intros Hw. unfold cell. destruct (width h <? String.length val)%nat.
  - unfold sliceTo. destruct (Z.leb_spec 0 (Z.of_nat (width h) - 2)); [|lia].
    do 2 f_equal. lia.
  - unfold padEnd. eexists. split; [reflexivity|].
    generalize (width h - String.length val)%nat as n.
    induction n as [|n IH]; [reflexivity|]. cbn [repeatStr].
    rewrite app_cons, app_nil_s. cbn [all_chars]. exact IH.
Qed.

End LogFormatFacts.

(** X18.  A table whose headers each have a width of at least 2 and a
    label no longer than that width is rectangular: [formatTable]
    returns two lines plus one line per row, and every line is as
    long as the indentation plus the widths of the columns plus two
    spaces between neighbours, whatever the rows contain.  Under the
    same condition a cell shows its value in full, padded with
    spaces, when the value fits, and otherwise the first width - 2
    code units of the value followed by two dots.  The headers of the
    three tables of the log file meet the condition. *)
Theorem formatTable_is_rectangular (headers : list LogFormat.Header)
        (rows : list (list string)) (indent : string) :
  Forall LogFormat.fits headers ->
  length (LogFormat.formatTable headers rows indent) = (2 + length rows)%nat
  /\ Forall (fun line =>
               String.length line
               = (String.length indent + LogFormat.lineWidth headers)%nat)
            (LogFormat.formatTable headers rows indent)
  /\ (forall h val, h ∈ headers ->
        if (LogFormat.width h <? String.length val)%nat
        then LogFormat.cell h val
             = substringTo (LogFormat.width h - 2) val +:+ ".."
        else exists pad,
            LogFormat.cell h val = val +:+ pad
            /\ all_chars (fun c => Ascii.eqb c " ") pad = true)
  /\ Forall LogFormat.fits LogFormat.endpointHeaders
  /\ Forall LogFormat.fits LogFormat.listenerHeaders
  /\ Forall LogFormat.fits LogFormat.connectionHeaders.
Proof.
  intros Hfits. rewrite Forall_forall in Hfits.
  split; [|split; [|split]].
  - unfold LogFormat.formatTable. cbn [app length]. now rewrite length_map.
  - unfold LogFormat.formatTable, LogFormat.lineWidth.
    apply Forall_app. split.
    + repeat (apply Forall_cons; split); [| |constructor];
        rewrite length_app_s, length_join, length_map; cbn [String.length];
        f_equal; f_equal; f_equal; apply length_map_same; intros h Hh.
      * rewrite length_padEnd. destruct (Hfits h Hh). lia.
      * apply length_repeatStr.
    + apply Forall_forall. intros line Hline.
      apply list_elem_of_In, in_map_iff in Hline as (row & <- & _).
      rewrite length_app_s, length_join, length_imap. cbn [String.length].
      f_equal. f_equal. f_equal. apply lengths_of_cells. intros i h Hh.
      apply length_cell. now destruct (Hfits h Hh).
  - intros h val Hh. apply cell_shows_or_cuts. now destruct (Hfits h Hh).
  - repeat split; repeat (apply Forall_cons; split; [split; cbn; lia|]);
      constructor.
Qed.

Lemma formatTable_is_rectangular_witness :
  length (LogFormat.formatTable LogFormat.listenerHeaders
            [["TCP"; "0.0.0.0"; "135"; "1234"];
             ["TCP"; "[fe80::1c2d:3e4f:5a6b:7c8d%12]"; "49664"]] "    ")
  = 4%nat
  /\ Forall (fun line => String.length line = 48%nat)
            (LogFormat.formatTable LogFormat.listenerHeaders
               [["TCP"; "0.0.0.0"; "135"; "1234"];
                ["TCP"; "[fe80::1c2d:3e4f:5a6b:7c8d%12]"; "49664"]] "    ").
Proof.
  split.
  - apply (formatTable_is_rectangular LogFormat.listenerHeaders
             [["TCP"; "0.0.0.0"; "135"; "1234"];
              ["TCP"; "[fe80::1c2d:3e4f:5a6b:7c8d%12]"; "49664"]] "    ").
    repeat (apply Forall_cons; split; [split; cbn; lia|]). constructor.
  - apply (formatTable_is_rectangular LogFormat.listenerHeaders
             [["TCP"; "0.0.0.0"; "135"; "1234"];
              ["TCP"; "[fe80::1c2d:3e4f:5a6b:7c8d%12]"; "49664"]] "    ").
    repeat (apply Forall_cons; split; [split; cbn; lia|]). constructor.
Defined.

(** ** The security summary of the endpoints *)

Section EndpointSummaryFacts.

Import Ipc LogFormat.

Lemma keys_bump (o : list (string * Cell)) (k k' : string) :
  k' ∈ map fst (bump o k)
  <-> (k' = k /\ k <> "__proto__") \/ k' ∈ map fst o.
Proof.
  induction o as [|[k0 v] rest IH].
  - cbn [bump]. destruct (String.eqb_spec k "__proto__") as [Hk|Hk].
    + cbn. rewrite elem_of_nil. tauto.
    + cbn. rewrite list_elem_of_singleton, elem_of_nil. tauto.
  - cbn [bump]. destruct (String.eqb_spec k0 k) as [->|Hne].
    + cbn [map fst]. rewrite !elem_of_cons. tauto.
    + cbn [map fst]. rewrite !elem_of_cons, IH. tauto.
Qed.

Lemma NoDup_bump (o : list (string * Cell)) (k : string) :
  NoDup (map fst o) -> NoDup (map fst (bump o k)).
Proof.
  induction o as [|[k0 v] rest IH]; intros Hnd.
  - cbn [bump]. destruct (String.eqb k "__proto__"); cbn.
    + constructor.
    + apply NoDup_singleton.
  - cbn [bump]. destruct (String.eqb_spec k0 k) as [->|Hne]; [exact Hnd|].
    cbn [map fst] in *. apply NoDup_cons in Hnd as [Hnin Hnd].
    apply NoDup_cons. split; [|now apply IH].
    rewrite keys_bump. intros [[-> _]|H]; [now apply Hne | now apply Hnin].
Qed.

Lemma key_of_elem (o : list (string * Cell)) (k : string) (v : Cell) :
  (k, v) ∈ o -> k ∈ map fst o.
Proof.
  intros H. apply list_elem_of_In, in_map_iff. exists (k, v).
  split; [reflexivity | now apply list_elem_of_In].
Qed.

(** The properties of [bump o k]: those of [o] under the other keys;
    under [k], the value of [o] incremented, or a new value when [k]
    is not an own key and is not [__proto__]. *)
Lemma elem_bump (o : list (string * Cell)) (k k' : string) (v : Cell) :
  NoDup (map fst o) ->
  (k', v) ∈ bump o k
  <-> (k' <> k /\ (k', v) ∈ o)
      \/ (k' = k
          /\ ((exists u, (k, u) ∈ o /\ v = increment u)
              \/ ((k ∉ map fst o) /\ k <> "__proto__"
                  /\ v = if inherited k then Junk else Count 1))).
Proof.
  induction o as [|[k0 v0] rest IH]; intros Hnd.
  - cbn [bump map]. destruct (String.eqb_spec k "__proto__") as [Hk|Hk].
    + rewrite elem_of_nil. split; [tauto|].
      intros [[_ H]|[_ [(u & H & _)|(_ & H & _)]]];
        first [now apply elem_of_nil in H | contradiction].
    + rewrite list_elem_of_singleton. split.
      * intros [= -> ->]. right. split; [reflexivity|]. right.
        split; [apply not_elem_of_nil|]. now split.
      * intros [[_ H]|[-> [(u & H & _)|(_ & _ & ->)]]]; try reflexivity;
          now apply elem_of_nil in H.
  - cbn [map fst] in Hnd. apply NoDup_cons in Hnd as [Hnin Hnd].
    cbn [bump]. destruct (String.eqb_spec k0 k) as [->|Hne].
    + rewrite !elem_of_cons. split.
      * intros [[= -> ->]|Hin].
        -- right. split; [reflexivity|]. left. exists v0.
           split; [apply list_elem_of_here | reflexivity].
        -- left. split; [|now right]. intros ->. apply Hnin.
           now apply (key_of_elem rest k v).
      * intros [[Hk [[= -> ->]|Hin]]|[-> [(u & Hu & ->)|(Hk & _)]]].
        -- contradiction.
        -- now right.
        -- apply elem_of_cons in Hu as [[= <-]|Hu]; [now left|].
           exfalso. apply Hnin. now apply (key_of_elem rest k u).
        -- exfalso. apply Hk. cbn [map fst]. apply list_elem_of_here.
    + rewrite !elem_of_cons, (IH Hnd). cbn [map fst]. rewrite not_elem_of_cons.
      split.
      * intros [[= -> ->]|[[Hk Hin]|[-> [(u & Hu & ->)|(Hk & Hp & ->)]]]].
        -- left. split; [exact Hne | now left].
        -- left. split; [exact Hk | now right].
        -- right. split; [reflexivity|]. left. exists u. split; [now right|reflexivity].
        -- right. split; [reflexivity|]. right. split; [|now split].
           split; [now intros -> | exact Hk].
      * intros [[Hk [[= -> ->]|Hin]]|[-> [(u & Hu & ->)|([_ Hk] & Hp & ->)]]].
        -- now left.
        -- right. left. now split.
        -- apply elem_of_cons in Hu as [[= -> _]|Hu]; [contradiction|].
           right. right. split; [reflexivity|]. left. now exists u.
        -- right. right. split; [reflexivity|]. right. now split.
Qed.

(** What the table holds under [k] after [n] endpoints with that
    key. *)
Definition cellAfter (k : string) (n : nat) : Cell :=
  if inherited k then Junk else Count n.

Lemma increment_cellAfter (k : string) (n : nat) :
  increment (cellAfter k n) = cellAfter k (S n).
Proof. unfold cellAfter. now destruct (inherited k). Qed.

Lemma sum_bump (o : list (string * Cell)) (k : string) :
  (forall u, (k, u) ∈ o -> k <> "__proto__" /\ exists n, u = cellAfter k n) ->
  list_sum (map (fun kv => countOf (snd kv)) (bump o k))
  = (list_sum (map (fun kv => countOf (snd kv)) o)
     + (if fromPrototype k then 0 else 1))%nat.
Proof.
  unfold fromPrototype. induction o as [|[k0 v] rest IH]; intros Hown.
  - cbn [bump]. destruct (String.eqb k "__proto__"); [reflexivity|].
    cbn [orb]. now destruct (inherited k).
  - cbn [bump]. destruct (String.eqb_spec k0 k) as [->|Hne].
    + destruct (Hown v (list_elem_of_here _ _)) as [Hp [n ->]].
      apply String.eqb_neq in Hp. rewrite Hp. cbn [orb].
      cbn [map snd]. unfold list_sum. cbn [fold_right].
      unfold cellAfter. destruct (inherited k); cbn [increment countOf]; lia.
    + cbn [map snd]. unfold list_sum in *. cbn [fold_right]. rewrite IH; [lia|].
      intros u Hu. apply Hown. now apply list_elem_of_further.
Qed.

(** The table of counts after the endpoints [l], filed under [key]. *)
Lemma counts_spec (key : EndpointDescription -> string)
      (l : list EndpointDescription) :
  let o := fold_left (fun o ep => bump o (key ep)) l [] in
  NoDup (map fst o)
  /\ list_sum (map (fun kv => countOf (snd kv)) o)
     = length (List.filter (fun ep => negb (fromPrototype (key ep))) l)
  /\ forall k v,
      (k, v) ∈ o
      <-> (0 < length (List.filter (fun ep => String.eqb (key ep) k) l))%nat
          /\ k <> "__proto__"
          /\ v = cellAfter k
                   (length (List.filter (fun ep => String.eqb (key ep) k) l)).
Proof.
  cbv zeta. induction l as [|ep l IH] using rev_ind.
  - cbn. split; [constructor|]. split; [reflexivity|].
    intros k v. rewrite elem_of_nil. lia.
  - rewrite fold_left_app. cbn [fold_left].
    destruct IH as (Hnd & Hsum & Hcount).
    set (o := fold_left (fun o ep => bump o (key ep)) l []) in *.
    split; [now apply NoDup_bump|]. split.
    { rewrite sum_bump.
      - rewrite Hsum, List.filter_app, length_app. cbn [List.filter].
        now destruct (fromPrototype (key ep)).
      - intros u Hu. apply Hcount in Hu as (_ & Hp & ->).
        split; [exact Hp | now eexists]. }
    intros k v. rewrite (elem_bump o (key ep) k v Hnd).
    rewrite List.filter_app, length_app. cbn [List.filter].
    destruct (String.eqb_spec (key ep) k) as [Hk|Hk]; cbn [length].
    + subst k.
      set (n := length (List.filter (fun ep0 => String.eqb (key ep0) (key ep)) l))
        in *.
      split.
      * intros [[Hne _]|[_ [(u & Hu & ->)|(Hnin & Hp & ->)]]]; [contradiction| |].
        -- apply Hcount in Hu as (Hpos & Hp & ->). fold n in Hpos.
           split; [lia|]. split; [exact Hp|].
           rewrite increment_cellAfter. f_equal. lia.
        -- split; [lia|]. split; [exact Hp|].
           assert (n = 0%nat) as ->.
           { destruct n as [|n'] eqn:Hn; [reflexivity|]. exfalso. apply Hnin.
             apply (key_of_elem o (key ep) (cellAfter (key ep) (S n'))).
             apply Hcount. fold n. rewrite Hn. split; [lia|]. now split. }
           reflexivity.
      * intros (_ & Hp & ->). right. split; [reflexivity|].
        destruct n as [|n'] eqn:Hn.
        -- right. split; [|now split].
           intros Hin. apply list_elem_of_In, in_map_iff in Hin as ([k' u] & Hk' & Hin).
           cbn in Hk'. subst k'. apply list_elem_of_In, Hcount in Hin as (Hpos & _).
           fold n in Hpos. lia.
        -- left. exists (cellAfter (key ep) (S n')). split.
           ++ apply Hcount. fold n. rewrite Hn. split; [lia|]. now split.
           ++ rewrite increment_cellAfter. f_equal. lia.
    + rewrite Nat.add_0_r, <- Hcount. split.
      * intros [[_ H]|[-> _]]; [exact H | contradiction].
      * intros H. left. split; [now intros -> | exact H].
Qed.

Lemma filter_partition {A} (f : A -> bool) (l : list A) :
  List.filter f l ++ List.filter (fun x => negb (f x)) l ≡ₚ l.
Proof.
  induction l as [|x l IH]; [reflexivity|]. cbn [List.filter].
  destruct (f x); cbn [negb app].
  - now constructor.
  - rewrite <- Permutation_middle. now constructor.
Qed.

Lemma entriesOf_Permutation (o : list (string * Cell)) : entriesOf o ≡ₚ o.
Proof.
  unfold entriesOf. rewrite merge_sort_Permutation. apply filter_partition.
Qed.

Lemma list_sum_Permutation (l l' : list nat) :
  l ≡ₚ l' -> list_sum l = list_sum l'.
Proof.
  unfold list_sum. induction 1; cbn [fold_right]; lia.
Qed.

Lemma addToken_elem (l acc : list Z) (t : Z) :
  t ∈ fold_left addToken l acc <-> t ∈ acc \/ t ∈ l.
Proof.
  revert acc. induction l as [|x l IH]; intros acc; cbn [fold_left].
  - rewrite elem_of_nil. tauto.
  - rewrite IH, elem_of_cons. unfold addToken.
    destruct (decide (x ∈ acc)) as [Hin|Hnin].
    + split; [tauto|]. intros [H|[->|H]]; tauto.
    + rewrite elem_of_app, list_elem_of_singleton. tauto.
Qed.

Lemma addToken_NoDup (l acc : list Z) :
  NoDup acc -> NoDup (fold_left addToken l acc).
Proof.
  revert acc. induction l as [|x l IH]; intros acc Hacc; cbn [fold_left];
    [exact Hacc|].
  apply IH. unfold addToken.
  destruct (decide (x ∈ acc)) as [Hin|Hnin]; [exact Hacc|].
  apply NoDup_app. split; [exact Hacc|]. split.
  - intros y Hy ->%list_elem_of_singleton. contradiction.
  - apply NoDup_singleton.
Qed.

Lemma tokens_spec (l : list EndpointDescription) (acc : list Z) :
  NoDup acc ->
  let s := fold_left (fun s ep => fold_left addToken (userIdentityTokens ep) s)
                     l acc in
  NoDup s
  /\ forall t, t ∈ s <-> t ∈ acc \/ exists ep, ep ∈ l /\ t ∈ userIdentityTokens ep.
Proof.
  cbv zeta. revert acc. induction l as [|ep l IH]; intros acc Hacc; cbn [fold_left].
  - split; [exact Hacc|]. intros t. split; [tauto|].
    intros [H|(ep & H & _)]; [exact H | now apply elem_of_nil in H].
  - destruct (IH _ (addToken_NoDup (userIdentityTokens ep) acc Hacc)) as [Hnd Hmem].
    split; [exact Hnd|]. intros t. rewrite Hmem, addToken_elem. split.
    + intros [[H|H]|(ep' & Hin & Ht)].
      * now left.
      * right. exists ep. split; [apply list_elem_of_here | exact H].
      * right. exists ep'. split; [now apply list_elem_of_further | exact Ht].
    + intros [H|(ep' & Hin & Ht)]; [tauto|].
      apply elem_of_cons in Hin as [->|Hin]; [tauto|].
      right. now exists ep'.
Qed.

Lemma pretty_nonzero_shape (n : Z) :
  n <> 0%Z ->
  exists c rest, pretty n = String c rest
                 /\ (is_digit c = true \/ c = "-"%char).
Proof.
  intros Hn. destruct n as [|p|p]; [contradiction| |].
  - destruct (pretty_positive_digits (Z.pos p)) as [Hne Hdig]; [lia|].
    destruct (pretty (Z.pos p)) as [|c rest]; [contradiction|].
    exists c, rest. split; [reflexivity|]. left.
    cbn [all_chars] in Hdig. now apply andb_true_iff in Hdig as [Hc _].
  - exists "-"%char, (pretty p). split; [reflexivity | now right].
Qed.

(** The key of a mode is "Unknown" or the text of a number: it is not
    a name that [Object.prototype] answers for. *)
Lemma modeKey_is_own (ep : EndpointDescription) : fromPrototype (modeKey ep) = false.
Proof.
  unfold modeKey. destruct (Z.eqb_spec (securityMode ep) 0) as [H0|H0];
    [reflexivity|].
  destruct (pretty_nonzero_shape _ H0) as (c & rest & -> & [Hc| ->]);
    [|reflexivity].
  unfold fromPrototype, inherited, inheritedMethods.
  cbn [existsb String.eqb].
  destruct c as [[] [] [] [] [] [] [] []]; try discriminate Hc; reflexivity.
Qed.

End EndpointSummaryFacts.

(** X19.  [shortenPolicyUri] returns "Unknown" for a missing or empty
    URI.  For any other URI the result contains no [#]: it is what
    follows the last [#] of the URI, or the URI itself when there is
    none.  Shortening a non-empty result again changes nothing. *)
Theorem shortened_policy_has_no_hash (uri : string) :
  LogFormat.shortenPolicyUri None = "Unknown"
  /\ LogFormat.shortenPolicyUri (Some "") = "Unknown"
  /\ (uri <> "" ->
      let short := LogFormat.shortenPolicyUri (Some uri) in
      all_chars (fun d => negb (Ascii.eqb d "#")) short = true
      /\ ((exists before, uri = before +:+ "#" +:+ short)
          \/ (all_chars (fun d => negb (Ascii.eqb d "#")) uri = true
              /\ short = uri))
      /\ (short <> "" -> LogFormat.shortenPolicyUri (Some short) = short)).
Proof.
  split; [reflexivity|]. split; [reflexivity|].
  intros Hne. cbv zeta.
  assert (Htruthy : truthy (Some uri) = true).
  { cbn. destruct (String.eqb_spec uri ""); [contradiction | reflexivity]. }
  assert (Hfix : forall s, s <> "" ->
            all_chars (fun d => negb (Ascii.eqb d "#")) s = true ->
            LogFormat.shortenPolicyUri (Some s) = s).
  { intros s Hs Hall. unfold LogFormat.shortenPolicyUri.
    assert (truthy (Some s) = true) as ->.
    { cbn. destruct (String.eqb_spec s ""); [contradiction | reflexivity]. }
    cbn [negb orEmpty]. apply lastIndexOf_None in Hall. now rewrite Hall. }
  assert (Hshort : LogFormat.shortenPolicyUri (Some uri)
                   = match lastIndexOf "#" uri with
                     | Some idx => sliceFrom (S idx) uri
                     | None => uri
                     end).
  { unfold LogFormat.shortenPolicyUri. rewrite Htruthy. cbn [negb orEmpty].
    destruct (lastIndexOf "#" uri); [now rewrite Nat.add_1_r | reflexivity]. }
  rewrite Hshort. clear Hshort.
  destruct (lastIndexOf "#" uri) as [idx|] eqn:Hlast.
  - destruct (lastIndexOf_Some "#" uri idx Hlast) as [Heq Hno].
    split; [exact Hno|]. split.
    + left. exists (substringTo idx uri). exact Heq.
    + intros Hs. now apply Hfix.
  - apply lastIndexOf_None in Hlast. split; [exact Hlast|]. split.
    + right. now split.
    + intros _. now apply Hfix.
Qed.

Lemma shortened_policy_has_no_hash_witness :
  all_chars (fun d => negb (Ascii.eqb d "#"))
            (LogFormat.shortenPolicyUri
               (Some "http://opcfoundation.org/UA/SecurityPolicy#Basic256Sha256"))
  = true.
Proof.
  apply (proj2 (proj2 (shortened_policy_has_no_hash
                         "http://opcfoundation.org/UA/SecurityPolicy#Basic256Sha256"))).
  discriminate.
Defined.

(** X20.  The endpoint summary counts the endpoints in two plain
    objects, which [formatEndpointResults] reads with
    [Object.entries].  In each of them no key appears twice, a key has
    an entry exactly when some endpoint carries it and it is not
    [__proto__], and the entry holds the number of endpoints that
    carry the key, unless the key names a method that objects inherit
    ([constructor], [toString], ...): the entry is then a string and
    not a count.  The counts of a table add up to the number of
    endpoints whose key is neither [__proto__] nor an inherited
    method; the key of a mode never is, so that every endpoint is
    counted once in the table of the modes.  The token types are
    listed without repetition and are exactly those offered by some
    endpoint. *)
Theorem every_endpoint_is_counted_once (endpoints : list Ipc.EndpointDescription) :
  let summary := LogFormat.endpointSummary endpoints in
  let policies := LogFormat.entriesOf (LogFormat.securityPolicies summary) in
  let modes := LogFormat.entriesOf (LogFormat.securityModes summary) in
  LogFormat.total summary = length endpoints
  /\ NoDup (map fst policies)
  /\ (forall k v,
        (k, v) ∈ policies
        <-> let n := length (List.filter
                               (fun ep => String.eqb (LogFormat.policyKey ep) k)
                               endpoints) in
            (0 < n)%nat /\ k <> "__proto__"
            /\ v = if LogFormat.inherited k then LogFormat.Junk
                   else LogFormat.Count n)
  /\ list_sum (map (fun kv => LogFormat.countOf (snd kv)) policies)
     = length (List.filter
                 (fun ep => negb (LogFormat.fromPrototype (LogFormat.policyKey ep)))
                 endpoints)
  /\ NoDup (map fst modes)
  /\ (forall k v,
        (k, v) ∈ modes
        <-> let n := length (List.filter
                               (fun ep => String.eqb (LogFormat.modeKey ep) k)
                               endpoints) in
            (0 < n)%nat /\ v = LogFormat.Count n)
  /\ list_sum (map (fun kv => LogFormat.countOf (snd kv)) modes) = length endpoints
  /\ NoDup (LogFormat.userTokenTypes summary)
  /\ (forall t, t ∈ LogFormat.userTokenTypes summary
                <-> exists ep, ep ∈ endpoints /\ t ∈ Ipc.userIdentityTokens ep).
Proof.
  cbv zeta. unfold LogFormat.endpointSummary.
  cbn [LogFormat.total LogFormat.securityPolicies LogFormat.securityModes
       LogFormat.userTokenTypes].
  destruct (counts_spec LogFormat.policyKey endpoints) as (Hp1 & Hp2 & Hp3).
  destruct (counts_spec LogFormat.modeKey endpoints) as (Hm1 & Hm2 & Hm3).
  destruct (tokens_spec endpoints [] (NoDup_nil_2 (A:=Z))) as (Ht1 & Ht2).
  split; [reflexivity|].
  split; [now rewrite entriesOf_Permutation|].
  split; [intros k v; rewrite entriesOf_Permutation; apply Hp3|].
  split.
  { rewrite <- Hp2. apply list_sum_Permutation.
    now rewrite entriesOf_Permutation. }
  split; [now rewrite entriesOf_Permutation|].
  split.
  { intros k v. rewrite entriesOf_Permutation, Hm3. unfold cellAfter.
    split.
    - intros (Hpos & _ & ->). split; [exact Hpos|].
      destruct (List.filter (fun ep => String.eqb (LogFormat.modeKey ep) k) endpoints)
        as [|ep rest] eqn:Hf; [cbn in Hpos; lia|].
      assert (Hin : List.In ep (List.filter
                                 (fun ep => String.eqb (LogFormat.modeKey ep) k)
                                 endpoints)) by (rewrite Hf; now left).
      apply filter_In in Hin as [_ Heq]. apply String.eqb_eq in Heq. subst k.
      pose proof (modeKey_is_own ep) as Hown. unfold LogFormat.fromPrototype in Hown.
      apply orb_false_iff in Hown as [_ ->]. reflexivity.
    - intros (Hpos & ->).
      destruct (List.filter (fun ep => String.eqb (LogFormat.modeKey ep) k) endpoints)
        as [|ep rest] eqn:Hf; [cbn in Hpos; lia|].
      assert (Hin : List.In ep (List.filter
                                 (fun ep => String.eqb (LogFormat.modeKey ep) k)
                                 endpoints)) by (rewrite Hf; now left).
      apply filter_In in Hin as [_ Heq]. apply String.eqb_eq in Heq. subst k.
      pose proof (modeKey_is_own ep) as Hown. unfold LogFormat.fromPrototype in Hown.
      apply orb_false_iff in Hown as [Hp ->].
      split; [exact Hpos|]. split; [|reflexivity].
      intros Heq. rewrite Heq in Hp. discriminate. }
  split.
  { rewrite (list_sum_Permutation _ _
               (Permutation_map _ (entriesOf_Permutation _))), Hm2.
    f_equal. clear. induction endpoints as [|ep l IH]; [reflexivity|].
    cbn [List.filter]. rewrite modeKey_is_own. cbn [negb]. now rewrite IH. }
  split; [exact Ht1|].
  intros t. rewrite Ht2, elem_of_nil. tauto.
Qed.

(** A server that names a policy [constructor] and one [__proto__]:
    of three endpoints, one is counted. *)
Example inherited_names_are_not_counted :
  LogFormat.entriesOf
    (LogFormat.securityPolicies
       (LogFormat.endpointSummary
          [Ipc.mkEndpoint "opc.tcp://plc:4840" "constructor" 1 [];
           Ipc.mkEndpoint "opc.tcp://plc:4840" "7" 1 [];
           Ipc.mkEndpoint "opc.tcp://plc:4840" "__proto__" 3 []]))
  = [("7", LogFormat.Count 1); ("constructor", LogFormat.Junk)].
Proof. vm_compute. reflexivity. Qed.

(** X21.  The "Modes" block of the security summary never shows the
    name of a mode.  Its names are the keys of the table of counts,
    which are strings, and [securityModeToString] returns a string
    unchanged: an endpoint whose mode is the number n is listed under
    the decimal text of n, or under "Unknown" when n is 0, whereas the
    row of the same endpoint in the table of endpoints shows Invalid,
    None, Sign or SignAndEncrypt for n from 0 to 3. *)
Theorem summary_lists_modes_by_number (ep : Ipc.EndpointDescription) :
  let listed := LogFormat.securityModeToString (LogFormat.Text (LogFormat.modeKey ep)) in
  let shown := LogFormat.securityModeToString (LogFormat.Number (Ipc.securityMode ep)) in
  listed = (if (Ipc.securityMode ep =? 0)%Z then "Unknown"
            else pretty (Ipc.securityMode ep))
  /\ (listed ∉ ["Invalid"; "None"; "Sign"; "SignAndEncrypt"])
  /\ ((0 <= Ipc.securityMode ep <= 3)%Z ->
      shown ∈ ["Invalid"; "None"; "Sign"; "SignAndEncrypt"] /\ shown <> listed).
Proof.
  cbv zeta. cbn [LogFormat.securityModeToString]. unfold LogFormat.modeKey.
  split; [reflexivity|].
  assert (Hnot : (if (Ipc.securityMode ep =? 0)%Z then "Unknown"
                  else pretty (Ipc.securityMode ep))
                 ∉ ["Invalid"; "None"; "Sign"; "SignAndEncrypt"]).
  { destruct (Z.eqb_spec (Ipc.securityMode ep) 0) as [H0|H0].
    - intros H. repeat (apply elem_of_cons in H as [H|H]; [discriminate|]).
      now apply elem_of_nil in H.
    - destruct (pretty_nonzero_shape _ H0) as (c & rest & -> & Hc).
      intros H.
      repeat (apply elem_of_cons in H as [H|H];
              [injection H as -> _; now destruct Hc|]).
      now apply elem_of_nil in H. }
  split; [exact Hnot|].
  intros Hrange.
  assert (Hshown : LogFormat.securityModeToString
                     (LogFormat.Number (Ipc.securityMode ep))
                   ∈ ["Invalid"; "None"; "Sign"; "SignAndEncrypt"]).
  { assert (Ipc.securityMode ep = 0 \/ Ipc.securityMode ep = 1
            \/ Ipc.securityMode ep = 2 \/ Ipc.securityMode ep = 3)%Z
      as [-> | [-> | [-> | ->]]] by lia; apply list_elem_of_In; cbn; tauto. }
  split; [exact Hshown|]. intros Heq. apply Hnot. now rewrite <- Heq.
Qed.

Lemma summary_lists_modes_by_number_witness :
  LogFormat.securityModeToString
    (LogFormat.Number
       (Ipc.securityMode (Ipc.mkEndpoint "opc.tcp://plc:4840" "" 3 [])))
  <> LogFormat.securityModeToString
       (LogFormat.Text
          (LogFormat.modeKey (Ipc.mkEndpoint "opc.tcp://plc:4840" "" 3 []))).
Proof.
  apply (proj2 (proj2 (summary_lists_modes_by_number
                         (Ipc.mkEndpoint "opc.tcp://plc:4840" "" 3 [])))).
  cbn. lia.
Defined.

Section SummaryLineFacts.

Import LogFormat.

Lemma repeatStr_all (c : ascii) (n : nat) :
  all_chars (fun d => Ascii.eqb d c) (repeatStr (String c EmptyString) n) = true.
Proof.
  induction n as [|n IH]; [reflexivity|].
  cbn [repeatStr]. rewrite app_cons, app_nil_s. cbn [all_chars].
  now rewrite Ascii.eqb_refl, IH.
Qed.

Lemma summary_line_shape (name : string -> string) (m : nat)
      (entries : list (string * nat)) :
  Forall (fun kv => (String.length (name (fst kv)) <= m)%nat) entries ->
  Forall2
    (fun kv line =>
       exists dots,
         line = "      " +:+ name (fst kv) +:+ " " +:+ dots +:+ " "
                +:+ pretty (snd kv) +:+ " endpoint(s)"
         /\ all_chars (fun d => Ascii.eqb d ".") dots = true
         /\ (String.length (name (fst kv)) + String.length dots = m + 3)%nat)
    entries
    (map (fun kv =>
            let n := name (fst kv) in
            let dots :=
              repeatStr "." (Z.to_nat (Z.max 2 (Z.of_nat m
                                               - Z.of_nat (String.length n) + 3))) in
            "      " +:+ n +:+ " " +:+ dots +:+ " " +:+ pretty (snd kv)
            +:+ " endpoint(s)")
         entries).
Proof.
  induction 1 as [|kv rest Hkv _ IH]; [constructor|].
  cbn [map]. constructor; [|exact IH].
  eexists. split; [reflexivity|]. split; [apply repeatStr_all|].
  rewrite length_repeatStr. lia.
Qed.

End SummaryLineFacts.

(** X22.  The lines of a block of the security summary are aligned:
    each line is the indentation, the name, a space, a run of dots, a
    space and the count, and the name and its dots together are
    always three code units longer than the longest name of the
    block, so that the counts start in one column and every name is
    followed by three dots at least. *)
Theorem summary_counts_are_aligned (name : string -> string)
        (entries : list (string * nat)) :
  let longest := list_max (map (fun kv => String.length (name (fst kv))) entries) in
  Forall2
    (fun kv line =>
       exists dots,
         line = "      " +:+ name (fst kv) +:+ " " +:+ dots +:+ " "
                +:+ pretty (snd kv) +:+ " endpoint(s)"
         /\ all_chars (fun d => Ascii.eqb d ".") dots = true
         /\ (String.length (name (fst kv)) + String.length dots = longest + 3)%nat)
    entries (LogFormat.summaryLines name entries).
Proof.
  cbv zeta. unfold LogFormat.summaryLines. apply summary_line_shape.
  assert (H : (list_max (map (fun kv => String.length (name (fst kv))) entries)
               <= list_max (map (fun kv => String.length (name (fst kv))) entries))%nat)
    by lia.
  apply list_max_le in H. now apply Forall_map in H.
Qed.

(** ** The configuration built by the renderer *)

Section RendererFacts.

Import Ipc Probe Renderer.

Variable double : Z -> JsNumber.

Lemma clickConfig_port (serverValue portValue nodeidValue publishingValue : string) :
  exists p,
    port (clickConfig double serverValue portValue nodeidValue publishingValue)
    = PortNumber p
    /\ (1 <= p <= 65535)%Z.
Proof.
  unfold clickConfig. cbn [port].
  destruct (parseInt double portValue) as [[|p|]|];
    try (exists 4840%Z; split; [reflexivity | lia]).
  destruct (Z.leb_spec p 0); cbn [orb];
    [exists 4840%Z; split; [reflexivity | lia]|].
  destruct (Z.ltb_spec 65535 p);
    [exists 4840%Z; split; [reflexivity | lia]|].
  exists p. split; [reflexivity | lia].
Qed.

Lemma leadingDigits_all (digits : string) :
  all_chars is_digit digits = true -> leadingDigits digits = digits.
Proof.
  induction digits as [|c s IH]; [reflexivity|].
  cbn [all_chars leadingDigits]. intros [Hc Hs]%andb_true_iff.
  now rewrite Hc, (IH Hs).
Qed.

Lemma parseInt_digits (digits : string) :
  digits <> "" -> all_chars is_digit digits = true ->
  parseInt double digits = Some (double (decimal 0 digits)).
Proof.
  intros Hne Hall. unfold parseInt.
  destruct digits as [|c s]; [contradiction|].
  pose proof Hall as Hall'. cbn [all_chars] in Hall'.
  apply andb_true_iff in Hall' as [Hc _].
  rewrite trimStart_fixed by (cbn [headIsWs]; now apply digit_is_not_ws).
  assert (Ascii.eqb c "-" = false) as ->.
  { destruct (Ascii.eqb_spec c "-") as [->|]; [discriminate Hc | reflexivity]. }
  assert (Ascii.eqb c "+" = false) as ->.
  { destruct (Ascii.eqb_spec c "+") as [->|]; [discriminate Hc | reflexivity]. }
  cbn [fst snd]. rewrite (leadingDigits_all _ Hall).
  destruct (String.eqb_spec (String c s) ""); [discriminate | reflexivity].
Qed.

End RendererFacts.

(** X23.  Whatever is typed in the four fields, the configuration
    built by the Run button carries a port between 1 and 65535, a
    node identifier that is not empty and a positive publishing
    interval.  With such a configuration [normalizeEndpoint] never
    throws "port missing": it throws "server missing" when the server
    field is blank once trimmed and stripped of its scheme, and
    otherwise returns an endpoint whose port is the one of the
    configuration, so that a port typed after the host in the server
    field never reaches the endpoint.  When doubles represent the
    integers up to 65535 exactly, a port field holding the digits of
    a number between 1 and 65535 yields that number. *)
Theorem ui_configuration_always_has_a_port (double : Z -> Ipc.JsNumber)
        (serverValue portValue nodeidValue publishingValue : string) :
  let cfg := Renderer.clickConfig double serverValue portValue nodeidValue
                                  publishingValue in
  exists p,
    Probe.port cfg = PortNumber p
    /\ (1 <= p <= 65535)%Z
    /\ truthy (Probe.nodeId cfg) = true
    /\ (0 < Probe.publishingInterval cfg)%Z
    /\ Probe.server cfg = Some (stripScheme (trim serverValue))
    /\ normalizeEndpoint (Probe.server cfg) (Probe.port cfg)
       = (if String.eqb (stripScheme (trim serverValue)) ""
          then Throw (Error "server missing")
          else Ok (scheme
                   +:+ fst (hostAndPort (stripScheme (trim serverValue))
                                        (PortNumber p))
                   +:+ ":" +:+ pretty p))
    /\ ((forall v, (0 <= v <= 65535)%Z -> double v = Ipc.Num v) ->
        portValue <> "" -> all_chars is_digit portValue = true ->
        (1 <= Renderer.decimal 0 portValue <= 65535)%Z ->
        p = Renderer.decimal 0 portValue).
Proof.
  cbv zeta.
  destruct (clickConfig_port double serverValue portValue nodeidValue
                             publishingValue) as (p & Hp & Hrange).
  exists p. split; [exact Hp|]. split; [exact Hrange|].
  split; [|split; [|split; [reflexivity|split]]].
  - unfold Renderer.clickConfig. cbn [Probe.nodeId truthy].
    destruct (String.eqb_spec nodeidValue "") as [_|Hne]; [reflexivity|].
    destruct (String.eqb_spec nodeidValue ""); [contradiction | reflexivity].
  - unfold Renderer.clickConfig. cbn [Probe.publishingInterval].
    destruct (Renderer.parseInt double publishingValue) as [[|q|]|]; try lia.
    destruct (Z.ltb_spec 0 q); lia.
  - rewrite Hp. unfold Renderer.clickConfig. cbn [Probe.server].
    unfold normalizeEndpoint. cbn [truthy orEmpty].
    destruct (String.eqb (stripScheme (trim serverValue)) ""); cbn [negb];
      [reflexivity|].
    assert (Hsnd : snd (hostAndPort (stripScheme (trim serverValue)) (PortNumber p))
                   = PortNumber p).
    { unfold hostAndPort.
      destruct (hostPortMatch _) as [[host digits]|]; cbn [snd port_falsy];
        [|reflexivity].
      destruct (Z.eqb_spec p 0); [lia | reflexivity]. }
    rewrite Hsnd. cbn [port_falsy port_text].
    destruct (Z.eqb_spec p 0); [lia | reflexivity].
  - intros Hexact Hne Hall Hv. revert Hp. unfold Renderer.clickConfig.
    cbn [Probe.port]. rewrite (parseInt_digits double portValue Hne Hall).
    rewrite Hexact by lia.
    destruct (Z.leb_spec (Renderer.decimal 0 portValue) 0); [lia|].
    destruct (Z.ltb_spec 65535 (Renderer.decimal 0 portValue)); [lia|].
    cbn [orb]. now intros [= <-].
Qed.

Lemma ui_configuration_always_has_a_port_witness :
  normalizeEndpoint
    (Probe.server (Renderer.clickConfig Ipc.Num "plc-7:4841" "4840" "" ""))
    (Probe.port (Renderer.clickConfig Ipc.Num "plc-7:4841" "4840" "" ""))
  = Ok "opc.tcp://plc-7:4840".
Proof.
  destruct (ui_configuration_always_has_a_port Ipc.Num "plc-7:4841" "4840" "" "")
    as (p & _ & _ & _ & _ & _ & Hn & Hp).
  rewrite Hn.
  rewrite (Hp (fun v _ => eq_refl) ltac:(discriminate) eq_refl
              ltac:(split; vm_compute; intros H; discriminate H)).
  vm_compute. reflexivity.
Defined.

(** ** The life of the worker in the main process *)

Section MainFacts.

Import Main.

Lemma killWorker_Tracked (s : State) : Tracked s -> Tracked (killWorker s).
Proof.
  intros HT. pose proof HT as (Hw & Hr & Hk & Hnr & Hnk). unfold killWorker.
  destruct (worker s) as [w|] eqn:Hcur; [|exact HT].
  destruct (Hw w eq_refl) as (Hlast & Hrun & Hnot).
  unfold Tracked. cbn [worker forked running killed].
  split; [|split; [|split; [|split]]].
  - discriminate.
  - exact Hr.
  - intros x [Hx|Hx%list_elem_of_singleton]%elem_of_app; [now apply Hk|].
    subst x. now apply Hr.
  - exact Hnr.
  - apply NoDup_app. split; [exact Hnk|]. split; [|apply NoDup_singleton].
    intros x Hx ->%list_elem_of_singleton. contradiction.
Qed.

Lemma killWorker_worker (s : State) : worker (killWorker s) = None.
Proof. unfold killWorker. now destruct (worker s) eqn:H. Qed.

Lemma killWorker_keeps (s : State) :
  forked (killWorker s) = forked s /\ running (killWorker s) = running s.
Proof. unfold killWorker. now destruct (worker s). Qed.

Lemma step_Tracked (s : State) (e : Event) : Tracked s -> Tracked (step s e).
Proof.
  intros HT. destruct e as [probeConfig| |w msg|w code signal]; cbn [step].
  - apply killWorker_Tracked in HT. unfold onRunProbe.
    destruct HT as (Hw & Hr & Hk & Hnr & Hnk).
    set (s' := killWorker s) in *.
    unfold Tracked. cbn [worker forked running killed].
    split; [|split; [|split; [|split]]].
    + intros x [= <-]. split; [reflexivity|]. split.
      * apply elem_of_app. right. now apply list_elem_of_singleton.
      * intros Hin. apply Hk in Hin. lia.
    + intros x [Hx|Hx%list_elem_of_singleton]%elem_of_app;
        [apply Hr in Hx; lia | lia].
    + intros x Hx. apply Hk in Hx. lia.
    + apply NoDup_app. split; [exact Hnr|]. split; [|apply NoDup_singleton].
      intros x Hx ->%list_elem_of_singleton. apply Hr in Hx. lia.
    + exact Hnk.
  - now apply killWorker_Tracked.
  - destruct (decide (w ∈ running s)); [|exact HT]. exact HT.
  - destruct (decide (w ∈ running s)); [|exact HT].
    destruct HT as (Hw & Hr & Hk & Hnr & Hnk). unfold onWorkerExit.
    unfold Tracked. cbn [worker forked running killed].
    split; [|split; [|split; [|split]]].
    + discriminate.
    + intros x Hx. apply list_elem_of_In, filter_In in Hx as [Hx _].
      now apply Hr, list_elem_of_In.
    + exact Hk.
    + now apply NoDup_ListNoDup, List.NoDup_filter, NoDup_ListNoDup.
    + exact Hnk.
Qed.

Lemma fold_Tracked (events : list Event) (s : State) :
  Tracked s -> Tracked (fold_left step events s).
Proof.
  revert s. induction events as [|e rest IH]; intros s HT; [exact HT|].
  cbn [fold_left]. now apply IH, step_Tracked.
Qed.

Lemma run_Tracked (events : list Event) : Tracked (run events).
Proof.
  apply fold_Tracked. unfold Tracked. cbn.
  split; [discriminate|].
  split; [intros w H; now apply elem_of_nil in H|].
  split; [intros w H; now apply elem_of_nil in H|].
  split; constructor.
Qed.

End MainFacts.

(** X24.  Whatever the renderer requests and the workers do, the
    variable [worker] of the main process is either empty or holds
    the worker forked last, which is running and was never sent
    [kill()]; [kill()] is sent to a worker at most once; and a worker
    receives its [start] message exactly when it is forked. *)
Theorem worker_variable_holds_the_latest_worker (events : list Main.Event) :
  let s := Main.run events in
  (forall w, Main.worker s = Some w ->
             S w = Main.forked s /\ w ∈ Main.running s /\ (w ∉ Main.killed s))
  /\ NoDup (Main.killed s)
  /\ NoDup (Main.running s)
  /\ map fst (Main.started s) = seq 0 (Main.forked s).
Proof.
  cbv zeta. destruct (run_Tracked events) as (Hw & _ & _ & Hnr & Hnk).
  split; [exact Hw|]. split; [exact Hnk|]. split; [exact Hnr|].
  clear Hw Hnr Hnk. unfold Main.run.
  assert (H : forall s, map fst (Main.started s) = seq 0 (Main.forked s) ->
              map fst (Main.started (fold_left Main.step events s))
              = seq 0 (Main.forked (fold_left Main.step events s))).
  { induction events as [|e rest IH]; intros s Hs; [exact Hs|].
    cbn [fold_left]. apply IH.
    destruct e as [probeConfig| |w msg|w code signal]; cbn [Main.step].
    - unfold Main.onRunProbe, Main.killWorker.
      destruct (Main.worker s); cbv zeta; cbn [Main.started Main.forked];
        rewrite List.map_app, Hs, seq_S; reflexivity.
    - unfold Main.onCancelProbe, Main.killWorker. now destruct (Main.worker s).
    - now destruct (decide (w ∈ Main.running s)).
    - now destruct (decide (w ∈ Main.running s)). }
  now apply H.
Qed.

(** X25.  Restarting a probe that is still running makes the main
    process lose its new worker.  From any state in which [worker]
    holds a worker w, [run-probe] kills w and forks a new worker; the
    exit of w, which can only be delivered afterwards, reports
    [finished] to the renderer and empties [worker] although the new
    worker is running and was not killed.  From then on
    [cancel-probe] kills nothing, and a further [run-probe] forks a
    third worker beside the second, both running and neither
    killed. *)
Theorem restart_forgets_the_new_worker (events : list Main.Event)
        (probeConfig again : Probe.Config) (w : Main.Pid)
        (code : option Z) (signal : option string) :
  Main.worker (Main.run events) = Some w ->
  let s := Main.run events in
  let s1 := Main.step s (Main.RunProbe probeConfig) in
  let s2 := Main.step s1 (Main.WorkerExit w code signal) in
  Main.worker s1 = Some (Main.forked s)
  /\ w ∈ Main.killed s1 /\ w ∈ Main.running s1
  /\ Main.worker s2 = None
  /\ last (Main.toRenderer s2) = Some (Main.Finished w code signal)
  /\ Main.forked s ∈ Main.unchecked s2
  /\ Main.step s2 Main.CancelProbe = s2
  /\ Main.forked s ∈ Main.unchecked (Main.step s2 (Main.RunProbe again))
  /\ S (Main.forked s) ∈ Main.unchecked (Main.step s2 (Main.RunProbe again)).
Proof.
  intros Hcur. cbv zeta.
  destruct (run_Tracked events) as (Hw & Hr & Hk & Hnr & Hnk).
  destruct (Hw w Hcur) as (Hlast & Hrun & Hnot).
  set (s := Main.run events) in *.
  assert (Hs1 : Main.step s (Main.RunProbe probeConfig)
                = Main.mkState (Some (Main.forked s)) (S (Main.forked s))
                    (Main.running s ++ [Main.forked s]) (Main.killed s ++ [w])
                    (Main.started s ++ [(Main.forked s, probeConfig)])
                    (Main.toRenderer s)).
  { cbn [Main.step]. unfold Main.onRunProbe, Main.killWorker. now rewrite Hcur. }
  rewrite Hs1. cbn [Main.worker Main.killed Main.running].
  assert (Hin1 : w ∈ Main.running s ++ [Main.forked s])
    by (apply elem_of_app; now left).
  assert (Hs2 : Main.step
                  (Main.mkState (Some (Main.forked s)) (S (Main.forked s))
                     (Main.running s ++ [Main.forked s]) (Main.killed s ++ [w])
                     (Main.started s ++ [(Main.forked s, probeConfig)])
                     (Main.toRenderer s))
                  (Main.WorkerExit w code signal)
                = Main.mkState None (S (Main.forked s))
                    (List.filter (fun x => negb (Nat.eqb x w))
                                 (Main.running s ++ [Main.forked s]))
                    (Main.killed s ++ [w])
                    (Main.started s ++ [(Main.forked s, probeConfig)])
                    (Main.toRenderer s ++ [Main.Finished w code signal])).
  { cbn [Main.step Main.running].
    destruct (decide (w ∈ Main.running s ++ [Main.forked s])); [|contradiction].
    reflexivity. }
  rewrite Hs2. cbn [Main.worker Main.toRenderer].
  assert (Hnew : Main.forked s ∈
                   List.filter (fun x => negb (Nat.eqb x w))
                               (Main.running s ++ [Main.forked s])).
  { apply list_elem_of_In, filter_In. split.
    - apply list_elem_of_In, elem_of_app. right. now apply list_elem_of_singleton.
    - destruct (Nat.eqb_spec (Main.forked s) w); [lia | reflexivity]. }
  assert (Hfresh : Main.forked s ∉ Main.killed s ++ [w]).
  { intros [Hx|Hx%list_elem_of_singleton]%elem_of_app; [apply Hk in Hx; lia | lia]. }
  split; [reflexivity|].
  split; [apply elem_of_app; right; now apply list_elem_of_singleton|].
  split; [exact Hin1|]. split; [reflexivity|].
  split; [apply last_snoc|].
  split.
  { unfold Main.unchecked. cbn [Main.running Main.killed].
    apply list_elem_of_In, filter_In. split; [now apply list_elem_of_In|].
    now rewrite bool_decide_eq_false_2. }
  split; [reflexivity|].
  cbn [Main.step]. unfold Main.onRunProbe, Main.killWorker, Main.unchecked.
  cbn [Main.worker Main.running Main.killed Main.forked].
  split.
  - apply list_elem_of_In, filter_In. split.
    + apply list_elem_of_In, elem_of_app. now left.
    + now rewrite bool_decide_eq_false_2.
  - apply list_elem_of_In, filter_In. split.
    + apply list_elem_of_In, elem_of_app. right. now apply list_elem_of_singleton.
    + rewrite bool_decide_eq_false_2; [reflexivity|].
      intros [Hx|Hx%list_elem_of_singleton]%elem_of_app; [apply Hk in Hx; lia | lia].
Qed.

Lemma restart_forgets_the_new_worker_witness :
  Main.worker
    (Main.step (Main.step (Main.run [Main.RunProbe Probe.plainConfig])
                          (Main.RunProbe Probe.plainConfig))
               (Main.WorkerExit 0%nat None (Some "SIGTERM")))
  = None
  /\ 1%nat ∈ Main.unchecked
       (Main.step (Main.step (Main.run [Main.RunProbe Probe.plainConfig])
                             (Main.RunProbe Probe.plainConfig))
                  (Main.WorkerExit 0%nat None (Some "SIGTERM"))).
Proof.
  destruct (restart_forgets_the_new_worker [Main.RunProbe Probe.plainConfig]
              Probe.plainConfig Probe.plainConfig 0%nat None (Some "SIGTERM")
              eq_refl)
    as (_ & _ & _ & Hnone & _ & Hrun & _).
  split; [exact Hnone | exact Hrun].
Defined.

(** ** What the renderer shows *)

Section DisplayFacts.

Import Ipc Display.

Lemma getUniquePorts_fold (listeners : list SocketRecord) (acc : list string)
      (p : string) :
  p ∈ fold_left (fun ports l =>
                   if negb (String.eqb (Netstat.localPort l) "")
                   then Set_add ports (Netstat.localPort l) else ports)
                listeners acc
  <-> p ∈ acc
      \/ (p <> "" /\ exists l, l ∈ listeners /\ Netstat.localPort l = p).
Proof.
  revert acc. induction listeners as [|l rest IH]; intros acc; cbn [fold_left].
  - split; [tauto|]. intros [H|(_ & l & H & _)]; [exact H|].
    now apply elem_of_nil in H.
  - rewrite IH. destruct (String.eqb_spec (Netstat.localPort l) "") as [He|Hne];
      cbn [negb].
    + split.
      * intros [H|(Hp & l' & Hin & Hl')]; [now left|].
        right. split; [exact Hp|]. exists l'. split; [|exact Hl'].
        now apply list_elem_of_further.
      * intros [H|(Hp & l' & Hin & Hl')]; [now left|].
        apply elem_of_cons in Hin as [Heq|Hin]; [subst l'; congruence|].
        right. split; [exact Hp|]. now exists l'.
    + unfold Set_add. split.
      * intros [H|(Hp & l' & Hin & Hl')].
        -- destruct (decide (Netstat.localPort l ∈ acc)); [now left|].
           apply elem_of_app in H as [H|H%list_elem_of_singleton]; [now left|].
           right. subst p. split; [exact Hne|]. exists l.
           split; [apply list_elem_of_here | reflexivity].
        -- right. split; [exact Hp|]. exists l'. split; [|exact Hl'].
           now apply list_elem_of_further.
      * intros [H|(Hp & l' & Hin & Hl')].
        -- left. destruct (decide (Netstat.localPort l ∈ acc)); [exact H|].
           apply elem_of_app. now left.
        -- apply elem_of_cons in Hin as [Heq|Hin].
           ++ left. subst l' p.
              destruct (decide (Netstat.localPort l ∈ acc)); [assumption|].
              apply elem_of_app. right. now apply list_elem_of_singleton.
           ++ right. split; [exact Hp|]. now exists l'.
Qed.

Lemma getUniquePorts_elem (listeners : list SocketRecord) (p : string) :
  p ∈ getUniquePorts listeners
  <-> p <> "" /\ exists l, l ∈ listeners /\ Netstat.localPort l = p.
Proof.
  unfold getUniquePorts. rewrite getUniquePorts_fold, elem_of_nil. tauto.
Qed.

Lemma lastIndexOf_join (c : ascii) (a p : string) :
  all_chars (fun d => negb (Ascii.eqb d c)) p = true ->
  lastIndexOf c (a +:+ String c p) = Some (String.length a).
Proof.
  intros Hp. induction a as [|d a IH].
  - rewrite app_nil_s. cbn [lastIndexOf].
    apply lastIndexOf_None in Hp. rewrite Hp. now rewrite Ascii.eqb_refl.
  - rewrite app_cons. cbn [lastIndexOf String.length]. now rewrite IH.
Qed.

Lemma sliceFrom_join (c : ascii) (a p : string) :
  sliceFrom (S (String.length a)) (a +:+ String c p) = p.
Proof.
  induction a as [|d a IH]; [now rewrite app_nil_s|].
  rewrite app_cons. exact IH.
Qed.

Lemma splitAtLastColon_join (a p : string) :
  all_chars (fun d => negb (Ascii.eqb d ":")) p = true ->
  splitAtLastColon (a +:+ ":" +:+ p) = (a, p).
Proof.
  intros Hp. unfold splitAtLastColon.
  change (a +:+ ":" +:+ p) with (a +:+ String ":" p).
  now rewrite (lastIndexOf_join ":" a p Hp), substringTo_app, sliceFrom_join.
Qed.

Lemma parsed_port_has_no_colon (stdout : string) (listeners : list SocketRecord)
      (l : SocketRecord) :
  parseListeners stdout = Ok listeners -> l ∈ listeners ->
  all_chars (fun d => negb (Ascii.eqb d ":")) (Netstat.localPort l) = true.
Proof.
  rewrite parseListeners_rows. intros [= <-] Hin.
  apply list_elem_of_In, in_map_iff in Hin as (parts & <- & _).
  cbn [socketOfRow Netstat.localPort]. apply splitAtLastColon_cases.
Qed.

Ltac run :=
  cbv [Probe.bind Probe.ret Probe.throw Probe.tryCatch Probe.lift Probe.send
       Probe.appendLog Probe.appendDetail Probe.block Probe.write Probe.reliable
       Probe.logError Probe.logWarning Probe.pushError Probe.pushWarning
       Probe.invoke];
  cbn [Probe.messages Probe.errors Probe.warnings Probe.calls Probe.logFile
       fst snd];
  change (fun (_ : list Probe.LogStep) (_ : Probe.LogStep) => @None JsError)
    with Probe.reliable.



End DisplayFacts.

(** X26.  For the listeners parsed from any two socket tables, every
    port that the renderer announces as new after the subscription
    is the port of a listener whose address-and-port key the worker
    files under the new ports of its comparison.  The renderer
    compares port numbers and the worker compares keys, so the
    renderer never announces a port that the log file does not
    show as new. *)
Theorem announced_ports_are_logged_as_new (stdoutBefore stdoutAfter : string)
        (before after : list SocketRecord) (p : string) :
  parseListeners stdoutBefore = Ok before ->
  parseListeners stdoutAfter = Ok after ->
  p ∈ Display.newPortsShown before after ->
  exists l, l ∈ after /\ Netstat.localPort l = p
            /\ portKey l ∈ newPorts (comparison before after).
Proof.
  intros Hb Ha Hp. unfold Display.newPortsShown in Hp.
  apply list_elem_of_filter in Hp as [Hnot Hin].
  rewrite Set_of_elem in Hnot.
  apply getUniquePorts_elem in Hin as (Hne & l & Hl & Hport).
  exists l. split; [exact Hl|]. split; [exact Hport|].
  unfold comparison. cbn [newPorts]. apply list_elem_of_filter. split.
  - rewrite Set_of_elem. intros Hkey.
    apply list_elem_of_In, in_map_iff in Hkey as (l' & Hkey & Hl').
    apply list_elem_of_In in Hl'.
    assert (Hsame : Netstat.localPort l' = Netstat.localPort l).
    { pose proof (parsed_port_has_no_colon _ _ _ Hb Hl') as Hc'.
      pose proof (parsed_port_has_no_colon _ _ _ Ha Hl) as Hc.
      unfold portKey in Hkey.
      pose proof (splitAtLastColon_join (Netstat.localAddress l') _ Hc') as H1.
      pose proof (splitAtLastColon_join (Netstat.localAddress l) _ Hc) as H2.
      rewrite Hkey in H1. rewrite H1 in H2. now injection H2. }
    apply Hnot. apply getUniquePorts_elem. split; [exact Hne|].
    exists l'. split; [exact Hl' | congruence].
  - rewrite Set_of_elem. apply list_elem_of_In, in_map_iff.
    exists l. split; [reflexivity | now apply list_elem_of_In].
Qed.

Lemma announced_ports_are_logged_as_new_witness :
  exists l,
    l ∈ [mkSocket (Some "TCP") "0.0.0.0" "135" "4";
         mkSocket (Some "TCP") "0.0.0.0" "135" "4"]
    /\ Netstat.localPort l = "135"
    /\ portKey l
       ∈ newPorts (comparison []
                     [mkSocket (Some "TCP") "0.0.0.0" "135" "4";
                      mkSocket (Some "TCP") "0.0.0.0" "135" "4"]).
Proof.
  apply (announced_ports_are_logged_as_new netstatHeader repeatedRowTable).
  - reflexivity.
  - vm_compute. reflexivity.
  - apply list_elem_of_In. vm_compute. left. reflexivity.
Defined.

